(** * maktabkhooneh-downloader: the retrying request client, the session
    manager and the resumable transfer engine of [download.mjs].

    The JavaScript of [src/download.mjs] is embedded shallowly.  Numbers that
    the program only ever uses as integers (attempt counters, byte counts,
    status codes, delays) are [Z]; strings are Rocq strings, read as
    sequences of 8-bit code units; plain JS objects used as dictionaries
    (header bags, the file tree) are [gmap]s; ordered maps ([Map]) are
    association lists.  Asynchronous functions become computations in a
    state-and-exception monad over a [World] that holds the module-level
    variables, the files, the remote side and a trace of what was sent. *)

From Stdlib Require Import ZArith String Ascii List Bool Lia.
From Stdlib.Strings Require Import Byte.
From stdpp Require Import gmap strings list fin_maps pretty.

Local Open Scope string_scope.
Local Open Scope Z_scope.

(** ** JavaScript string primitives used by the program *)

Module Js.

Definition is_upper (c : ascii) : bool :=
  let n := N_of_ascii c in (65 <=? n)%N && (n <=? 90)%N.

Definition is_lower (c : ascii) : bool :=
  let n := N_of_ascii c in (97 <=? n)%N && (n <=? 122)%N.

Definition is_digit (c : ascii) : bool :=
  let n := N_of_ascii c in (48 <=? n)%N && (n <=? 57)%N.

Definition digit_val (c : ascii) : Z := Z.of_N (N_of_ascii c) - 48.

Definition lower_char (c : ascii) : ascii :=
  if is_upper c then ascii_of_N (N_of_ascii c + 32) else c.

Definition upper_char (c : ascii) : ascii :=
  if is_lower c then ascii_of_N (N_of_ascii c - 32) else c.

Fixpoint map_chars (f : ascii -> ascii) (s : string) : string :=
  match s with
  | EmptyString => EmptyString
  | String c r => String (f c) (map_chars f r)
  end.

(** [String.prototype.toLowerCase] / [toUpperCase], on the ASCII letters. *)
Definition toLowerCase : string -> string := map_chars lower_char.
Definition toUpperCase : string -> string := map_chars upper_char.

(** [s.includes(sub)] *)
Fixpoint includes (s sub : string) : bool :=
  String.prefix sub s ||
  match s with
  | EmptyString => false
  | String _ r => includes r sub
  end.

(** [s.indexOf(c)] for a one-character needle; [None] stands for [-1]. *)
Fixpoint indexOf (c : ascii) (s : string) : option nat :=
  match s with
  | EmptyString => None
  | String d r => if Ascii.eqb c d then Some O else option_map S (indexOf c r)
  end.

Fixpoint drop_while (p : ascii -> bool) (s : string) : string :=
  match s with
  | EmptyString => EmptyString
  | String c r => if p c then drop_while p r else s
  end.

Fixpoint take_while (p : ascii -> bool) (s : string) : string :=
  match s with
  | EmptyString => EmptyString
  | String c r => if p c then String c (take_while p r) else EmptyString
  end.

(** The white space and line terminators of JavaScript among the 8-bit
    code units: tab, line feed, vertical tab, form feed, carriage return,
    space and the no-break space (160).  It is what [trim] and [parseInt]
    strip and what [\s] matches. *)
Definition is_space (c : ascii) : bool :=
  Ascii.is_space c || (N_of_ascii c =? 160)%N.

(** [s.trim()] *)
Definition trim (s : string) : string :=
  String.rev (drop_while is_space (String.rev (drop_while is_space s))).

(** [s.split(';')[0]]: the text before the first separator. *)
Definition first_segment (sep : ascii) (s : string) : string :=
  take_while (fun c => negb (Ascii.eqb c sep)) s.

(** [s.slice(0, n)] and [s.slice(n)] for [0 <= n]. *)
Definition slice_to (n : nat) (s : string) : string := substring 0 n s.
Definition slice_from (n : nat) (s : string) : string :=
  substring n (String.length s - n) s.

Fixpoint digits_value (acc : Z) (s : string) : Z :=
  match s with
  | EmptyString => acc
  | String c r => digits_value (10 * acc + digit_val c) r
  end.

(** [parseInt(s, 10)]: leading white space, an optional sign, then the
    longest run of decimal digits; [None] stands for [NaN]. *)
Definition parseInt (s : string) : option Z :=
  let s := drop_while is_space s in
  let '(sign, s) :=
    match s with
    | String "-"%char r => (-1, r)
    | String "+"%char r => (1, r)
    | _ => (1, s)
    end in
  match take_while is_digit s with
  | EmptyString => None
  | ds => Some (sign * digits_value 0 ds)
  end.

(** Truthiness of a string that may be [null]/[undefined]. *)
Definition truthy_str (o : option string) : bool :=
  match o with
  | Some (String _ _) => true
  | _ => false
  end.

(** [o || ''] *)
Definition or_empty (o : option string) : string :=
  match o with
  | Some s => s
  | None => ""
  end.

(** [s.match(/\/(\d+)$/)]: the first capture group, when the text ends in
    a slash followed by one or more digits. *)
Definition match_slash_digits (s : string) : option string :=
  let r := String.rev s in
  match take_while is_digit r, drop_while is_digit r with
  | String d ds, String "/"%char _ => Some (String.rev (String d ds))
  | _, _ => None
  end.

(** [/HTTP (408|425|429|5\d\d)/.test(s)] *)
Definition retry_code_here (s : string) : bool :=
  String.prefix "HTTP 408" s || String.prefix "HTTP 425" s ||
  String.prefix "HTTP 429" s ||
  match s with
  | String "H" (String "T" (String "T" (String "P" (String " "
      (String "5" (String a (String b _))))))) => is_digit a && is_digit b
  | _ => false
  end.

Fixpoint test_retry_code (s : string) : bool :=
  retry_code_here s ||
  match s with
  | EmptyString => false
  | String _ r => test_retry_code r
  end.

(** The double-quote character, for templates that contain it. *)
Definition dq : string := String (ascii_of_nat 34) EmptyString.
(** The line separator of [lines.join('\n')]. *)
Definition nl : string := String (ascii_of_nat 10) EmptyString.

(** Template interpolation of an integer. *)
Definition ofZ (z : Z) : string := pretty z.

Fixpoint join (sep : string) (l : list string) : string :=
  match l with
  | [] => ""
  | [x] => x
  | x :: r => x +:+ sep +:+ join sep r
  end.

End Js.

(** ** Backoff and classification (download.mjs, 110-127) *)

(** A thrown [Error]: its [name], its [message], and [cause.code] when the
    transport attached one. *)
Record JsError := mkJsError {
  err_name : string;
  err_message : string;
  err_cause_code : option string
}.

(** [new Error(msg)] *)
Definition new_Error (msg : string) : JsError :=
  {| err_name := "Error"; err_message := msg; err_cause_code := None |}.

Definition toBackoffMs (attempt : Z) : Z :=
  Z.min 30000 (700 * 2 ^ Z.max 0 (attempt - 1)).

Definition isRetriableStatus (status : Z) : bool :=
  (status =? 408) || (status =? 425) || (status =? 429) ||
  ((500 <=? status) && (status <=? 599)).

Definition isTimeoutError (err : JsError) : bool :=
  let m := Js.toLowerCase (err_message err) in
  String.eqb (err_name err) "AbortError" ||
  Js.includes m "timeout" || Js.includes m "timed out".

Definition retriable_codes : list string :=
  ["ECONNRESET"; "ECONNREFUSED"; "ETIMEDOUT"; "EPIPE"; "ENOTFOUND";
   "EHOSTUNREACH"; "EAI_AGAIN"].

Definition isRetriableNetworkError (err : JsError) : bool :=
  if isTimeoutError err then true
  else
    let c := Js.toUpperCase (Js.or_empty (err_cause_code err)) in
    existsb (String.eqb c) retriable_codes.

(** ** Actionable error texts (download.mjs, 129-189) *)

Definition ACTIONABLE_URL_PLACEHOLDER : string :=
  "https://maktabkhooneh.org/course/<slug>/".

Definition nonempty (s : string) : bool :=
  match s with EmptyString => false | _ => true end.

Definition buildActionableError (code why : string) (next : list string)
  : string :=
  let nextLines := List.filter nonempty next in
  let lines := ["[" +:+ code +:+ "] " +:+ why] in
  let lines :=
    match nextLines with
    | [] => lines
    | _ => (lines ++ ["Next step:"] ++ map (fun n => "- " +:+ n) nextLines)%list
    end in
  Js.join Js.nl lines.

Definition explainHttpFailure (status : Z) (context : string) : string :=
  if status =? 401 then
    buildActionableError "AUTH_401"
      (context +:+ " failed with 401 Unauthorized. Your session/cookie is invalid or expired.")
      ["Re-login with: node download.mjs " +:+ Js.dq +:+
         ACTIONABLE_URL_PLACEHOLDER +:+ Js.dq +:+ " --force-login";
       "Or set auth.email/auth.password in config.json"]
  else if status =? 403 then
    buildActionableError "ACCESS_403"
      (context +:+ " failed with 403 Forbidden. Your account does not have access to this course/content, or cookie was rejected.")
      ["Make sure you are logged in with the account that purchased the course.";
       "Retry after re-login: node download.mjs " +:+ Js.dq +:+
         ACTIONABLE_URL_PLACEHOLDER +:+ Js.dq +:+ " --force-login"]
  else if status =? 429 then
    buildActionableError "RATE_LIMIT_429"
      (context +:+ " failed with 429 Too Many Requests.")
      ["Wait a few minutes and retry.";
       "Optionally reduce pressure by selecting smaller scope: --chapter 1 --lesson 1-3"]
  else if 500 <=? status then
    buildActionableError ("SERVER_" +:+ Js.ofZ status)
      (context +:+ " failed with " +:+ Js.ofZ status +:+
         ". Temporary server-side issue.")
      ["Retry the same command after a short delay."]
  else
    buildActionableError ("HTTP_" +:+ Js.ofZ status)
      (context +:+ " failed with HTTP " +:+ Js.ofZ status +:+ ".")
      ["Run again with --verbose to inspect details."].

(** ** JSON values, as [JSON.parse] returns them *)

#[local] Set Warnings "-register-all".

Inductive Json :=
| JNull
| JBool (b : bool)
| JNum (z : Z)
| JStr (s : string)
| JArr (items : list Json)
| JObj (fields : list (string * Json)).

Module JsonOps.

Fixpoint assoc (k : string) (l : list (string * Json)) : option Json :=
  match l with
  | [] => None
  | (k', v) :: r => if String.eqb k k' then Some v else assoc k r
  end.

(** [j?.k]; [None] is [undefined]. *)
Definition get (j : option Json) (k : string) : option Json :=
  match j with
  | Some (JObj fields) => assoc k fields
  | _ => None
  end.

(** [!!j] *)
Definition truthy (j : option Json) : bool :=
  match j with
  | None | Some JNull => false
  | Some (JBool b) => b
  | Some (JNum z) => negb (z =? 0)
  | Some (JStr s) => nonempty s
  | Some (JArr _) | Some (JObj _) => true
  end.

(** [j === s] for a string literal [s] *)
Definition is_string (j : option Json) (s : string) : bool :=
  match j with
  | Some (JStr t) => String.eqb t s
  | _ => false
  end.

(** Interpolation of a value in a template string. *)
Fixpoint to_string (j : Json) : string :=
  match j with
  | JNull => "null"
  | JBool true => "true"
  | JBool false => "false"
  | JNum z => Js.ofZ z
  | JStr s => s
  | JArr items =>
      Js.join ","
        (map (fun x => match x with JNull => "" | _ => to_string x end) items)
  | JObj _ => "[object Object]"
  end.

Definition interpolate (j : option Json) : string :=
  match j with
  | None => "undefined"
  | Some v => to_string v
  end.

End JsonOps.

(** ** The world the program runs in *)

(** The outcome of an awaited call: a value, or a thrown error. *)
Inductive Res (A : Type) :=
| Ret (a : A)
| Throw (e : JsError).
Arguments Ret {A} a.
Arguments Throw {A} e.

(** A [fetch] request: the URL and the [method] and [headers] of its init
    object. *)
Record FetchRequest := mkFetchRequest {
  fq_url : string;
  fq_method : string;
  fq_headers : gmap string string
}.

(** A response body as a stream: the chunks it delivers and then either a
    clean end or the error that breaks it (a reset connection, or the
    [AbortError] raised when one of the two timers aborts the request). *)
Record Body := mkBody {
  body_chunks : list (list byte);
  body_error : option JsError
}.

(** A [fetch] response.  Header names are lower-case.  [res_json] is what
    [res.json()] resolves to; [None] when it rejects. *)
Record FetchResponse := mkFetchResponse {
  res_status : Z;
  res_headers : gmap string string;
  res_body : option Body;
  res_json : option Json
}.

Definition res_ok (res : FetchResponse) : bool :=
  (200 <=? res_status res) && (res_status res <=? 299).

(** A request through [https.request] (the login client).  The body is the
    list of form fields that [URLSearchParams] serialises. *)
Record RawRequest := mkRawRequest {
  rq_url : string;
  rq_method : string;
  rq_headers : gmap string string;
  rq_body : option (list (string * string))
}.

(** What [rawRequest] resolves to: the status, the [set-cookie] lines and
    the body, which the program only ever passes to [JSON.parse]:
    [raw_json] is the parsed value, [None] when [JSON.parse] throws. *)
Record RawResponse := mkRawResponse {
  raw_status : Z;
  raw_set_cookie : list string;
  raw_json : option Json
}.

Inductive Event :=
| EvFetch (q : FetchRequest)
| EvRaw (q : RawRequest)
| EvSleep (ms : Z)
| EvProgress (resumeOffset : Z) (expectedTotal : option Z)
| EvSaveConfig (sessionCookie : option string).

(** Module-level variables ([ACTIVE_COOKIE], [COOKIE],
    [RUNTIME_CONFIG.retryAttempts]), the caller's [config.auth.sessionCookie],
    the files, and the remote side: what the [tick]-th network call of the
    run is answered with.  A timer that fires shows as the [AbortError] (or
    timeout error) the call is answered with.

    Three more things belong to the surroundings of a run.  [configPath] is
    where the configuration file lives (the [configPath] that the caller
    hands to [prepareSession]).  [config_text t c] is what
    [fs.promises.writeFile] makes of that file when [saveConfigFile] runs
    after [t] network calls with [config.auth.sessionCookie] being [c]:
    [Some] of the text that [JSON.stringify(config, null, 2)] gives (the
    rest of the object, and the time stamp put into it, are not the
    program's), or [None] when the write is refused.  [teardown t] says how many of the bytes that a
    [ByteLimit] has pushed are in the file at the moment the pipeline
    destroys the write stream, when [t] network calls have been made: the
    limiter has the source destroyed from inside [_transform], and what
    has been pushed but not yet written is lost with the stream. *)
Record World := mkWorld {
  ACTIVE_COOKIE : option string;
  COOKIE : string;
  retryAttempts : Z;
  sessionCookie : option string;
  files : gmap string (list byte);
  tick : nat;
  trace : list Event;
  remote_fetch : nat -> FetchRequest -> Res FetchResponse;
  remote_raw : nat -> RawRequest -> Res RawResponse;
  configPath : string;
  config_text : nat -> option string -> option (list byte);
  teardown : nat -> nat
}.

Definition set_ACTIVE_COOKIE (c : option string) (w : World) : World :=
  mkWorld c (COOKIE w) (retryAttempts w) (sessionCookie w) (files w)
    (tick w) (trace w) (remote_fetch w) (remote_raw w)
    (configPath w) (config_text w) (teardown w).

Definition set_sessionCookie (c : option string) (w : World) : World :=
  mkWorld (ACTIVE_COOKIE w) (COOKIE w) (retryAttempts w) c (files w)
    (tick w) (trace w) (remote_fetch w) (remote_raw w)
    (configPath w) (config_text w) (teardown w).

Definition set_files (f : gmap string (list byte)) (w : World) : World :=
  mkWorld (ACTIVE_COOKIE w) (COOKIE w) (retryAttempts w) (sessionCookie w) f
    (tick w) (trace w) (remote_fetch w) (remote_raw w)
    (configPath w) (config_text w) (teardown w).

Definition log_event (e : Event) (w : World) : World :=
  mkWorld (ACTIVE_COOKIE w) (COOKIE w) (retryAttempts w) (sessionCookie w)
    (files w) (tick w) (trace w ++ [e])%list (remote_fetch w) (remote_raw w)
    (configPath w) (config_text w) (teardown w).

Definition next_tick (w : World) : World :=
  mkWorld (ACTIVE_COOKIE w) (COOKIE w) (retryAttempts w) (sessionCookie w)
    (files w) (S (tick w)) (trace w) (remote_fetch w) (remote_raw w)
    (configPath w) (config_text w) (teardown w).

(** ** Computations: state and exceptions *)

Definition M (S A : Type) : Type := S -> Res A * S.

Definition ret {S A} (a : A) : M S A := fun s => (Ret a, s).

Definition throw {S A} (e : JsError) : M S A := fun s => (Throw e, s).

Definition bind {S A B} (m : M S A) (k : A -> M S B) : M S B :=
  fun s =>
    match m s with
    | (Ret a, s') => k a s'
    | (Throw e, s') => (Throw e, s')
    end.

(** [try { m } catch (e) { h e }]: what [m] did to the state before it
    threw stays done. *)
Definition try_catch {S A} (m : M S A) (h : JsError -> M S A) : M S A :=
  fun s =>
    match m s with
    | (Ret a, s') => (Ret a, s')
    | (Throw e, s') => h e s'
    end.

Definition gets {S A} (f : S -> A) : M S A := fun s => (Ret (f s), s).

Definition modify {S} (f : S -> S) : M S unit := fun s => (Ret tt, f s).

Declare Scope js_scope.
Delimit Scope js_scope with js.
Notation "x <- m ;; k" := (bind m (fun x => k))
  (at level 100, m at next level, right associativity) : js_scope.
Notation "m ;; k" := (bind m (fun _ => k))
  (at level 100, right associativity) : js_scope.
Local Open Scope js_scope.

(** [try { m } catch { }] *)
Definition try_ignore {S} (m : M S unit) : M S unit :=
  try_catch m (fun _ => ret tt).

(** How a loop iteration ends: [continue], or [return a]. *)
Inductive Ctl (A : Type) :=
| Continue
| Return (a : A).
Arguments Continue {A}.
Arguments Return {A} a.

(** ** Primitives *)

(** [await fetch(url, init)] *)
Definition fetch (q : FetchRequest) : M World FetchResponse :=
  fun w => (remote_fetch w (tick w) q, next_tick (log_event (EvFetch q) w)).

(** [await rawRequest(url, opts)] *)
Definition rawRequest (q : RawRequest) : M World RawResponse :=
  fun w => (remote_raw w (tick w) q, next_tick (log_event (EvRaw q) w)).

(** [await sleep(ms)] *)
Definition sleep (ms : Z) : M World unit := modify (log_event (EvSleep ms)).

Definition ENOENT : JsError :=
  mkJsError "Error" "ENOENT: no such file or directory" None.

(** [fs.statSync(p).size] *)
Definition statSync_size (p : string) : M World Z :=
  fun w =>
    match files w !! p with
    | Some content => (Ret (Z.of_nat (length content)), w)
    | None => (Throw ENOENT, w)
    end.

(** [await fs.promises.rename(src, dst)] *)
Definition rename (src dst : string) : M World unit :=
  fun w =>
    match files w !! src with
    | Some content =>
        (Ret tt, set_files (<[dst := content]> (delete src (files w))) w)
    | None => (Throw ENOENT, w)
    end.

(** [await fs.promises.copyFile(src, dst)] *)
Definition copyFile (src dst : string) : M World unit :=
  fun w =>
    match files w !! src with
    | Some content => (Ret tt, set_files (<[dst := content]> (files w)) w)
    | None => (Throw ENOENT, w)
    end.

(** [await fs.promises.unlink(p)] *)
Definition unlink (p : string) : M World unit :=
  fun w =>
    match files w !! p with
    | Some _ => (Ret tt, set_files (delete p (files w)) w)
    | None => (Throw ENOENT, w)
    end.

(** [fs.createWriteStream(p, { flags })]: ['w'] creates or truncates,
    ['a'] creates or keeps. *)
Definition createWriteStream (p : string) (append : bool) : M World unit :=
  modify (fun w =>
    let old := if append then default [] (files w !! p) else [] in
    set_files (<[p := old]> (files w)) w).

(** One chunk reaching the write stream. *)
Definition write_chunk (p : string) (chunk : list byte) : M World unit :=
  modify (fun w =>
    set_files (<[p := (default [] (files w !! p) ++ chunk)%list]> (files w)) w).

(** ** Retrying request client (download.mjs, 210-227 and 428-507) *)

Definition ORIGIN : string := "https://maktabkhooneh.org".

Definition COOKIE_PLACEHOLDER : string := "PUT_YOUR_COOKIE_HERE".

(** [ACTIVE_COOKIE || COOKIE] *)
Definition current_cookie (w : World) : string :=
  if Js.truthy_str (ACTIVE_COOKIE w) then Js.or_empty (ACTIVE_COOKIE w)
  else COOKIE w.

Definition commonHeaders (referer : string) (w : World) : gmap string string :=
  let headers : gmap string string :=
    <["user-agent" := "Mozilla/5.0 (Windows NT 10.0; Win64; x64) AppleWebKit/537.36 (KHTML, like Gecko) Chrome/125 Safari/537.36"]>
    (<["x-requested-with" := "XMLHttpRequest"]>
    (<["pragma" := "no-cache"]>
    (<["cache-control" := "no-cache"]>
    (<["accept-language" := "en-US,en;q=0.9,fa;q=0.8"]>
    (<["accept" := "*/*"]> ∅))))) in
  let ck := current_cookie w in
  let headers :=
    if nonempty ck && negb (String.eqb ck COOKIE_PLACEHOLDER)
    then <["cookie" := ck]> headers else headers in
  if nonempty referer then <["referer" := referer]> headers else headers.

(** [fetchWithTimeout]: the abort timer is part of how the remote side
    answers (an [AbortError] once [timeoutMs] has passed). *)
Definition fetchWithTimeout (q : FetchRequest) : M World FetchResponse :=
  fetch q.

(** The body of [fetchWithRetry]'s [for] loop, from [attempt] on, with [n]
    iterations left before [attempt <= retries] fails.  No caller passes
    [onRetry]. *)
Fixpoint fetchWithRetry_loop (q : FetchRequest) (retries : Z) (n : nat)
    (attempt : Z) (lastErr : option JsError) : M World FetchResponse :=
  match n with
  | O =>
      throw (match lastErr with
             | Some e => e
             | None => new_Error "Request failed after retries"
             end)
  | S n' =>
      c <- try_catch
             (res <- fetchWithTimeout q ;;
              if isRetriableStatus (res_status res) && (attempt <? retries)
              then sleep (toBackoffMs attempt) ;; ret (Continue, lastErr)
              else ret (Return res, lastErr))
             (fun err =>
                if (attempt <? retries) && isRetriableNetworkError err
                then sleep (toBackoffMs attempt) ;; ret (Continue, Some err)
                else throw err) ;;
      match c with
      | (Continue, lastErr') =>
          fetchWithRetry_loop q retries n' (attempt + 1) lastErr'
      | (Return res, _) => ret res
      end
  end.

Definition fetchWithRetry (q : FetchRequest) (retries : Z)
  : M World FetchResponse :=
  fetchWithRetry_loop q retries (Z.to_nat retries) 1 None.

(** [{ size, acceptRanges }]; a [size] of [None] is [undefined] or [NaN],
    which the program treats alike. *)
Record RemoteInfo := mkRemoteInfo {
  size : option Z;
  acceptRanges : bool
}.

(** The first [try] block of [getRemoteSizeAndRanges]: [HEAD]. *)
Definition probe_by_head (url referer : string) : M World (option RemoteInfo) :=
  try_catch
    (h <- gets (commonHeaders referer) ;;
     retries <- gets retryAttempts ;;
     res <- fetchWithRetry
              (mkFetchRequest url "HEAD" (<["accept" := "*/*"]> h)) retries ;;
     if res_ok res then
       let len := res_headers res !! "content-length" in
       let size :=
         if Js.truthy_str len then Js.parseInt (Js.or_empty len) else None in
       let acceptRanges :=
         Js.includes
           (Js.toLowerCase (Js.or_empty (res_headers res !! "accept-ranges")))
           "bytes" in
       ret (Some (mkRemoteInfo size acceptRanges))
     else ret None)
    (fun _ => ret None).

(** The second [try] block: [GET] of a single byte. *)
Definition probe_by_get (url referer : string) : M World (option RemoteInfo) :=
  try_catch
    (h <- gets (commonHeaders referer) ;;
     retries <- gets retryAttempts ;;
     res <- fetchWithRetry
              (mkFetchRequest url "GET"
                 (<["accept" := "*/*"]> (<["range" := "bytes=0-0"]> h)))
              retries ;;
     if res_status res =? 206 then
       let m :=
         match res_headers res !! "content-range" with
         | Some cr => Js.match_slash_digits cr
         | None => None
         end in
       let size :=
         match m with
         | Some digits => Js.parseInt digits
         | None => None
         end in
       ret (Some (mkRemoteInfo size true))
     else ret None)
    (fun _ => ret None).

Definition getRemoteSizeAndRanges (url referer : string) : M World RemoteInfo :=
  byHead <- probe_by_head url referer ;;
  match byHead with
  | Some info => ret info
  | None =>
      byGet <- probe_by_get url referer ;;
      match byGet with
      | Some info => ret info
      | None => ret (mkRemoteInfo None false)
      end
  end.

Definition SyntaxError : JsError :=
  mkJsError "SyntaxError" "Unexpected token in JSON" None.

Definition fetchCoreData (referer : string) : M World Json :=
  let url := ORIGIN +:+ "/api/v1/general/core-data/?profile=1" in
  h <- gets (commonHeaders (if nonempty referer then referer else ORIGIN)) ;;
  retries <- gets retryAttempts ;;
  res <- fetchWithRetry
           (mkFetchRequest url "GET" (<["accept" := "application/json"]> h))
           retries ;;
  if negb (res_ok res)
  then throw (new_Error (explainHttpFailure (res_status res)
                           "Auth check (core-data)"))
  else match res_json res with
       | Some j => ret j
       | None => throw SyntaxError
       end.

(** ** Cookie jar (download.mjs, 626-641) *)

(** [SimpleCookieStore]: a [Map], which keeps its keys in insertion order
    and overwrites in place. *)
Module SimpleCookieStore.

Definition t := list (string * string).

Definition empty : t := [].

Fixpoint set (k v : string) (m : t) : t :=
  match m with
  | [] => [(k, v)]
  | (k', v') :: r =>
      if String.eqb k k' then (k, v) :: r else (k', v') :: set k v r
  end.

Fixpoint get (name : string) (m : t) : option string :=
  match m with
  | [] => None
  | (k, v) :: r => if String.eqb name k then Some v else get name r
  end.

Definition setCookieLine (line : string) (m : t) : t :=
  if negb (nonempty line) then m
  else
    let seg := Js.first_segment ";" line in
    match Js.indexOf "=" seg with
    | None => m
    | Some eq =>
        let k := Js.trim (Js.slice_to eq seg) in
        let v := Js.trim (Js.slice_from (eq + 1) seg) in
        if nonempty k then set k v m else m
    end.

Definition applySetCookie (arr : list string) (m : t) : t :=
  fold_left (fun acc l => setCookieLine l acc) arr m.

Definition headerString (m : t) : string :=
  Js.join "; " (map (fun kv => fst kv +:+ "=" +:+ snd kv) m).

End SimpleCookieStore.

(** ** Session manager (download.mjs, 672-929) *)

Fixpoint rawRequestWithRetry_loop (q : RawRequest) (n : nat) (attempt : Z)
    (lastErr : option JsError) : M World RawResponse :=
  match n with
  | O =>
      throw (match lastErr with
             | Some e => e
             | None => new_Error "Raw request failed after retries"
             end)
  | S n' =>
      c <- try_catch
             (r <- rawRequest q ;;
              retries <- gets retryAttempts ;;
              if isRetriableStatus (raw_status r) && (attempt <? retries)
              then sleep (toBackoffMs attempt) ;; ret (Continue, lastErr)
              else ret (Return r, lastErr))
             (fun err =>
                retries <- gets retryAttempts ;;
                if (attempt <? retries) && isRetriableNetworkError err
                then sleep (toBackoffMs attempt) ;; ret (Continue, Some err)
                else throw err) ;;
      match c with
      | (Continue, lastErr') =>
          rawRequestWithRetry_loop q n' (attempt + 1) lastErr'
      | (Return r, _) => ret r
      end
  end.

Definition rawRequestWithRetry (q : RawRequest) : M World RawResponse :=
  retries <- gets retryAttempts ;;
  rawRequestWithRetry_loop q (Z.to_nat retries) 1 None.

Definition UA : string :=
  "Mozilla/5.0 (Windows NT 10.0; Win64; x64) AppleWebKit/537.36 (KHTML, like Gecko) Chrome/125 Safari/537.36".

Definition LOGIN_PAGE_URL : string := ORIGIN +:+ "/accounts/login/".
Definition CORE_DATA_URL : string :=
  ORIGIN +:+ "/api/v1/general/core-data/?profile=1".
Definition CHECK_ACTIVE_USER_URL : string :=
  ORIGIN +:+ "/api/v1/auth/check-active-user".
Definition LOGIN_AUTHENTICATION_URL : string :=
  ORIGIN +:+ "/api/v1/auth/login-authentication".

Definition TypeError (msg : string) : JsError := mkJsError "TypeError" msg None.

(** [store.get(name) || null], as a value that may also have come out of
    a JSON body. *)
Definition cookie_or_null (name : string) (store : SimpleCookieStore.t)
  : option Json :=
  match SimpleCookieStore.get name store with
  | Some (String c r) => Some (JStr (String c r))
  | _ => None
  end.

(** Step 0 of the handshake: visit the login page, fall back on core-data,
    and come out with the anti-forgery token and the jar. *)
Definition login_step_csrf : M World (Json * SimpleCookieStore.t) :=
  let store := SimpleCookieStore.empty in
  r <- rawRequestWithRetry
         (mkRawRequest LOGIN_PAGE_URL "GET"
            (<["Accept" := "text/html,application/xhtml+xml,application/xml;q=0.9,*/*;q=0.8"]>
             (<["User-Agent" := UA]> ∅)) None) ;;
  let store := SimpleCookieStore.applySetCookie (raw_set_cookie r) store in
  let csrf := cookie_or_null "csrftoken" store in
  found <-
    (if negb (JsonOps.truthy csrf) then
       r2 <- rawRequestWithRetry
               (mkRawRequest CORE_DATA_URL "GET"
                  (<["Accept" := "application/json"]>
                   (<["User-Agent" := UA]> ∅)) None) ;;
       let store := SimpleCookieStore.applySetCookie (raw_set_cookie r2) store in
       let csrf :=
         match raw_json r2 with
         | Some j2 =>
             let c := JsonOps.get (JsonOps.get (Some j2) "auth") "csrf" in
             if JsonOps.truthy c then c else None
         | None => csrf
         end in
       let csrf :=
         if negb (JsonOps.truthy csrf) then cookie_or_null "csrftoken" store
         else csrf in
       ret (csrf, store)
     else ret (csrf, store)) ;;
  let '(csrf, store) := found in
  match csrf with
  | None =>
      throw (new_Error (buildActionableError "LOGIN_CSRF"
               "Cannot obtain CSRF token from server."
               ["Your session/cookie may be stale or blocked.";
                "Retry: node download.mjs " +:+ Js.dq +:+
                  ACTIONABLE_URL_PLACEHOLDER +:+ Js.dq +:+
                  " --force-login --verbose"]))
  | Some c =>
      (* [csrf.slice(0, 8)] in the debug line *)
      match c with
      | JStr _ | JArr _ => ret (c, store)
      | _ => throw (TypeError "csrf.slice is not a function")
      end
  end.

Definition login_headers (csrf : Json) (store : SimpleCookieStore.t)
  : gmap string string :=
  <["Referer" := ORIGIN +:+ "/accounts/login/"]>
  (<["Origin" := ORIGIN]>
  (<["X-CSRFToken" := JsonOps.to_string csrf]>
  (<["Cookie" := SimpleCookieStore.headerString store]>
  (<["Content-Type" := "application/x-www-form-urlencoded; charset=UTF-8"]>
  (<["X-Requested-With" := "XMLHttpRequest"]>
  (<["Accept" := "application/json, text/javascript, */*; q=0.01"]>
  (<["User-Agent" := UA]> ∅))))))).

(** Step 1: the check-active-user request; returns its response and the
    jar after the response's cookies were taken in. *)
Definition login_step_check (email : string) (csrf : Json)
    (store : SimpleCookieStore.t)
  : M World (RawResponse * SimpleCookieStore.t) :=
  r <- rawRequestWithRetry
         (mkRawRequest CHECK_ACTIVE_USER_URL "POST" (login_headers csrf store)
            (Some [("csrfmiddlewaretoken", JsonOps.to_string csrf);
                   ("tessera", email);
                   ("g-recaptcha-response", "")])) ;;
  ret (r, SimpleCookieStore.applySetCookie (raw_set_cookie r) store).

(** What the program makes of the check-active-user response. *)
Definition login_judge_check (r : RawResponse) : M World unit :=
  if (raw_status r <? 200) || (raw_status r >=? 300) then
    throw (new_Error (explainHttpFailure (raw_status r)
                        "Login step check-active-user"))
  else
    let jCheck := raw_json r in
    if negb (JsonOps.truthy jCheck) then
      throw (new_Error (buildActionableError "LOGIN_CHECK_JSON"
               ("check-active-user returned invalid JSON (HTTP " +:+
                  Js.ofZ (raw_status r) +:+ ").")
               ["Retry with --verbose. If it persists, retry later."]))
    else if negb (JsonOps.is_string (JsonOps.get jCheck "status") "success") then
      throw (new_Error (buildActionableError "LOGIN_CHECK_FAILED"
               ("check-active-user failed (status=" +:+
                  JsonOps.interpolate (JsonOps.get jCheck "status") +:+
                  ", message=" +:+
                  JsonOps.interpolate (JsonOps.get jCheck "message") +:+ ").")
               ["Verify auth.email in config.json, then retry with --force-login."]))
    else if negb (JsonOps.is_string (JsonOps.get jCheck "message") "get-pass") then
      throw (new_Error (buildActionableError "LOGIN_FLOW"
               ("Unsupported login flow (expected get-pass, got " +:+
                  JsonOps.interpolate (JsonOps.get jCheck "message") +:+ ").")
               ["Run with --verbose and update script if site login flow changed."]))
    else ret tt.

(** Step 2: the login-authentication request and what follows it. *)
Definition login_step_auth (email password : string) (csrf : Json)
    (store : SimpleCookieStore.t) : M World bool :=
  r <- rawRequestWithRetry
         (mkRawRequest LOGIN_AUTHENTICATION_URL "POST" (login_headers csrf store)
            (Some [("csrfmiddlewaretoken", JsonOps.to_string csrf);
                   ("tessera", email);
                   ("hidden_username", email);
                   ("password", password);
                   ("g-recaptcha-response", "")])) ;;
  let store := SimpleCookieStore.applySetCookie (raw_set_cookie r) store in
  if (raw_status r <? 200) || (raw_status r >=? 300) then
    throw (new_Error (explainHttpFailure (raw_status r)
                        "Login step login-authentication"))
  else
    let jLogin := raw_json r in
    if negb (JsonOps.truthy jLogin) then
      throw (new_Error (buildActionableError "LOGIN_AUTH_JSON"
               ("login-authentication returned invalid JSON (HTTP " +:+
                  Js.ofZ (raw_status r) +:+ ").")
               ["Retry with --verbose. If it persists, try again later."]))
    else if negb (JsonOps.is_string (JsonOps.get jLogin "status") "success") then
      throw (new_Error (buildActionableError "LOGIN_AUTH_FAILED"
               ("login-authentication failed (message=" +:+
                  JsonOps.interpolate (JsonOps.get jLogin "message") +:+ ").")
               ["Check auth.email/auth.password in config.json and retry with --force-login."]))
    else
      let sessionid := SimpleCookieStore.get "sessionid" store in
      let csrftoken :=
        match SimpleCookieStore.get "csrftoken" store with
        | Some (String c r) => String c r
        | _ => JsonOps.to_string csrf
        end in
      if negb (Js.truthy_str sessionid) then
        throw (new_Error (buildActionableError "LOGIN_COOKIE"
                 "Session cookie (sessionid) is missing after login."
                 ["Retry with --verbose. Server response/cookies may have changed."]))
      else
        modify (set_ACTIVE_COOKIE
                  (Some ("csrftoken=" +:+ csrftoken +:+ "; sessionid=" +:+
                           Js.or_empty sessionid))) ;;
        ret true.

(** [loginWithCredentialsInline(email, password)]; an absent ([null])
    identity or secret is the empty string. *)
Definition loginWithCredentialsInline (email password : string) : M World bool :=
  if negb (nonempty email) || negb (nonempty password) then
    throw (new_Error (buildActionableError "LOGIN_INPUT"
             "Email and password are required for login."
             ["Set auth.email and auth.password in config.json, then retry with --force-login."]))
  else
    token <- login_step_csrf ;;
    let '(csrf, store) := token in
    checked <- login_step_check email csrf store ;;
    let '(r, store) := checked in
    login_judge_check r ;;
    login_step_auth email password csrf store.

(** [saveConfigFile(configPath, config)]: the configuration, with the
    session that has just been put into it, is written over the file at
    [path]; a write that fails is caught and answered with [false], so the
    function never throws.  The call is recorded in the trace. *)
Definition saveConfigFile (path : string) : M World bool :=
  fun w =>
    let w1 := log_event (EvSaveConfig (sessionCookie w)) w in
    match config_text w (tick w) (sessionCookie w) with
    | Some text => (Ret true, set_files (<[path := text]> (files w)) w1)
    | None => (Ret false, w1)
    end.

(** The [verify] helper of [prepareSession]. *)
Definition verify (courseUrl : string) : M World (option Json) :=
  try_catch
    (active <- gets ACTIVE_COOKIE ;;
     if negb (Js.truthy_str active) then ret None
     else
       core <- fetchCoreData (if nonempty courseUrl then courseUrl else ORIGIN) ;;
       let ok :=
         JsonOps.truthy
           (JsonOps.get (JsonOps.get (JsonOps.get (Some core) "auth") "details")
              "is_authenticated") in
       if ok then ret (Some core) else ret None)
    (fun _ => ret None).

(** [prepareSession]; returns [{ core, source }]. *)
Definition prepareSession (userEmail userPassword courseUrl : string)
    (forceLogin : bool) : M World (option Json * string) :=
  stored <- gets (fun w => Js.trim (Js.or_empty (sessionCookie w))) ;;
  cookie <- gets COOKIE ;;
  (* 1. explicit cookie override *)
  byOverride <-
    (if nonempty cookie && negb (String.eqb cookie COOKIE_PLACEHOLDER) then
       modify (set_ACTIVE_COOKIE (Some cookie)) ;;
       verify courseUrl
     else ret None) ;;
  match byOverride with
  | Some core => ret (Some core, "config-cookie")
  | None =>
      (* 2. session persisted in the configuration *)
      byStored <-
        (if nonempty stored && negb forceLogin then
           modify (set_ACTIVE_COOKIE (Some stored)) ;;
           core <- verify courseUrl ;;
           match core with
           | Some c => ret (Some c)
           | None => modify (set_ACTIVE_COOKIE None) ;; ret None
           end
         else ret None) ;;
      match byStored with
      | Some core => ret (Some core, "config-session")
      | None =>
          (* 3. login with credentials *)
          active <- gets ACTIVE_COOKIE ;;
          byLogin <-
            (if nonempty userEmail && nonempty userPassword &&
                (negb (Js.truthy_str active) || forceLogin)
             then
               try_catch
                 (loginWithCredentialsInline userEmail userPassword ;;
                  active' <- gets ACTIVE_COOKIE ;;
                  (if Js.truthy_str active' then
                     modify (set_sessionCookie active') ;;
                     path <- gets configPath ;;
                     saveConfigFile path ;;
                     ret tt
                   else ret tt) ;;
                  verify courseUrl)
                 (fun _ => ret None)
             else ret None) ;;
          match byLogin with
          | Some core => ret (Some core, "fresh-login")
          | None => ret (None, "none")
          end
      end
  end.

(** ** Resumable transfer engine (download.mjs, 945-1149) *)

(** The [ByteLimit] transform: its fields, and [_transform] as a function
    from the state and a chunk to the new state, the buffers it pushes
    downstream, and whether it called [_onLimit]. *)
Module ByteLimit.

Record t := mk {
  limit : Z;
  seen : Z;
  _hit : bool
}.

Definition new (limit : Z) : t := mk limit 0 false.

Definition _transform (st : t) (chunk : list byte)
  : t * list (list byte) * bool :=
  if limit st <=? 0 then (st, [chunk], false)
  else
    let remaining := limit st - seen st in
    if remaining <=? 0 then (st, [], false)
    else
      let buf :=
        if Z.of_nat (length chunk) >? remaining
        then take (Z.to_nat remaining) chunk else chunk in
      let seen' := seen st + Z.of_nat (length buf) in
      if negb (_hit st) && (seen' >=? limit st)
      then (mk (limit st) seen' true, [buf], true)
      else (mk (limit st) seen' (_hit st), [buf], false).

(** Everything the transform pushes when it is fed [chunks] in order. *)
Fixpoint emitted (st : t) (chunks : list (list byte)) : list byte :=
  match chunks with
  | [] => []
  | c :: cs =>
      let '(st', out, _) := _transform st c in
      (concat out ++ emitted st' cs)%list
  end.

End ByteLimit.

(** The variables of [downloadToFile] that are assigned inside its [try]
    blocks and read after them. *)
Record DlFrame := mkDlFrame {
  existingFinalSize : Z;
  existingTmpSize : Z;
  remoteInfo : option RemoteInfo;
  byteLimitReached : bool
}.

Definition set_existingFinalSize (v : Z) (f : DlFrame) : DlFrame :=
  mkDlFrame v (existingTmpSize f) (remoteInfo f) (byteLimitReached f).
Definition set_existingTmpSize (v : Z) (f : DlFrame) : DlFrame :=
  mkDlFrame (existingFinalSize f) v (remoteInfo f) (byteLimitReached f).
Definition set_remoteInfo (v : option RemoteInfo) (f : DlFrame) : DlFrame :=
  mkDlFrame (existingFinalSize f) (existingTmpSize f) v (byteLimitReached f).
Definition set_byteLimitReached (v : bool) (f : DlFrame) : DlFrame :=
  mkDlFrame (existingFinalSize f) (existingTmpSize f) (remoteInfo f) v.

(** A computation on the world, inside a function with local variables. *)
Definition lift {F S A} (m : M S A) : M (F * S) A :=
  fun fs => let '(r, s') := m (snd fs) in (r, (fst fs, s')).

Definition getf {F S A} (f : F -> A) : M (F * S) A :=
  gets (fun fs => f (fst fs)).

Definition setf {F S} (g : F -> F) : M (F * S) unit :=
  modify (fun fs => (g (fst fs), snd fs)).

(** Enter a function: run its body on fresh locals and drop them. *)
Definition with_frame {F S A} (init : F) (m : M (F * S) A) : M S A :=
  fun s => let '(r, fs) := m (init, s) in (r, snd fs).

(** Truthiness of a number. *)
Definition truthyZ (z : Z) : bool := negb (z =? 0).

(** The expected total of the progress bar (download.mjs, 1041-1050);
    [None] is [undefined] or [NaN]. *)
Definition expectedTotalOf (sampleBytes : Z) (res : FetchResponse)
    (resumeOffset : Z) : option Z :=
  let contentLengthHeader := res_headers res !! "content-length" in
  let fullLength :=
    if Js.truthy_str contentLengthHeader
    then Js.parseInt (Js.or_empty contentLengthHeader) else None in
  let contentRange := res_headers res !! "content-range" in
  let crMatch :=
    match contentRange with
    | Some cr => Js.match_slash_digits cr
    | None => None
    end in
  if truthyZ sampleBytes && (sampleBytes >? 0) then Some sampleBytes
  else
    match crMatch with
    | Some digits => Js.parseInt digits
    | None =>
        match fullLength with
        | Some n =>
            if truthyZ n && (resumeOffset >? 0) then Some (resumeOffset + n)
            else fullLength
        | None => fullLength
        end
    end.

(** [pipeline(readable, counter, write)]: every chunk that arrives is
    appended to the file; a broken stream rejects the pipeline. *)
Fixpoint pump (p : string) (chunks : list (list byte)) : M World unit :=
  match chunks with
  | [] => ret tt
  | c :: cs => write_chunk p c ;; pump p cs
  end.

Definition stream_end (b : Body) : M World unit :=
  match body_error b with
  | Some e => throw e
  | None => ret tt
  end.

Definition pipeline_plain (p : string) (b : Body) : M World unit :=
  pump p (body_chunks b) ;; stream_end b.

(** [pipeline(readable, counter, limiter, write)].  As long as the
    pipeline lives, what the limiter pushes goes on to the write stream;
    [pushed] is what it has pushed so far.  When the limiter calls
    [_onLimit], the callback sets [byteLimitReached] and destroys the
    source with [Error('byte-limit')] from inside [_transform]: the
    pipeline rejects and destroys the write stream, and of the bytes
    pushed only the first [teardown] have reached the file.  When the
    source ends or breaks by itself, all of them have. *)
Fixpoint pump_limited (p : string) (st : ByteLimit.t) (pushed : list byte)
    (chunks : list (list byte)) : M (DlFrame * World) unit :=
  match chunks with
  | [] => lift (write_chunk p pushed)
  | c :: cs =>
      let '(st', out, fired) := ByteLimit._transform st c in
      let pushed' := (pushed ++ concat out)%list in
      if fired then
        written <- lift (gets (fun w => teardown w (tick w))) ;;
        lift (write_chunk p (take written pushed')) ;;
        setf (set_byteLimitReached true) ;;
        throw (new_Error "byte-limit")
      else pump_limited p st' pushed' cs
  end.

Definition pipeline_limited (p : string) (limit : Z) (b : Body)
  : M (DlFrame * World) unit :=
  pump_limited p (ByteLimit.new limit) [] (body_chunks b) ;;
  lift (stream_end b).

(** Move the temporary file into place (download.mjs, 1113-1118 and
    1130-1135). *)
Definition finalize (tmpPath filePath writingTo : string) : M World unit :=
  try_catch (rename tmpPath filePath)
    (fun _ => try_ignore (copyFile writingTo filePath)) ;;
  try_ignore (unlink tmpPath).

(** "Decide resume offset" (download.mjs, 988-1007). *)
Definition decideResumeOffset (url filePath tmpPath referer : string)
    (sampleBytes : Z) : M (DlFrame * World) Z :=
  if sampleBytes >? 0 then ret 0
  else
    tmpSize <- getf existingTmpSize ;;
    if tmpSize >? 0 then ret tmpSize
    else
      finalSize <- getf existingFinalSize ;;
      if finalSize >? 0 then
        known <- getf remoteInfo ;;
        info <- match known with
                | Some i => ret i
                | None =>
                    i <- lift (getRemoteSizeAndRanges url referer) ;;
                    setf (set_remoteInfo (Some i)) ;;
                    ret i
                end ;;
        if acceptRanges info then
          try_catch
            (lift (rename filePath tmpPath) ;;
             setf (set_existingTmpSize finalSize) ;;
             setf (set_existingFinalSize 0) ;;
             ret finalSize)
            (fun _ => ret 0)
        else ret 0
      else ret 0.

(** The [try] block of one attempt; it returns what the function returns.
    [mkdir] of the target directory is taken to succeed. *)
Definition attempt_body (url filePath referer : string) (sampleBytes : Z)
  : M (DlFrame * World) string :=
  let tmpPath := filePath +:+ ".part" in
  resumeOffset <- decideResumeOffset url filePath tmpPath referer sampleBytes ;;
  let writingTo := tmpPath in
  h <- lift (gets (commonHeaders referer)) ;;
  let headers := <["accept" := "video/mp4,application/octet-stream,*/*"]> h in
  let headers :=
    if truthyZ sampleBytes && (sampleBytes >? 0) then
      <["range" := "bytes=0-" +:+ Js.ofZ (Z.max 0 (sampleBytes - 1))]> headers
    else if resumeOffset >? 0 then
      <["range" := "bytes=" +:+ Js.ofZ resumeOffset +:+ "-"]> headers
    else headers in
  res <- lift (fetch (mkFetchRequest url "GET" headers)) ;;
  match (if res_ok res then res_body res else None) with
  | None => throw (new_Error (explainHttpFailure (res_status res) "Download"))
  | Some body =>
      if (resumeOffset >? 0) && negb (res_status res =? 206) then
        lift (try_ignore (unlink tmpPath)) ;;
        setf (set_existingTmpSize 0) ;;
        throw (new_Error "Server did not honor range; restarting from 0")
      else
        lift (createWriteStream writingTo
                (negb ((sampleBytes >? 0) || (resumeOffset =? 0)))) ;;
        lift (modify (log_event
                (EvProgress resumeOffset
                   (expectedTotalOf sampleBytes res resumeOffset)))) ;;
        setf (set_byteLimitReached false) ;;
        early <- try_catch
          ((if truthyZ sampleBytes && (sampleBytes >? 0)
            then pipeline_limited writingTo sampleBytes body
            else lift (pipeline_plain writingTo body)) ;;
           ret None)
          (fun pipeErr =>
             reached <- getf byteLimitReached ;;
             if truthyZ sampleBytes && reached then
               lift (finalize tmpPath filePath writingTo) ;;
               ret (Some "downloaded")
             else throw pipeErr) ;;
        match early with
        | Some status => ret status
        | None =>
            lift (finalize tmpPath filePath writingTo) ;;
            ret "downloaded"
        end
  end.

(** The [for] loop of [downloadToFile], from [attempt] on, with [n]
    iterations left; falling off its end returns [undefined] ([None]). *)
Fixpoint downloadToFile_loop (url filePath referer : string)
    (maxRetries sampleBytes : Z) (n : nat) (attempt : Z)
  : M (DlFrame * World) (option string) :=
  match n with
  | O => ret None
  | S n' =>
      c <- try_catch
             (status <- attempt_body url filePath referer sampleBytes ;;
              ret (Return status))
             (fun err =>
                let retryable :=
                  isRetriableNetworkError err ||
                  Js.test_retry_code (err_message err) in
                if (attempt <? maxRetries) && retryable then
                  lift (sleep (toBackoffMs attempt)) ;; ret Continue
                else throw err) ;;
      match c with
      | Continue =>
          downloadToFile_loop url filePath referer maxRetries sampleBytes
            n' (attempt + 1)
      | Return status => ret (Some status)
      end
  end.

(** The code before the loop (download.mjs, 970-984): [Some "exists"] when
    it returns, [None] when control goes on to the loop. *)
Definition preflight (url filePath referer : string) (sampleBytes : Z)
  : M (DlFrame * World) (option string) :=
  let tmpPath := filePath +:+ ".part" in
  early <- try_catch
    (sz <- lift (statSync_size filePath) ;;
     setf (set_existingFinalSize sz) ;;
     if (sz >? 0) && (sampleBytes >? 0) then ret (Some "exists") else ret None)
    (fun _ => ret None) ;;
  match early with
  | Some status => ret (Some status)
  | None =>
      try_ignore (sz <- lift (statSync_size tmpPath) ;;
                  setf (set_existingTmpSize sz)) ;;
      finalSize <- getf existingFinalSize ;;
      if (sampleBytes =? 0) && (finalSize >? 0) then
        info <- lift (getRemoteSizeAndRanges url referer) ;;
        setf (set_remoteInfo (Some info)) ;;
        match size info with
        | Some remote =>
            if truthyZ remote && (finalSize >=? remote)
            then ret (Some "exists") else ret None
        | None => ret None
        end
      else ret None
  end.

Definition downloadToFile (url filePath referer : string)
    (maxRetries sampleBytes : Z) : M World (option string) :=
  with_frame (mkDlFrame 0 0 None false)
    (early <- preflight url filePath referer sampleBytes ;;
     match early with
     | Some status => ret (Some status)
     | None =>
         downloadToFile_loop url filePath referer maxRetries sampleBytes
           (Z.to_nat maxRetries) 1
     end).

(** ** Definitions used to state the properties *)

(** Every character of [s] satisfies [p]. *)
Fixpoint all_chars (p : ascii -> bool) (s : string) : bool :=
  match s with
  | EmptyString => true
  | String c r => p c && all_chars p r
  end.


(** The content length a response declares: [parseInt] of its
    content-length header, when that header is there and not empty. *)
Definition declared_content_length (res : FetchResponse) : option Z :=
  match res_headers res !! "content-length" with
  | Some (String c r) => Js.parseInt (String c r)
  | _ => None
  end.

(** The total a response's content-range header declares: the digits after
    its last slash. *)
Definition declared_range_total (res : FetchResponse) : option Z :=
  match res_headers res !! "content-range" with
  | Some cr =>
      match Js.match_slash_digits cr with
      | Some digits => Some (Js.digits_value 0 digits)
      | None => None
      end
  | None => None
  end.

(** A partial-content response: status 206. *)
Definition partial_content (res : FetchResponse) : bool :=
  res_status res =? 206.

(** The priority order of the expected total as the specification words
    it: the sample cap when sampling; else the range total that a
    partial-content response declares; else [resumeOffset + contentLength]
    when resuming with a known content length; else the plain content
    length; else unknown. *)
Definition expectedTotal_claimed (sampling : bool) (cap : Z) (partial : bool)
    (rangeTotal contentLength : option Z) (resumeOffset : Z) : option Z :=
  if sampling then Some cap
  else
    match (if partial then rangeTotal else None) with
    | Some total => Some total
    | None =>
        match contentLength with
        | Some n => if resumeOffset >? 0 then Some (resumeOffset + n) else Some n
        | None => None
        end
    end.

(** The order the code has: the range total counts whatever the status of
    the response, and the resume case asks for a content length that is
    known and not zero. *)
Definition expectedTotal_amended (sampling : bool) (cap : Z)
    (rangeTotal contentLength : option Z) (resumeOffset : Z) : option Z :=
  if sampling then Some cap
  else
    match rangeTotal with
    | Some total => Some total
    | None =>
        match contentLength with
        | Some n =>
            if (resumeOffset >? 0) && negb (n =? 0)
            then Some (resumeOffset + n) else Some n
        | None => None
        end
    end.

(** A 206 answer to a resumed request that declares a content length of
    zero and no range total. *)
Definition response_zero_length : FetchResponse :=
  mkFetchResponse 206 (<["content-length" := "0"]> ∅)
    (Some (mkBody [] None)) None.

(** A 200 answer to a request from offset 0 that declares a content length
    of 50 and, in a content-range header, a total of 10. *)
Definition response_full_with_range : FetchResponse :=
  mkFetchResponse 200
    (<["content-range" := "bytes 0-9/10"]> (<["content-length" := "50"]> ∅))
    (Some (mkBody [] None)) None.

(** The world [k] network calls later, with [evs] added to the trace. *)
Definition advance (k : nat) (evs : list Event) (w : World) : World :=
  mkWorld (ACTIVE_COOKIE w) (COOKIE w) (retryAttempts w) (sessionCookie w)
    (files w) (k + tick w)%nat (trace w ++ evs)%list
    (remote_fetch w) (remote_raw w)
    (configPath w) (config_text w) (teardown w).

(** An answer after which the retrying client tries again, if it may: a
    retriable status, or a retriable thrown error. *)
Definition retriable_outcome (o : Res FetchResponse) : bool :=
  match o with
  | Ret res => isRetriableStatus (res_status res)
  | Throw err => isRetriableNetworkError err
  end.

(** The trace of [k] tries of [q] that were each followed by the backoff
    wait, the first of them being try number [attempt]. *)
Fixpoint retry_trace_from (q : FetchRequest) (attempt : Z) (k : nat)
  : list Event :=
  match k with
  | O => []
  | S k' =>
      EvFetch q :: EvSleep (toBackoffMs attempt) ::
      retry_trace_from q (attempt + 1) k'
  end.

Definition retry_trace (q : FetchRequest) (k : nat) : list Event :=
  retry_trace_from q 1 k.

(** [w'] comes from [w] by network activity alone: the variables and the
    files are as they were, the remote side and the rest of the
    surroundings are the same, and the trace grew by events that all
    satisfy [P]. *)
Definition net_only (P : Event -> Prop) (w w' : World) : Prop :=
  ACTIVE_COOKIE w' = ACTIVE_COOKIE w /\
  COOKIE w' = COOKIE w /\
  retryAttempts w' = retryAttempts w /\
  sessionCookie w' = sessionCookie w /\
  files w' = files w /\
  remote_fetch w' = remote_fetch w /\
  remote_raw w' = remote_raw w /\
  configPath w' = configPath w /\
  config_text w' = config_text w /\
  teardown w' = teardown w /\
  exists evs, trace w' = (trace w ++ evs)%list /\ Forall P evs.

(** The request [q], or a wait. *)
Definition fetch_or_wait (q : FetchRequest) (e : Event) : Prop :=
  e = EvFetch q \/ exists ms, e = EvSleep ms.

Definition raw_or_wait (q : RawRequest) (e : Event) : Prop :=
  e = EvRaw q \/ exists ms, e = EvSleep ms.

(** What probing the remote size may leave in the trace: [HEAD] requests,
    single-byte ranged requests, and waits. *)
Definition probe_event (e : Event) : Prop :=
  match e with
  | EvFetch q =>
      fq_method q = "HEAD" \/ fq_headers q !! "range" = Some "bytes=0-0"
  | EvSleep _ => True
  | _ => False
  end.

(** A world for trying the retrying client: three tries allowed, the first
    answered 503, the second 404. *)
Definition status_only (status : Z) : FetchResponse :=
  mkFetchResponse status ∅ None None.

Definition connection_reset : JsError :=
  mkJsError "TypeError" "fetch failed" (Some "ECONNRESET").

Definition world_flaky : World :=
  mkWorld None COOKIE_PLACEHOLDER 3 None ∅ 0 []
    (fun t _ =>
       match t with
       | O => Ret (status_only 503)
       | S O => Ret (status_only 404)
       | _ => Throw connection_reset
       end)
    (fun _ _ => Throw connection_reset)
    "config.json" (fun _ _ => Some []) (fun _ => O).

Definition plain_get (url : string) : FetchRequest :=
  mkFetchRequest url "GET" ∅.

(** The size the program records for a path when it looks before the loop:
    the length of the file, or [0] when [statSync] throws. *)
Definition recorded_size (w : World) (p : string) : Z :=
  match files w !! p with
  | Some content => Z.of_nat (length content)
  | None => 0
  end.

(** The verdict of the completeness check on a probed size. *)
Definition already_complete (finalSize : Z) (info : RemoteInfo) : bool :=
  match size info with
  | Some remote => truthyZ remote && (finalSize >=? remote)
  | None => false
  end.

Definition aborted : JsError :=
  mkJsError "AbortError" "This operation was aborted" None.

(** The method and the range header of every [fetch] in a trace. *)
Definition fetches (evs : list Event) : list (string * option string) :=
  omap (fun e =>
          match e with
          | EvFetch q => Some (fq_method q, fq_headers q !! "range")
          | _ => None
          end) evs.

(** A finished three-byte file, and a remote side that answers the [HEAD]
    probe with a content length of zero and the download with an empty
    body. *)
Definition world_zero_remote : World :=
  mkWorld None COOKIE_PLACEHOLDER 4 None
    (<["f.mp4" := [x01; x02; x03]]> ∅) 0 []
    (fun t _ =>
       match t with
       | O => Ret (mkFetchResponse 200 (<["content-length" := "0"]> ∅) None None)
       | _ => Ret (mkFetchResponse 200 ∅ (Some (mkBody [] None)) None)
       end)
    (fun _ _ => Throw aborted)
    "config.json" (fun _ _ => Some []) (fun _ => O).

(** A finished three-byte file and a remote side that is never reached. *)
Definition world_with_final : World :=
  mkWorld None COOKIE_PLACEHOLDER 4 None
    (<["f.mp4" := [x01; x02; x03]]> ∅) 0 []
    (fun _ _ => Throw aborted)
    (fun _ _ => Throw aborted)
    "config.json" (fun _ _ => Some []) (fun _ => O).

(** No file at all, and a remote side that is never reached. *)
Definition world_empty : World :=
  mkWorld None COOKIE_PLACEHOLDER 4 None ∅ 0 []
    (fun _ _ => Throw aborted)
    (fun _ _ => Throw aborted)
    "config.json" (fun _ _ => Some []) (fun _ => O).

(** The content of a file, empty when it is not there. *)
Definition file_or_empty (w : World) (p : string) : list byte :=
  default [] (files w !! p).

(** The request an attempt sends: with a [range] header or without. *)
Definition download_request (url referer : string) (range : option string)
    (w : World) : FetchRequest :=
  let h :=
    <["accept" := "video/mp4,application/octet-stream,*/*"]>
      (commonHeaders referer w) in
  mkFetchRequest url "GET"
    (match range with
     | Some r => <["range" := r]> h
     | None => h
     end).

Definition sample_range (cap : Z) : string :=
  "bytes=0-" +:+ Js.ofZ (Z.max 0 (cap - 1)).

Definition resume_range (offset : Z) : string :=
  "bytes=" +:+ Js.ofZ offset +:+ "-".

(** The number of bytes a body delivers. *)
Definition body_length (b : Body) : Z :=
  Z.of_nat (length (concat (body_chunks b))).

(** The error thrown when a resumed request is not answered with 206. *)
Definition RANGE_NOT_HONORED : JsError :=
  new_Error "Server did not honor range; restarting from 0".

(** A sample of 5 bytes from a remote side that sends 7, in chunks of 3
    and 4 bytes; the first chunk is in the file when the limiter, reading
    the second, has the pipeline torn down. *)
Definition world_sample : World :=
  mkWorld None COOKIE_PLACEHOLDER 4 None ∅ 0 []
    (fun _ _ =>
       Ret (mkFetchResponse 206 ∅
              (Some (mkBody [[x01; x02; x03]; [x04; x05; x06; x07]] None)) None))
    (fun _ _ => Throw aborted)
    "config.json" (fun _ _ => Some []) (fun _ => 3%nat).

(** The same sample from a remote side that sends the 7 bytes in one
    chunk. *)
Definition world_sample_one_chunk : World :=
  mkWorld None COOKIE_PLACEHOLDER 4 None ∅ 0 []
    (fun _ _ =>
       Ret (mkFetchResponse 206 ∅
              (Some (mkBody [[x01; x02; x03; x04; x05; x06; x07]] None)) None))
    (fun _ _ => Throw aborted)
    "config.json" (fun _ _ => Some []) (fun _ => O).

(** A finished three-byte file and a remote side of the same size. *)
Definition world_same_size : World :=
  mkWorld None COOKIE_PLACEHOLDER 4 None
    (<["f.mp4" := [x01; x02; x03]]> ∅) 0 []
    (fun _ _ =>
       Ret (mkFetchResponse 200 (<["content-length" := "3"]> ∅) None None))
    (fun _ _ => Throw aborted)
    "config.json" (fun _ _ => Some []) (fun _ => O).

(** Four bytes of a seven-byte resource in the temporary file, and a remote
    side that ignores [range] and answers 200 with the whole resource. *)
Definition world_range_ignored : World :=
  mkWorld None COOKIE_PLACEHOLDER 4 None
    (<["f.mp4.part" := [x01; x02; x03; x04]]> ∅) 0 []
    (fun _ _ =>
       Ret (mkFetchResponse 200 ∅
              (Some (mkBody [[x01; x02; x03; x04; x05; x06; x07]] None)) None))
    (fun _ _ => Throw aborted)
    "config.json" (fun _ _ => Some []) (fun _ => O).

(** Four bytes of a seven-byte resource in the temporary file, and a remote
    side that honours [range]: the first answer breaks off after two bytes,
    with the [AbortError] of the idle-read timer; the second is complete. *)
Definition world_stalled_once : World :=
  mkWorld None COOKIE_PLACEHOLDER 4 None
    (<["f.mp4.part" := [x01; x02; x03; x04]]> ∅) 0 []
    (fun t _ =>
       match t with
       | O => Ret (mkFetchResponse 206 ∅
                     (Some (mkBody [[x05; x06]] (Some aborted))) None)
       | _ => Ret (mkFetchResponse 206 ∅
                     (Some (mkBody [[x05; x06; x07]] None)) None)
       end)
    (fun _ _ => Throw aborted)
    "config.json" (fun _ _ => Some []) (fun _ => O).

(** An event that is not a request to the password step of the login. *)
Definition not_login_authentication (e : Event) : Prop :=
  match e with
  | EvRaw q => rq_url q <> LOGIN_AUTHENTICATION_URL
  | _ => True
  end.

(** An event of the [fetch] client: a request or a wait. *)
Definition fetch_event (e : Event) : Prop :=
  match e with
  | EvFetch _ | EvSleep _ => True
  | _ => False
  end.

(** The HTTP status is a success and the body is an object whose [status]
    is ["success"]: the check-active-user step succeeded at the application
    level. *)
Definition check_succeeded (r : RawResponse) : Prop :=
  200 <= raw_status r < 300 /\
  JsonOps.is_string (JsonOps.get (raw_json r) "status") "success" = true.

(** The follow-up instruction is the one the handshake expects. *)
Definition proceeds_to_password (r : RawResponse) : bool :=
  JsonOps.is_string (JsonOps.get (raw_json r) "message") "get-pass".

(** The error of an unexpected follow-up instruction. *)
Definition LOGIN_FLOW_error (message : option Json) : JsError :=
  new_Error (buildActionableError "LOGIN_FLOW"
     ("Unsupported login flow (expected get-pass, got " +:+
        JsonOps.interpolate message +:+ ").")
     ["Run with --verbose and update script if site login flow changed."]).

(** A remote side whose login page sets the anti-forgery cookie and whose
    check-active-user step answers with another instruction than
    ["get-pass"]. *)
Definition world_other_flow : World :=
  mkWorld None COOKIE_PLACEHOLDER 4 None ∅ 0 []
    (fun _ _ => Throw aborted)
    (fun t _ =>
       match t with
       | O => Ret (mkRawResponse 200 ["csrftoken=tok123; Path=/"] None)
       | S O => Ret (mkRawResponse 200 []
                       (Some (JObj [("status", JStr "success");
                                    ("message", JStr "get-otp")])))
       | _ => Throw aborted
       end)
    "config.json" (fun _ _ => Some []) (fun _ => O).

(** What core-data answers for a session that is not authenticated, and for
    one that is. *)
Definition core_not_authenticated : Json :=
  JObj [("auth", JObj [("details", JObj [("is_authenticated", JBool false)])])].

Definition core_authenticated : Json :=
  JObj [("auth", JObj [("details", JObj [("is_authenticated", JBool true)])])].

(** A remote side that accepts only the session a login hands out, and on
    which a login with credentials succeeds. *)
Definition fetch_accepting_fresh (t : nat) (q : FetchRequest)
  : Res FetchResponse :=
  Ret (mkFetchResponse 200 ∅ None
         (Some (if decide (fq_headers q !! "cookie" =
                           Some "csrftoken=tok123; sessionid=fresh")
                then core_authenticated else core_not_authenticated))).

Definition raw_login_succeeds (t : nat) (q : RawRequest) : Res RawResponse :=
  if String.eqb (rq_url q) LOGIN_PAGE_URL then
    Ret (mkRawResponse 200 ["csrftoken=tok123; Path=/"] None)
  else if String.eqb (rq_url q) CHECK_ACTIVE_USER_URL then
    Ret (mkRawResponse 200 []
           (Some (JObj [("status", JStr "success");
                        ("message", JStr "get-pass")])))
  else
    Ret (mkRawResponse 200 ["sessionid=fresh; HttpOnly"]
           (Some (JObj [("status", JStr "success")]))).

(** An operator-supplied cookie that the server does not accept, and no
    stored session. *)
Definition world_stale_override : World :=
  mkWorld None "sessionid=stale" 4 None ∅ 0 []
    fetch_accepting_fresh raw_login_succeeds
    "config.json" (fun _ _ => Some []) (fun _ => O).

(** The same stale cookie, this time as the stored session. *)
Definition world_stale_stored : World :=
  mkWorld None COOKIE_PLACEHOLDER 4 (Some "sessionid=stale") ∅ 0 []
    fetch_accepting_fresh raw_login_succeeds
    "config.json" (fun _ _ => Some []) (fun _ => O).

(** The raw requests of a trace, by URL. *)
Definition raw_urls (evs : list Event) : list string :=
  omap (fun e => match e with EvRaw q => Some (rq_url q) | _ => None end) evs.

(** ** Configuration helpers (download.mjs, 57-79 and 464) *)

Definition DEFAULT_CONFIG_FILE : string := "config.json".
Definition DEFAULT_RETRY_ATTEMPTS : Z := 4.
Definition DEFAULT_REQUEST_TIMEOUT_MS : Z := 30000.
Definition DEFAULT_READ_TIMEOUT_MS : Z := 120000.

(** [Number.isFinite(n)] for a number that [parseInt] read: below the size
    from which a decimal numeral rounds to [Infinity]. *)
Definition isFinite (n : Z) : bool := Z.abs n <? 2 ^ 1024 - 2 ^ 970.

(** [parsePositiveInt(value, fallback)], on the text [String(value ?? '')];
    [None] is a [null] or [undefined] value, and the [NaN] of [parseInt] is
    not finite.  Up to 2^53 the number read is exact; above, JavaScript
    keeps the nearest double. *)
Definition parsePositiveInt (value : option string) (fallback : Z) : Z :=
  match Js.parseInt (Js.or_empty value) with
  | Some n => if isFinite n && (n >? 0) then n else fallback
  | None => fallback
  end.

Definition parseNonNegativeInt (value : option string) (fallback : Z) : Z :=
  match Js.parseInt (Js.or_empty value) with
  | Some n => if isFinite n && (n >=? 0) then n else fallback
  | None => fallback
  end.

(** [discoverConfigPath(args)]: the loop over [args] returns at the first
    [--config] or [--config=...]. *)
Fixpoint discoverConfigPath (args : list string) : string :=
  match args with
  | [] => DEFAULT_CONFIG_FILE
  | a :: rest =>
      if String.eqb a "--config" then
        match rest with
        | v :: _ => if nonempty v then v else DEFAULT_CONFIG_FILE
        | [] => DEFAULT_CONFIG_FILE
        end
      else if String.prefix "--config=" a then
        Js.slice_from (String.length "--config=") a
      else discoverConfigPath rest
  end.

(** [u.endsWith(c)] for a one-character suffix. *)
Fixpoint endsWith_char (c : ascii) (u : string) : bool :=
  match u with
  | EmptyString => false
  | String d EmptyString => Ascii.eqb d c
  | String _ r => endsWith_char c r
  end.

Definition ensureTrailingSlash (u : string) : string :=
  if endsWith_char "/" u then u else u +:+ "/".

(** ** Chapter and lesson filters (download.mjs, 310-330) *)

(** [s.split(sep)] for a one-character separator. *)
Fixpoint split_on (sep : ascii) (s : string) : list string :=
  match s with
  | EmptyString => [EmptyString]
  | String c r =>
      if Ascii.eqb c sep then EmptyString :: split_on sep r
      else
        match split_on sep r with
        | h :: t => String c h :: t
        | [] => [String c EmptyString]
        end
  end.

(** [p.match(/^(\d+)\s*-\s*(\d+)$/)]: the two groups. *)
Definition match_range (p : string) : option (string * string) :=
  let a := Js.take_while Js.is_digit p in
  let afterA := Js.drop_while Js.is_space (Js.drop_while Js.is_digit p) in
  match a, afterA with
  | String _ _, String "-"%char afterDash =>
      let r := Js.drop_while Js.is_space afterDash in
      match Js.take_while Js.is_digit r, Js.drop_while Js.is_digit r with
      | String d ds, EmptyString => Some (a, String d ds)
      | _, _ => None
      end
  | _, _ => None
  end.

(** [/^\d+$/.test(p)] *)
Definition test_digits (p : string) : bool :=
  nonempty p && all_chars Js.is_digit p.

(** [for (let i = start; i <= end; i++) out.add(i)], for bounds below
    2^53 and a range that a [Set] holds: there the counter is exact and the
    loop adds every integer from [start] to [end].  (From 2^53 on, [i++]
    does not move the counter any more, and a [Set] takes 2^24 members at
    most; what is proved of ranges stays within these bounds.) *)
Definition add_range (a b : Z) (out : gset Z) : gset Z :=
  let start := if a <=? b then a else b in
  let stop := if a <=? b then b else a in
  out ∪ list_to_set (seqZ start (stop - start + 1)).

(** The loop over the parts.  [parseInt] of a group of digits is its
    decimal value as long as that is below 2^53; a longer numeral is
    rounded by JavaScript to the nearest number it has, and is here taken
    as written.  A property that depends on the value of a numeral is
    stated for numerals below 2^53. *)
Fixpoint parseNumberSpec_parts (parts : list string) (out : gset Z)
  : Res (gset Z) :=
  match parts with
  | [] => Ret out
  | p :: rest =>
      match match_range p with
      | Some (da, db) =>
          let a := Js.digits_value 0 da in
          let b := Js.digits_value 0 db in
          if (a <=? 0) || (b <=? 0)
          then Throw (new_Error ("Invalid range: " +:+ p))
          else parseNumberSpec_parts rest (add_range a b out)
      | None =>
          if negb (test_digits p)
          then Throw (new_Error ("Invalid number token: " +:+ p))
          else
            let n := Js.digits_value 0 p in
            if n <=? 0 then Throw (new_Error ("Invalid number: " +:+ p))
            else parseNumberSpec_parts rest (out ∪ {[n]})
      end
  end.

(** [parseNumberSpec(spec)]: [Ret None] is [null] (no filter). *)
Definition parseNumberSpec (spec : option string) : Res (option (gset Z)) :=
  if negb (nonempty (Js.trim (Js.or_empty spec))) then Ret None
  else
    let parts :=
      List.filter nonempty (map Js.trim (split_on "," (Js.or_empty spec))) in
    match parseNumberSpec_parts parts ∅ with
    | Ret out => Ret (Some out)
    | Throw e => Throw e
    end.

(** ** Choosing the video source (download.mjs, 556-561) *)

(** [/\/videos\/hq\d+/.test(u)] *)
Definition hq_digit_here (u : string) : bool :=
  String.prefix "/videos/hq" u &&
  match Js.slice_from (String.length "/videos/hq") u with
  | String c _ => Js.is_digit c
  | EmptyString => false
  end.

Fixpoint test_hq_digit (u : string) : bool :=
  hq_digit_here u ||
  match u with
  | EmptyString => false
  | String _ r => test_hq_digit r
  end.

(** [urls.find(...) || urls[0]] *)
Definition pickBestSource (urls : list string) : option string :=
  match urls with
  | [] => None
  | first :: _ =>
      match List.find (fun u => test_hq_digit u || Js.includes u "/videos/hq")
              urls with
      | Some (String c r) => Some (String c r)
      | _ => Some first
      end
  end.

(** ** File names (download.mjs, 563-566) *)

(** [sanitizeName] works on the UTF-16 code units of a name, which here are
    numbers: lecture titles are not ASCII. *)
Module Utf16.

Definition forbidden (c : N) : bool :=
  existsb (N.eqb c) [47; 58; 42; 63; 34; 60; 62; 124]%N.

(** The class [\s], which is also what [trim] strips. *)
Definition is_space (c : N) : bool :=
  existsb (N.eqb c)
    [9; 10; 11; 12; 13; 32; 160; 5760; 8232; 8233; 8239; 8287; 12288; 65279]%N
  || ((8192 <=? c) && (c <=? 8202))%N.

(** The class of [\s] together with U+200C, U+200F, U+202A and U+202B. *)
Definition collapsible (c : N) : bool :=
  is_space c || existsb (N.eqb c) [8204; 8207; 8234; 8235]%N.

(** The second [replace]: every run of such units becomes one space;
    [inRun] tells that the run being read has its space already. *)
Fixpoint collapse (inRun : bool) (s : list N) : list N :=
  match s with
  | [] => []
  | c :: r =>
      if collapsible c
      then if inRun then collapse true r else 32%N :: collapse true r
      else c :: collapse false r
  end.

Fixpoint drop_spaces (s : list N) : list N :=
  match s with
  | [] => []
  | c :: r => if is_space c then drop_spaces r else s
  end.

Definition trim (s : list N) : list N :=
  rev (drop_spaces (rev (drop_spaces s))).

End Utf16.

Definition sanitizeName (name : list N) : list N :=
  take 150
    (Utf16.trim
       (Utf16.collapse false
          (map (fun c => if Utf16.forbidden c then 32%N else c) name))).

(** ** The session check before the run (download.mjs, 251-264) *)

(** [ensureCookiePresent()]: [true] when it returns, [false] when it prints
    the [SESSION_MISSING] text and ends the process. *)
Definition ensureCookiePresent (w : World) : bool :=
  negb
    (negb (Js.truthy_str (ACTIVE_COOKIE w) &&
           negb (String.eqb (Js.or_empty (ACTIVE_COOKIE w)) COOKIE_PLACEHOLDER)) &&
     negb (nonempty (COOKIE w) &&
           negb (String.eqb (COOKIE w) COOKIE_PLACEHOLDER))).

(** ** Definitions used to state further properties *)

(** How often a limiter fed [chunks] calls [_onLimit]. *)
Fixpoint onLimit_calls (st : ByteLimit.t) (chunks : list (list byte)) : nat :=
  match chunks with
  | [] => O
  | c :: cs =>
      let '(st', _, fired) := ByteLimit._transform st c in
      ((if fired then 1 else 0) + onLimit_calls st' cs)%nat
  end.

(** A status a server can send. *)
Definition http_statuses : list Z := seqZ 100 500.

(** The catch block of [downloadToFile] retries this error. *)
Definition download_retryable (err : JsError) : bool :=
  isRetriableNetworkError err || Js.test_retry_code (err_message err).

(** The waits of a trace. *)
Definition waits (evs : list Event) : list Z :=
  omap (fun e => match e with EvSleep ms => Some ms | _ => None end) evs.

(** The code units of an ASCII text. *)
Fixpoint units_of (s : string) : list N :=
  match s with
  | EmptyString => []
  | String c r => N_of_ascii c :: units_of r
  end.

(** The characters of a cookie name, and of a cookie value, as a server
    sends them: no white space in the sense of [Js.is_space] (what [trim]
    would strip, the no-break space included), no [;], and for a name no
    [=].  Node hands header lines over as 8-bit code units. *)
Definition cookie_value_char (c : ascii) : bool :=
  negb (Js.is_space c) && negb (Ascii.eqb c ";").

Definition cookie_name_char (c : ascii) : bool :=
  cookie_value_char c && negb (Ascii.eqb c "=").

(** An argument that names the configuration file. *)
Definition is_config_flag (a : string) : bool :=
  String.eqb a "--config" || String.prefix "--config=" a.

(** The [range] header of an attempt: the sample range when sampling, the
    resume range from a positive offset, none otherwise. *)
Definition attempt_range (sampleBytes offset : Z) : option string :=
  if sampleBytes >? 0 then Some (sample_range sampleBytes)
  else if offset >? 0 then Some (resume_range offset)
  else None.

(** No file at all, and a remote side that is out of service. *)
Definition world_unavailable : World :=
  mkWorld None COOKIE_PLACEHOLDER 4 None ∅ 0 []
    (fun _ _ => Ret (status_only 503))
    (fun _ _ => Throw aborted)
    "config.json" (fun _ _ => Some []) (fun _ => O).

(** Four bytes of a seven-byte resource in the temporary file, and a remote
    side that honours [range] and sends the other three. *)
Definition world_resumable : World :=
  mkWorld None COOKIE_PLACEHOLDER 4 None
    (<["f.mp4.part" := [x01; x02; x03; x04]]> ∅) 0 []
    (fun _ _ =>
       Ret (mkFetchResponse 206 ∅ (Some (mkBody [[x05; x06]; [x07]] None)) None))
    (fun _ _ => Throw aborted)
    "config.json" (fun _ _ => Some []) (fun _ => O).

(** [wp m Q s]: running [m] from [s] ends in an outcome and a state that
    satisfy [Q]. *)
Definition wp {S A} (m : M S A) (Q : Res A -> S -> Prop) (s : S) : Prop :=
  Q (fst (m s)) (snd (m s)).

(** What a download may have done to the files when it has not installed
    the file: every path but the target and its temporary file is as it
    was, and the target is as it was or has been moved away. *)
Definition download_frame (filePath : string) (w0 w : World) : Prop :=
  (forall p, p <> filePath -> p <> filePath +:+ ".part" ->
     files w !! p = files w0 !! p) /\
  (files w !! filePath = files w0 !! filePath \/ files w !! filePath = None).

(** The target is in place and its temporary file is gone. *)
Definition installed (filePath : string) (w : World) : Prop :=
  is_Some (files w !! filePath) /\ files w !! (filePath +:+ ".part") = None.


(** Any event. *)
Definition any_event (e : Event) : Prop := True.



(** No file at all, and a remote side that answers the first request with
    408 and then sends a three-byte resource. *)
Definition world_timeout_once : World :=
  mkWorld None COOKIE_PLACEHOLDER 4 None ∅ 0 []
    (fun t _ =>
       match t with
       | O => Ret (status_only 408)
       | _ => Ret (mkFetchResponse 200 ∅
                     (Some (mkBody [[x01; x02; x03]] None)) None)
       end)
    (fun _ _ => Throw aborted)
    "config.json" (fun _ _ => Some []) (fun _ => O).
(** * Properties *)

(** ** Backoff *)

(** C9.  For every attempt from 1 on, the backoff delay is
    [min(30000, 700 * 2^(attempt-1))] milliseconds; it is a function of the
    attempt number alone. *)
Theorem toBackoffMs_spec (attempt : Z) :
  1 <= attempt ->
  toBackoffMs attempt = Z.min 30000 (700 * 2 ^ (attempt - 1)).
Proof.
  intros Hge. unfold toBackoffMs.
  replace (Z.max 0 (attempt - 1)) with (attempt - 1) by lia.
  reflexivity.
Qed.

Lemma toBackoffMs_spec_witness :
  1 <= 3 /\ toBackoffMs 3 = Z.min 30000 (700 * 2 ^ (3 - 1)).
Proof. split; [lia | apply (toBackoffMs_spec 3); lia]. Defined.

Example toBackoffMs_first : map toBackoffMs [1; 2; 3; 4; 5; 6; 7; 8]
  = [700; 1400; 2800; 5600; 11200; 22400; 30000; 30000].
Proof. reflexivity. Qed.

Lemma toBackoffMs_capped (attempt : Z) : 700 <= toBackoffMs attempt <= 30000.
Proof.
  unfold toBackoffMs.
  assert (0 < 2 ^ Z.max 0 (attempt - 1)) by (apply Z.pow_pos_nonneg; lia).
  lia.
Qed.

Example explain_500 :
  Js.test_retry_code (explainHttpFailure 500 "Download") = false.
Proof. vm_compute. reflexivity. Qed.

Example explain_408 :
  Js.test_retry_code (explainHttpFailure 408 "Download") = true.
Proof. vm_compute. reflexivity. Qed.

Example parseInt_examples :
  map Js.parseInt ["123"; " 42abc"; "-7"; "abc"; ""; "0"]
  = [Some 123; Some 42; Some (-7); None; None; Some 0].
Proof. reflexivity. Qed.

Example match_slash_digits_examples :
  map Js.match_slash_digits ["bytes 0-0/123456"; "bytes 0-0/*"; "a/12/34"; "12"]
  = [Some "123456"; None; Some "34"; None].
Proof. reflexivity. Qed.

(** ** Strings of digits *)

Lemma all_chars_take_while p s : all_chars p (Js.take_while p s) = true.
Proof.
  induction s as [|c r IH]; simpl; [reflexivity|].
  destruct (p c) eqn:Hc; simpl; [rewrite Hc; exact IH | reflexivity].
Qed.

Lemma all_chars_rev_app p s1 s2 :
  all_chars p s1 = true -> all_chars p s2 = true ->
  all_chars p (String.rev_app s1 s2) = true.
Proof.
  revert s2. induction s1 as [|c r IH]; intros s2 H1 H2; simpl in *; [exact H2|].
  apply andb_prop in H1 as [Hc Hr]. apply IH; [exact Hr|].
  simpl. rewrite Hc. exact H2.
Qed.

Lemma rev_app_nonempty s1 s2 :
  nonempty s2 = true -> nonempty (String.rev_app s1 s2) = true.
Proof.
  revert s2. induction s1 as [|c r IH]; intros s2 H; simpl; [exact H|].
  apply IH. reflexivity.
Qed.

Lemma take_while_all p s : all_chars p s = true -> Js.take_while p s = s.
Proof.
  induction s as [|c r IH]; simpl; [reflexivity|].
  intros H. apply andb_prop in H as [Hc Hr]. rewrite Hc, IH; auto.
Qed.

Lemma digit_not_space_sign c :
  Js.is_digit c = true ->
  Js.is_space c = false /\ c <> "-"%char /\ c <> "+"%char.
Proof.
  destruct c as [[] [] [] [] [] [] [] []]; vm_compute; intros H;
    try discriminate H; repeat split; discriminate.
Qed.

Lemma parseInt_digits s :
  nonempty s = true -> all_chars Js.is_digit s = true ->
  Js.parseInt s = Some (Js.digits_value 0 s).
Proof.
  destruct s as [|c r]; [discriminate|]. intros _ Hall.
  pose proof Hall as Hall'. simpl in Hall'.
  apply andb_prop in Hall' as [Hc _].
  destruct (digit_not_space_sign c Hc) as (Hsp & Hm & Hp).
  unfold Js.parseInt. simpl Js.drop_while. rewrite Hsp.
  assert (Hsign :
    match String c r with
    | String "-"%char r0 => (-1, r0)
    | String "+"%char r0 => (1, r0)
    | _ => (1, String c r)
    end = (1, String c r)).
  { destruct c as [[] [] [] [] [] [] [] []]; try reflexivity; congruence. }
  rewrite Hsign. rewrite (take_while_all _ _ Hall).
  f_equal. lia.
Qed.

Lemma match_slash_digits_parse s digits :
  Js.match_slash_digits s = Some digits ->
  Js.parseInt digits = Some (Js.digits_value 0 digits).
Proof.
  unfold Js.match_slash_digits. intros H.
  pose proof (all_chars_take_while Js.is_digit (String.rev s)) as Hall.
  destruct (Js.take_while Js.is_digit (String.rev s)) as [|d ds]; [discriminate|].
  destruct (Js.drop_while Js.is_digit (String.rev s)) as [|c r]; [discriminate|].
  destruct (Ascii.ascii_dec c "/"%char) as [->|Hne].
  - inversion H; subst digits.
    change (String.rev (String d ds)) with (String.rev_app ds (String d "")).
    simpl in Hall. apply andb_prop in Hall as [Hd Hds].
    apply parseInt_digits.
    + apply rev_app_nonempty. reflexivity.
    + apply all_chars_rev_app; [exact Hds|]. simpl. rewrite Hd. reflexivity.
  - exfalso. destruct c as [[] [] [] [] [] [] [] []]; try discriminate H.
    apply Hne. reflexivity.
Qed.

(** ** Progress accounting *)

Lemma sampling_test (sampleBytes : Z) :
  truthyZ sampleBytes && (sampleBytes >? 0) = (sampleBytes >? 0).
Proof. unfold truthyZ. destruct (Z.eqb_spec sampleBytes 0); simpl; [subst|]; reflexivity. Qed.

(** C8 (as stated, refuted).  With a resumed request answered by a
    content length of zero and no range total, the program's expected total
    is the plain content length, 0, and not [resumeOffset + contentLength]. *)
Lemma expectedTotal_zero_length_counterexample :
  expectedTotalOf 0 response_zero_length 400000 = Some 0 /\
  expectedTotal_claimed (0 >? 0) 0 (partial_content response_zero_length)
    (declared_range_total response_zero_length)
    (declared_content_length response_zero_length) 400000 = Some 400000 /\
  expectedTotalOf 0 response_zero_length 400000 <>
  expectedTotal_claimed (0 >? 0) 0 (partial_content response_zero_length)
    (declared_range_total response_zero_length)
    (declared_content_length response_zero_length) 400000.
Proof. vm_compute. repeat split; discriminate. Qed.

(** The status of the response is not looked at either: a 200 answer with
    a content-range header has that header's total as its expected total,
    where the order as worded, which takes the range total of a
    partial-content response only, gives the content length. *)
Example expectedTotal_range_of_full_response :
  expectedTotalOf 0 response_full_with_range 0 = Some 10 /\
  expectedTotal_claimed (0 >? 0) 0 (partial_content response_full_with_range)
    (declared_range_total response_full_with_range)
    (declared_content_length response_full_with_range) 0 = Some 50.
Proof. vm_compute. split; reflexivity. Qed.

(** C8 (amended).  The expected total of an attempt is, in this order: the
    sample cap when sampling; else the total declared by the response's
    content-range header, whatever the status of the response; else
    [resumeOffset + contentLength] when resuming with a content length that
    is known and not zero; else the plain content length; else unknown. *)
Theorem expectedTotalOf_priority (sampleBytes : Z) (res : FetchResponse)
    (resumeOffset : Z) :
  expectedTotalOf sampleBytes res resumeOffset =
  expectedTotal_amended (sampleBytes >? 0) sampleBytes
    (declared_range_total res) (declared_content_length res) resumeOffset.
Proof.
  unfold expectedTotalOf, expectedTotal_amended, declared_range_total,
    declared_content_length.
  rewrite sampling_test.
  destruct (sampleBytes >? 0); [reflexivity|].
  destruct (res_headers res !! "content-range") as [cr|].
  - destruct (Js.match_slash_digits cr) as [digits|] eqn:Hm.
    + apply match_slash_digits_parse in Hm. exact Hm.
    + destruct (res_headers res !! "content-length") as [[|c r]|]; simpl;
        try reflexivity.
      destruct (Js.parseInt (String c r)) as [n|]; [|reflexivity].
      unfold truthyZ. rewrite andb_comm. destruct (_ && _); reflexivity.
  - destruct (res_headers res !! "content-length") as [[|c r]|]; simpl;
      try reflexivity.
    destruct (Js.parseInt (String c r)) as [n|]; [|reflexivity].
    unfold truthyZ. rewrite andb_comm. destruct (_ && _); reflexivity.
Qed.

(** ** Retrying request client *)

Ltac munfold :=
  unfold try_ignore, getf, setf, with_frame;
  unfold bind, ret, throw, try_catch, gets, modify, lift.

(** Two worlds are the same when they agree on every component. *)
Lemma World_ext (w w' : World) :
  ACTIVE_COOKIE w = ACTIVE_COOKIE w' -> COOKIE w = COOKIE w' ->
  retryAttempts w = retryAttempts w' -> sessionCookie w = sessionCookie w' ->
  files w = files w' -> tick w = tick w' -> trace w = trace w' ->
  remote_fetch w = remote_fetch w' -> remote_raw w = remote_raw w' ->
  configPath w = configPath w' -> config_text w = config_text w' ->
  teardown w = teardown w' ->
  w = w'.
Proof. destruct w, w'. cbn. intros. congruence. Qed.

Ltac world_ext :=
  apply World_ext;
  cbn [ACTIVE_COOKIE COOKIE retryAttempts sessionCookie files tick trace
       remote_fetch remote_raw configPath config_text teardown
       set_ACTIVE_COOKIE set_sessionCookie set_files log_event next_tick
       advance];
  try reflexivity.

Lemma advance_log_tick (e : Event) (w : World) :
  next_tick (log_event e w) = advance 1 [e] w.
Proof. reflexivity. Qed.

Lemma advance_nil w : advance 0 [] w = w.
Proof. destruct w. unfold advance. simpl. rewrite app_nil_r. reflexivity. Qed.

Lemma advance_advance k1 l1 k2 l2 w :
  advance k2 l2 (advance k1 l1 w) = advance (k1 + k2) (l1 ++ l2) w.
Proof.
  unfold advance; simpl. f_equal; [lia | symmetry; apply app_assoc].
Qed.

Lemma advance_sleep ms k l w :
  log_event (EvSleep ms) (advance k l w) = advance k (l ++ [EvSleep ms]) w.
Proof. unfold advance, log_event; simpl. f_equal. symmetry; apply app_assoc. Qed.

Lemma log_two (e1 e2 : Event) (w : World) :
  log_event e2 (next_tick (log_event e1 w)) = advance 1 [e1; e2] w.
Proof.
  unfold log_event, next_tick, advance; simpl. f_equal.
  rewrite <- app_assoc. reflexivity.
Qed.

(** One turn of the loop of [fetchWithRetry]. *)
Lemma fetchWithRetry_loop_step q R n attempt lastErr w :
  fetchWithRetry_loop q R (S n) attempt lastErr w =
  match remote_fetch w (tick w) q with
  | Ret res =>
      if isRetriableStatus (res_status res) && (attempt <? R)
      then fetchWithRetry_loop q R n (attempt + 1) lastErr
             (advance 1 [EvFetch q; EvSleep (toBackoffMs attempt)] w)
      else (Ret res, advance 1 [EvFetch q] w)
  | Throw err =>
      if (attempt <? R) && isRetriableNetworkError err
      then fetchWithRetry_loop q R n (attempt + 1) (Some err)
             (advance 1 [EvFetch q; EvSleep (toBackoffMs attempt)] w)
      else (Throw err, advance 1 [EvFetch q] w)
  end.
Proof.
  simpl. munfold. unfold fetchWithTimeout, fetch, sleep. munfold.
  destruct (remote_fetch w (tick w) q) as [res|err].
  - destruct (isRetriableStatus (res_status res) && (attempt <? R));
      [rewrite log_two|]; reflexivity.
  - destruct ((attempt <? R) && isRetriableNetworkError err);
      [rewrite log_two|]; reflexivity.
Qed.

(** Tries that end in a retriable failure while tries remain are skipped
    over, each leaving its request and its wait in the trace. *)
Lemma fetchWithRetry_loop_skip q R k :
  forall n attempt lastErr w,
    (forall i, (i < k)%nat ->
       retriable_outcome (remote_fetch w (i + tick w)%nat q) = true) ->
    attempt + Z.of_nat k <= R ->
    exists lastErr',
      fetchWithRetry_loop q R (k + n) attempt lastErr w =
      fetchWithRetry_loop q R n (attempt + Z.of_nat k) lastErr'
        (advance k (retry_trace_from q attempt k) w).
Proof.
  induction k as [|k IH]; intros n attempt lastErr w Hretr Hle.
  - exists lastErr. simpl retry_trace_from. rewrite advance_nil.
    replace (attempt + Z.of_nat 0) with attempt by lia. reflexivity.
  - change (S k + n)%nat with (S (k + n)).
    rewrite fetchWithRetry_loop_step.
    pose proof (Hretr 0%nat ltac:(lia)) as H0. simpl in H0.
    assert (Hlt : (attempt <? R) = true) by (apply Z.ltb_lt; lia).
    set (w1 := advance 1 [EvFetch q; EvSleep (toBackoffMs attempt)] w).
    assert (Hnext : forall i, (i < k)%nat ->
              retriable_outcome (remote_fetch w1 (i + tick w1)%nat q) = true).
    { intros i Hi. subst w1. simpl.
      replace (i + S (tick w))%nat with (S i + tick w)%nat by lia.
      apply Hretr. lia. }
    assert (Hworld :
              advance k (retry_trace_from q (attempt + 1) k) w1 =
              advance (S k) (retry_trace_from q attempt (S k)) w).
    { subst w1. rewrite advance_advance. reflexivity. }
    destruct (remote_fetch w (tick w) q) as [res|err]; simpl in H0;
      rewrite H0, Hlt; simpl.
    + destruct (IH n (attempt + 1) lastErr w1 Hnext ltac:(lia)) as [le Hle'].
      exists le. rewrite Hle'. rewrite Hworld. f_equal. lia.
    + destruct (IH n (attempt + 1) (Some err) w1 Hnext ltac:(lia)) as [le Hle'].
      exists le. rewrite Hle'. rewrite Hworld. f_equal. lia.
Qed.

(** The trace only grows, and a loop with a turn left starts by sending. *)
Lemma fetchWithRetry_loop_trace q R n :
  forall attempt lastErr w,
    exists rest,
      trace (snd (fetchWithRetry_loop q R n attempt lastErr w)) =
      (trace w ++ rest)%list /\
      (n <> O -> exists rest', rest = EvFetch q :: rest').
Proof.
  induction n as [|n IH]; intros attempt lastErr w.
  - exists []. split; [simpl; symmetry; apply app_nil_r | congruence].
  - rewrite fetchWithRetry_loop_step.
    destruct (remote_fetch w (tick w) q) as [res|err].
    + destruct (isRetriableStatus (res_status res) && (attempt <? R)).
      * destruct (IH (attempt + 1) lastErr
                    (advance 1 [EvFetch q; EvSleep (toBackoffMs attempt)] w))
          as (rest & Hrest & _).
        exists (EvFetch q :: EvSleep (toBackoffMs attempt) :: rest).
        split; [|eauto]. rewrite Hrest. simpl.
        rewrite <- app_assoc. reflexivity.
      * exists [EvFetch q]. split; [reflexivity | eauto].
    + destruct ((attempt <? R) && isRetriableNetworkError err).
      * destruct (IH (attempt + 1) (Some err)
                    (advance 1 [EvFetch q; EvSleep (toBackoffMs attempt)] w))
          as (rest & Hrest & _).
        exists (EvFetch q :: EvSleep (toBackoffMs attempt) :: rest).
        split; [|eauto]. rewrite Hrest. simpl.
        rewrite <- app_assoc. reflexivity.
      * exists [EvFetch q]. split; [reflexivity | eauto].
Qed.

(** C4.  A call of [fetchWithRetry] with [R >= 1] tries, whose first [k]
    tries ended in retriable failures, so that try number [k + 1] is made:
    a response whose status is not retriable is returned as it is, whatever
    its status; a response with a retriable status, when tries remain, is
    followed by a wait of [toBackoffMs attempt] and a new try; and on the
    last try the answer is handed on as it is, the failing response returned
    or the thrown error propagated. *)
Theorem fetchWithRetry_policy (q : FetchRequest) (R : Z) (k : nat) (w : World) :
  1 <= R -> Z.of_nat k < R ->
  (forall i, (i < k)%nat ->
     retriable_outcome (remote_fetch w (i + tick w)%nat q) = true) ->
  let attempt := Z.of_nat k + 1 in
  let answer := remote_fetch w (k + tick w)%nat q in
  let arrived := advance (S k) (retry_trace q k ++ [EvFetch q]) w in
  (forall res, answer = Ret res -> isRetriableStatus (res_status res) = false ->
     fetchWithRetry q R w = (Ret res, arrived)) /\
  (forall res, answer = Ret res -> isRetriableStatus (res_status res) = true ->
     attempt < R ->
     exists rest,
       trace (snd (fetchWithRetry q R w)) =
       (trace arrived ++ EvSleep (toBackoffMs attempt) :: EvFetch q :: rest)%list) /\
  (attempt = R -> fetchWithRetry q R w = (answer, arrived)).
Proof.
  intros HR Hk Hretr attempt answer arrived.
  assert (Hsplit : Z.to_nat R = (k + S (Z.to_nat R - k - 1))%nat) by lia.
  set (m := (Z.to_nat R - k - 1)%nat) in *.
  destruct (fetchWithRetry_loop_skip q R k (S m) 1 None w Hretr ltac:(lia))
    as [lastErr Hskip].
  assert (Hrun : fetchWithRetry q R w =
                 fetchWithRetry_loop q R (S m) attempt lastErr
                   (advance k (retry_trace q k) w)).
  { unfold fetchWithRetry. rewrite Hsplit, Hskip. unfold retry_trace, attempt.
    f_equal. lia. }
  rewrite Hrun, fetchWithRetry_loop_step.
  change (remote_fetch (advance k (retry_trace q k) w)
            (tick (advance k (retry_trace q k) w)) q) with answer.
  assert (Harr : advance 1 [EvFetch q] (advance k (retry_trace q k) w) = arrived).
  { rewrite advance_advance. unfold arrived. f_equal. lia. }
  repeat split.
  - intros res Hans Hst. rewrite Hans, Hst. simpl. rewrite Harr. reflexivity.
  - intros res Hans Hst Hlt. rewrite Hans, Hst.
    assert (Hltb : (attempt <? R) = true) by (apply Z.ltb_lt; exact Hlt).
    rewrite Hltb. simpl.
    destruct (fetchWithRetry_loop_trace q R m (attempt + 1) lastErr
                (advance 1 [EvFetch q; EvSleep (toBackoffMs attempt)]
                   (advance k (retry_trace q k) w)))
      as (rest & Hrest & Hhead).
    destruct Hhead as [rest' ->]; [unfold attempt in Hlt; lia|].
    exists rest'. rewrite Hrest. unfold arrived. simpl.
    rewrite <- !app_assoc. reflexivity.
  - intros Hlast.
    assert (Hltb : (attempt <? R) = false) by (apply Z.ltb_ge; lia).
    rewrite Hltb, Harr.
    destruct answer; [rewrite andb_false_r|]; reflexivity.
Qed.

Lemma fetchWithRetry_policy_witness :
  1 <= 3 /\
  retriable_outcome (remote_fetch world_flaky 0%nat (plain_get "u")) = true /\
  fetchWithRetry (plain_get "u") 3 world_flaky =
  (Ret (status_only 404),
   advance 2 (retry_trace (plain_get "u") 1 ++ [EvFetch (plain_get "u")])
     world_flaky).
Proof.
  split; [lia|]. split; [reflexivity|].
  assert (Hprev : forall i, (i < 1)%nat ->
            retriable_outcome
              (remote_fetch world_flaky (i + tick world_flaky)%nat
                 (plain_get "u")) = true).
  { intros i Hi. assert (i = 0%nat) as -> by lia. reflexivity. }
  destruct (fetchWithRetry_policy (plain_get "u") 3 1 world_flaky
              ltac:(lia) ltac:(lia) Hprev) as (Hreturned & _ & _).
  apply Hreturned; reflexivity.
Defined.

(** ** Network activity leaves the rest of the world alone *)

Lemma net_only_refl P w : net_only P w w.
Proof.
  unfold net_only. repeat split; try reflexivity.
  exists []. split; [symmetry; apply app_nil_r | constructor].
Qed.

Lemma net_only_trans P w1 w2 w3 :
  net_only P w1 w2 -> net_only P w2 w3 -> net_only P w1 w3.
Proof.
  unfold net_only.
  intros (A1 & B1 & C1 & D1 & E1 & F1 & G1 & H1 & I1 & J1 & l1 & T1 & P1)
         (A2 & B2 & C2 & D2 & E2 & F2 & G2 & H2 & I2 & J2 & l2 & T2 & P2).
  repeat split; try congruence.
  exists (l1 ++ l2)%list. split.
  - rewrite T2, T1. symmetry. apply app_assoc.
  - apply Forall_app. split; assumption.
Qed.

Lemma net_only_weaken (P Q : Event -> Prop) w w' :
  (forall e, P e -> Q e) -> net_only P w w' -> net_only Q w w'.
Proof.
  unfold net_only.
  intros HPQ (A & B & C & D & E & F & G & H & I & J & l & T & HP).
  repeat split; try assumption.
  exists l. split; [assumption|]. eapply Forall_impl; eassumption.
Qed.

Lemma net_only_advance P k evs w :
  Forall P evs -> net_only P w (advance k evs w).
Proof.
  intros H. unfold net_only, advance; simpl. repeat split; try reflexivity.
  exists evs. split; [reflexivity | exact H].
Qed.

Lemma fetchWithRetry_loop_net_only q R n :
  forall attempt lastErr w,
    net_only (fetch_or_wait q) w
      (snd (fetchWithRetry_loop q R n attempt lastErr w)).
Proof.
  assert (Hf : fetch_or_wait q (EvFetch q)) by (left; reflexivity).
  assert (Hs : forall ms, fetch_or_wait q (EvSleep ms)) by (right; eauto).
  induction n as [|n IH]; intros attempt lastErr w.
  - simpl. apply net_only_refl.
  - rewrite fetchWithRetry_loop_step.
    destruct (remote_fetch w (tick w) q) as [res|err].
    + destruct (isRetriableStatus (res_status res) && (attempt <? R)).
      * eapply net_only_trans; [|apply IH].
        apply net_only_advance. auto using Forall_cons, Forall_nil.
      * simpl. apply net_only_advance. auto using Forall_cons, Forall_nil.
    + destruct ((attempt <? R) && isRetriableNetworkError err).
      * eapply net_only_trans; [|apply IH].
        apply net_only_advance. auto using Forall_cons, Forall_nil.
      * simpl. apply net_only_advance. auto using Forall_cons, Forall_nil.
Qed.

Lemma fetchWithRetry_net_only q R w :
  net_only (fetch_or_wait q) w (snd (fetchWithRetry q R w)).
Proof. apply fetchWithRetry_loop_net_only. Qed.

(** ** Probing the remote size *)

Lemma probe_by_head_total url referer w :
  exists r w',
    probe_by_head url referer w = (Ret r, w') /\ net_only probe_event w w'.
Proof.
  unfold probe_by_head. munfold. simpl.
  match goal with
  | |- context [fetchWithRetry ?q ?R w] =>
      pose proof (fetchWithRetry_net_only q R w) as Hnet;
      destruct (fetchWithRetry q R w) as [[res|err] w1]
  end; simpl in Hnet.
  all: assert (Hprobe : net_only probe_event w w1)
    by (eapply net_only_weaken; [|exact Hnet];
        intros e [->|[ms ->]]; simpl; auto).
  - destruct (res_ok res); eauto.
  - eauto.
Qed.

Lemma probe_by_get_total url referer w :
  exists r w',
    probe_by_get url referer w = (Ret r, w') /\ net_only probe_event w w'.
Proof.
  unfold probe_by_get. munfold. simpl.
  match goal with
  | |- context [fetchWithRetry ?q ?R w] =>
      pose proof (fetchWithRetry_net_only q R w) as Hnet;
      destruct (fetchWithRetry q R w) as [[res|err] w1]
  end; simpl in Hnet.
  all: assert (Hprobe : net_only probe_event w w1)
    by (eapply net_only_weaken; [|exact Hnet];
        intros e [->|[ms ->]]; simpl; auto;
        right; rewrite lookup_insert_ne by discriminate;
        apply lookup_insert_eq).
  - destruct (res_status res =? 206); eauto.
  - eauto.
Qed.

(** Probing always comes back with an answer, and leaves only probe
    requests behind. *)
Lemma getRemoteSizeAndRanges_total url referer w :
  exists info w',
    getRemoteSizeAndRanges url referer w = (Ret info, w') /\
    net_only probe_event w w'.
Proof.
  unfold getRemoteSizeAndRanges. munfold.
  destruct (probe_by_head_total url referer w) as (r1 & w1 & -> & N1).
  destruct r1 as [info|]; [eauto|].
  destruct (probe_by_get_total url referer w1) as (r2 & w2 & -> & N2).
  destruct r2 as [info|]; eauto using net_only_trans.
Qed.

(** ** Before the loop *)

Lemma preflight_eq url filePath referer sampleBytes w :
  preflight url filePath referer sampleBytes (mkDlFrame 0 0 None false, w) =
  let finalSize := recorded_size w filePath in
  let tmpSize := recorded_size w (filePath +:+ ".part") in
  if (finalSize >? 0) && (sampleBytes >? 0)
  then (Ret (Some "exists"), (mkDlFrame finalSize 0 None false, w))
  else if (sampleBytes =? 0) && (finalSize >? 0) then
    match getRemoteSizeAndRanges url referer w with
    | (Ret info, w1) =>
        (Ret (if already_complete finalSize info then Some "exists" else None),
         (mkDlFrame finalSize tmpSize (Some info) false, w1))
    | (Throw e, w1) => (Throw e, (mkDlFrame finalSize tmpSize None false, w1))
    end
  else (Ret None, (mkDlFrame finalSize tmpSize None false, w)).
Proof.
  unfold preflight, recorded_size, statSync_size. munfold. simpl.
  destruct (files w !! filePath) as [fc|]; simpl.
  - destruct ((Z.of_nat (length fc) >? 0) && (sampleBytes >? 0)); simpl;
      [reflexivity|].
    destruct (files w !! (filePath +:+ ".part")) as [tc|]; simpl;
      (destruct ((sampleBytes =? 0) && (Z.of_nat (length fc) >? 0)); simpl;
       [|reflexivity]);
      (destruct (getRemoteSizeAndRanges url referer w) as [[info|e] w1]; simpl;
       [|reflexivity]);
      unfold already_complete; (destruct (size info) as [remote|]; simpl;
       [|reflexivity]);
      destruct (truthyZ remote && _); reflexivity.
  - destruct (files w !! (filePath +:+ ".part")) as [tc|]; simpl;
      rewrite andb_false_r; reflexivity.
Qed.

(** The function is what it does before the loop, then the loop. *)
Lemma downloadToFile_eq url filePath referer maxRetries sampleBytes w :
  downloadToFile url filePath referer maxRetries sampleBytes w =
  match preflight url filePath referer sampleBytes
          (mkDlFrame 0 0 None false, w) with
  | (Ret (Some status), fs) => (Ret (Some status), snd fs)
  | (Ret None, fs) =>
      let '(r, fs') :=
        downloadToFile_loop url filePath referer maxRetries sampleBytes
          (Z.to_nat maxRetries) 1 fs in
      (r, snd fs')
  | (Throw e, fs) => (Throw e, snd fs)
  end.
Proof.
  unfold downloadToFile. munfold.
  destruct (preflight _ _ _ _ _) as [[[status|]|e] fs]; try reflexivity.
Qed.

(** Before the loop nothing is thrown and nothing but probing is done. *)
Lemma preflight_total url filePath referer sampleBytes w :
  exists r fr w',
    preflight url filePath referer sampleBytes (mkDlFrame 0 0 None false, w) =
    (Ret r, (fr, w')) /\
    (r = Some "exists" \/ r = None) /\ net_only probe_event w w'.
Proof.
  rewrite preflight_eq. cbv zeta.
  destruct (_ && (sampleBytes >? 0)).
  - eexists _, _, _. split; [reflexivity|]. split; [auto | apply net_only_refl].
  - destruct ((sampleBytes =? 0) && _).
    + destruct (getRemoteSizeAndRanges_total url referer w)
        as (info & w1 & -> & Hnet).
      eexists _, _, _. split; [reflexivity|]. split; [|exact Hnet].
      destruct (already_complete _ info); auto.
    + eexists _, _, _. split; [reflexivity|]. split; [auto | apply net_only_refl].
Qed.

(** C10 (as stated, refuted).  Called with no attempt allowed, for a sample
    of a file that is already there, the function returns ["exists"], not
    [undefined]. *)
Lemma downloadToFile_zero_retries_counterexample :
  0 < 1 /\
  fst (downloadToFile "u" "f.mp4" "" 0 5 world_with_final) = Ret (Some "exists") /\
  fst (downloadToFile "u" "f.mp4" "" 0 5 world_with_final) <> Ret None.
Proof. vm_compute. repeat split; try reflexivity; discriminate. Qed.

(** C10 (amended).  Called with [maxRetries < 1], the function never enters
    the attempt loop: it throws nothing, sends nothing but the probe of the
    code before the loop, and returns ["exists"] when that code does and
    [undefined] otherwise, never ["downloaded"]. *)
Theorem downloadToFile_without_attempts url filePath referer maxRetries
    sampleBytes w :
  maxRetries < 1 ->
  (exists r w',
     downloadToFile url filePath referer maxRetries sampleBytes w = (Ret r, w') /\
     (r = Some "exists" \/ r = None) /\ net_only probe_event w w') /\
  (forall fr w',
     preflight url filePath referer sampleBytes (mkDlFrame 0 0 None false, w) =
     (Ret None, (fr, w')) ->
     downloadToFile url filePath referer maxRetries sampleBytes w = (Ret None, w')).
Proof.
  intros Hlt. assert (Hn : Z.to_nat maxRetries = 0%nat) by lia.
  rewrite downloadToFile_eq, Hn. split.
  - destruct (preflight_total url filePath referer sampleBytes w)
      as (r & fr & w' & -> & Hr & Hnet).
    destruct r as [status|]; simpl; eauto 6.
  - intros fr w' ->. reflexivity.
Qed.

Lemma downloadToFile_without_attempts_witness :
  0 < 1 /\
  downloadToFile "u" "f.mp4" "" 0 0 world_empty = (Ret None, world_empty).
Proof.
  split; [lia|].
  destruct (downloadToFile_without_attempts "u" "f.mp4" "" 0 0 world_empty
              ltac:(lia)) as [_ Hundefined].
  apply (Hundefined (mkDlFrame 0 0 None false)).
  vm_compute. reflexivity.
Defined.

(** C6 (as stated, refuted).  The probe reports a known remote size, 0, and
    the local file, 3 bytes long, is not smaller; the function still goes
    on to request the resource, and returns ["downloaded"]. *)
Lemma downloadToFile_zero_size_counterexample :
  fst (getRemoteSizeAndRanges "u" "" world_zero_remote) =
    Ret (mkRemoteInfo (Some 0) false) /\
  recorded_size world_zero_remote "f.mp4" = 3 /\
  fst (downloadToFile "u" "f.mp4" "" 4 0 world_zero_remote) =
    Ret (Some "downloaded") /\
  fetches (trace (snd (downloadToFile "u" "f.mp4" "" 4 0 world_zero_remote))) =
    [("HEAD", None); ("GET", None)].
Proof. vm_compute. repeat split; reflexivity. Qed.

(** C6 (amended).  For a call without a sample cap on a final file of
    nonzero size, the engine probes the remote size, and if that size is
    known and not zero and the local size is at least as large, the call
    returns ["exists"] having sent nothing but the probe. *)
Theorem downloadToFile_exists_without_download url filePath referer
    maxRetries w info w1 remote :
  0 < recorded_size w filePath ->
  getRemoteSizeAndRanges url referer w = (Ret info, w1) ->
  size info = Some remote -> remote <> 0 ->
  remote <= recorded_size w filePath ->
  downloadToFile url filePath referer maxRetries 0 w = (Ret (Some "exists"), w1) /\
  net_only probe_event w w1.
Proof.
  intros Hpos Hprobe Hsize Hnz Hle.
  destruct (getRemoteSizeAndRanges_total url referer w)
    as (info' & w1' & Hprobe' & Hnet).
  rewrite Hprobe in Hprobe'. inversion Hprobe'; subst info' w1'.
  split; [|exact Hnet].
  rewrite downloadToFile_eq, preflight_eq. cbv zeta.
  assert (Hgt : (recorded_size w filePath >? 0) = true) by lia.
  rewrite Hgt, Hprobe. simpl.
  unfold already_complete, truthyZ. rewrite Hsize.
  assert ((remote =? 0) = false) as -> by (apply Z.eqb_neq; exact Hnz).
  assert ((recorded_size w filePath >=? remote) = true) as -> by lia.
  reflexivity.
Qed.

Lemma downloadToFile_exists_without_download_witness :
  0 < recorded_size world_same_size "f.mp4" /\
  fst (downloadToFile "u" "f.mp4" "" 4 0 world_same_size) = Ret (Some "exists").
Proof.
  assert (Hpos : 0 < recorded_size world_same_size "f.mp4")
    by (vm_compute; reflexivity).
  assert (Hprobe : getRemoteSizeAndRanges "u" "" world_same_size =
                   (Ret (mkRemoteInfo (Some 3) false),
                    snd (getRemoteSizeAndRanges "u" "" world_same_size)))
    by (vm_compute; reflexivity).
  assert (Hle : 3 <= recorded_size world_same_size "f.mp4")
    by (vm_compute; discriminate).
  pose proof (downloadToFile_exists_without_download "u" "f.mp4" "" 4
                world_same_size _ _ 3 Hpos Hprobe eq_refl ltac:(lia) Hle)
    as [Hrun _].
  split; [exact Hpos|]. rewrite Hrun. reflexivity.
Defined.

(** ** The byte limiter *)

Lemma ByteLimit_emitted_from (K : Z) (chunks : list (list byte)) :
  0 < K ->
  forall st, ByteLimit.limit st = K -> 0 <= ByteLimit.seen st <= K ->
    ByteLimit.emitted st chunks =
    take (Z.to_nat (K - ByteLimit.seen st)) (concat chunks).
Proof.
  intros HK. induction chunks as [|c cs IH]; intros st Hlim Hseen.
  - simpl. rewrite take_nil. reflexivity.
  - simpl ByteLimit.emitted. unfold ByteLimit._transform.
    rewrite Hlim.
    assert ((K <=? 0) = false) as -> by lia.
    destruct (Z.leb_spec (K - ByteLimit.seen st) 0) as [Hfull|Hroom].
    + simpl. rewrite (IH st Hlim Hseen).
      replace (Z.to_nat (K - ByteLimit.seen st)) with 0%nat by lia.
      rewrite !take_0. reflexivity.
    + set (rem := K - ByteLimit.seen st) in *.
      destruct (Z.gtb_spec (Z.of_nat (length c)) rem) as [Hlong|Hshort].
      * assert (Hlen : length (take (Z.to_nat rem) c) = Z.to_nat rem)
          by (apply length_take_le; lia).
        rewrite Hlen.
        destruct (negb (ByteLimit._hit st) && _); simpl;
          rewrite IH by (simpl; lia); simpl;
          replace (Z.to_nat (K - (ByteLimit.seen st + Z.of_nat (Z.to_nat rem))))
            with 0%nat by lia;
          rewrite take_0, !app_nil_r;
          symmetry; apply take_app_le; lia.
      * destruct (negb (ByteLimit._hit st) && _); simpl;
          rewrite IH by (simpl; lia); simpl;
          rewrite app_nil_r, take_app_ge by lia;
          do 2 f_equal; lia.
Qed.

Lemma set_files_twice f1 f2 w : set_files f2 (set_files f1 w) = set_files f2 w.
Proof. reflexivity. Qed.

(** A limited pipeline whose source delivers the cap: the pipeline
    rejects with the flag set, and the file has gained what the teardown
    let through of the bytes up to the cap. *)
Lemma pump_limited_reaches_limit (p : string) (K : Z) (chunks : list (list byte)) :
  0 < K ->
  forall st pushed fr w,
    ByteLimit.limit st = K -> 0 <= ByteLimit.seen st < K ->
    ByteLimit._hit st = false ->
    K <= ByteLimit.seen st + Z.of_nat (length (concat chunks)) ->
    pump_limited p st pushed chunks (fr, w) =
    (Throw (new_Error "byte-limit"),
     (set_byteLimitReached true fr,
      set_files
        (<[p := (file_or_empty w p ++
                 take (teardown w (tick w))
                   (pushed ++
                    take (Z.to_nat (K - ByteLimit.seen st)) (concat chunks)))%list]>
           (files w)) w)).
Proof.
  intros HK.
  induction chunks as [|c cs IH]; intros st pushed fr w Hlim Hseen Hhit Htot.
  - simpl in Htot. lia.
  - simpl pump_limited. unfold ByteLimit._transform.
    rewrite Hlim, Hhit.
    assert ((K <=? 0) = false) as -> by lia.
    assert ((K - ByteLimit.seen st <=? 0) = false) as -> by lia.
    remember (K - ByteLimit.seen st) as rem eqn:Hrem.
    simpl negb. rewrite andb_true_l.
    simpl in Htot. rewrite length_app in Htot.
    destruct (Z.gtb_spec (Z.of_nat (length c)) rem) as [Hlong|Hshort].
    + rewrite length_take_le by lia.
      assert ((ByteLimit.seen st + Z.of_nat (Z.to_nat rem) >=? K) = true) as ->
        by (apply Z.geb_le; lia).
      munfold. unfold write_chunk. munfold. simpl.
      rewrite app_nil_r, (take_app_le c) by lia. reflexivity.
    + destruct (Z.geb_spec (ByteLimit.seen st + Z.of_nat (length c)) K) as [Hfull|Hmore].
      * munfold. unfold write_chunk. munfold. simpl.
        rewrite app_nil_r, (take_app_le c) by lia.
        rewrite (take_ge c) by lia. reflexivity.
      * match goal with |- pump_limited _ ?st' ?pushed' _ _ = _ =>
          rewrite (IH st' pushed' fr w) by (simpl; lia) end.
        simpl. rewrite app_nil_r, (take_app_ge c) by lia.
        rewrite <- app_assoc. repeat f_equal. clear IH. lia.
Qed.

(** ** Sample downloads *)

Lemma string_length_app (s1 s2 : string) :
  String.length (s1 +:+ s2) = (String.length s1 + String.length s2)%nat.
Proof.
  induction s1 as [|c r IH]; [reflexivity|].
  change (String c r +:+ s2) with (String c (r +:+ s2)).
  simpl. rewrite IH. reflexivity.
Qed.

Lemma part_ne (p : string) : p +:+ ".part" <> p.
Proof.
  intros H. apply (f_equal String.length) in H.
  rewrite string_length_app in H. simpl in H. lia.
Qed.

Lemma finalize_moves (tmp final : string) (w : World) (content : list byte) :
  tmp <> final -> files w !! tmp = Some content ->
  finalize tmp final tmp w =
  (Ret tt, set_files (<[final := content]> (delete tmp (files w))) w).
Proof.
  intros Hne Htmp. unfold finalize, rename, unlink. munfold.
  rewrite Htmp. simpl.
  rewrite lookup_insert_ne by congruence. rewrite lookup_delete_eq.
  reflexivity.
Qed.

Lemma expectedTotalOf_sample K res offset :
  0 < K -> expectedTotalOf K res offset = Some K.
Proof.
  intros HK. unfold expectedTotalOf. rewrite sampling_test.
  assert ((K >? 0) = true) as -> by lia. reflexivity.
Qed.

Lemma attempt_body_sample url filePath referer K fr w res body :
  0 < K ->
  remote_fetch w (tick w) (download_request url referer (Some (sample_range K)) w) = Ret res ->
  res_ok res = true -> res_body res = Some body ->
  K <= body_length body ->
  attempt_body url filePath referer K (fr, w) =
  (Ret "downloaded",
   (set_byteLimitReached true fr,
    set_files
      (<[filePath := take (teardown w (S (tick w)))
                       (take (Z.to_nat K) (concat (body_chunks body)))]>
         (delete (filePath +:+ ".part") (files w)))
      (advance 1 [EvFetch (download_request url referer (Some (sample_range K)) w);
                  EvProgress 0 (Some K)] w))).
Proof.
  intros HK Hfetch Hok Hbody Hlen.
  unfold attempt_body, decideResumeOffset.
  assert (HK' : (K >? 0) = true) by lia.
  rewrite sampling_test, HK'. munfold. simpl.
  unfold fetch. unfold download_request, sample_range in *. simpl in Hfetch.
  rewrite Hfetch. simpl. rewrite Hok, Hbody. simpl.
  unfold pipeline_limited. munfold.
  rewrite (pump_limited_reaches_limit _ K) by (simpl; auto; unfold body_length in Hlen; lia).
  simpl. unfold truthyZ.
  assert ((K =? 0) = false) as -> by lia. simpl.
  erewrite finalize_moves;
    [|apply part_ne|simpl; apply lookup_insert_eq].
  simpl. rewrite expectedTotalOf_sample by exact HK.
  unfold file_or_empty. simpl. rewrite lookup_insert_eq. simpl.
  rewrite !delete_insert_eq.
  replace (K - 0) with K by lia.
  f_equal. f_equal. world_ext. rewrite <- app_assoc. reflexivity.
Qed.

(** C2 (the code departs from it).  A sample download with cap [K > 0],
    with no finished file in the way and a remote side that answers the
    ranged request with a success status and a body of at least [K] bytes.
    The call does return ["downloaded"] after that one request and no wait,
    and the [ByteLimit] transform with limit [K], fed any chunks, does push
    exactly the first [K] bytes of their concatenation.  But the final file
    holds only what had been written of those [K] bytes when the pipeline
    was torn down: [_onLimit] destroys the source while [_transform] is
    still running, so the file has [K] bytes only if the teardown lets all
    [K] through, and fewer otherwise. *)
Theorem sample_download_cut_short url filePath referer maxRetries K w res
    body :
  0 < K -> 1 <= maxRetries ->
  recorded_size w filePath = 0 ->
  remote_fetch w (tick w)
    (download_request url referer (Some (sample_range K)) w) = Ret res ->
  res_ok res = true -> res_body res = Some body ->
  K <= body_length body ->
  let sample := take (Z.to_nat K) (concat (body_chunks body)) in
  let written := take (teardown w (S (tick w))) sample in
  downloadToFile url filePath referer maxRetries K w =
    (Ret (Some "downloaded"),
     set_files (<[filePath := written]> (delete (filePath +:+ ".part") (files w)))
       (advance 1
          [EvFetch (download_request url referer (Some (sample_range K)) w);
           EvProgress 0 (Some K)] w)) /\
  Z.of_nat (length written) = Z.min K (Z.of_nat (teardown w (S (tick w)))) /\
  (forall chunks,
     ByteLimit.emitted (ByteLimit.new K) chunks =
     take (Z.to_nat K) (concat chunks)).
Proof.
  intros HK HR Hfinal Hfetch Hok Hbody Hlen sample written. repeat split.
  - rewrite downloadToFile_eq, preflight_eq. cbv zeta. rewrite Hfinal.
    assert ((K =? 0) = false) as -> by lia. simpl.
    destruct (Z.to_nat maxRetries) as [|n] eqn:Hn; [lia|].
    simpl downloadToFile_loop. munfold.
    rewrite (attempt_body_sample _ _ _ _ _ _ res body) by assumption.
    reflexivity.
  - unfold written, sample. rewrite !length_take.
    unfold body_length in Hlen. lia.
  - intros chunks.
    rewrite (ByteLimit_emitted_from K) by (simpl; auto; lia).
    simpl. do 2 f_equal. lia.
Qed.

Lemma sample_download_cut_short_witness :
  0 < 5 /\
  fst (downloadToFile "u" "f.mp4" "" 4 5 world_sample) = Ret (Some "downloaded") /\
  files (snd (downloadToFile "u" "f.mp4" "" 4 5 world_sample)) =
    <["f.mp4" := [x01; x02; x03]]> ∅ /\
  ByteLimit.emitted (ByteLimit.new 5) [[x01; x02; x03]; [x04; x05; x06; x07]] =
    [x01; x02; x03; x04; x05].
Proof.
  split; [lia|].
  destruct (sample_download_cut_short "u" "f.mp4" "" 4 5 world_sample
              (mkFetchResponse 206 ∅
                 (Some (mkBody [[x01; x02; x03]; [x04; x05; x06; x07]] None))
                 None)
              (mkBody [[x01; x02; x03]; [x04; x05; x06; x07]] None))
    as (Hrun & _ & Hemit);
    try reflexivity; try lia; [vm_compute; discriminate|].
  rewrite Hrun, Hemit. repeat split; vm_compute; reflexivity.
Defined.

(** The same request against a remote side that sends the body in one
    chunk: the cap is reached in the first call of [_transform], nothing
    has been written when the stream is torn down, and the file that is
    moved into place is empty. *)
Example sample_download_single_chunk :
  fst (downloadToFile "u" "f.mp4" "" 4 5 world_sample_one_chunk) =
    Ret (Some "downloaded") /\
  files (snd (downloadToFile "u" "f.mp4" "" 4 5 world_sample_one_chunk)) =
    <["f.mp4" := []]> ∅.
Proof. split; vm_compute; reflexivity. Qed.

(** ** A resumed request that is not honoured *)

(** C1 (the code departs from it).  A call without a sample cap finds a
    temporary file of nonzero size and resumes from its size; the remote
    side answers the ranged request with a success status other than 206.
    The temporary file is removed, as specified, but the error is not
    one the attempt loop retries: whatever [maxRetries >= 1] is, the call
    throws after this one request, without a wait and without a second
    attempt from offset 0. *)
Theorem range_not_honored_is_terminal url filePath referer maxRetries w part
    res body :
  1 <= maxRetries ->
  recorded_size w filePath = 0 ->
  files w !! (filePath +:+ ".part") = Some part ->
  (0 < length part)%nat ->
  remote_fetch w (tick w)
    (download_request url referer
       (Some (resume_range (Z.of_nat (length part)))) w) = Ret res ->
  res_ok res = true -> res_body res = Some body ->
  res_status res <> 206 ->
  downloadToFile url filePath referer maxRetries 0 w =
  (Throw RANGE_NOT_HONORED,
   set_files (delete (filePath +:+ ".part") (files w))
     (advance 1
        [EvFetch (download_request url referer
                    (Some (resume_range (Z.of_nat (length part)))) w)] w)).
Proof.
  intros HR Hfinal Hpart Hlen Hfetch Hok Hbody Hst.
  rewrite downloadToFile_eq, preflight_eq. cbv zeta. rewrite Hfinal. simpl.
  destruct (Z.to_nat maxRetries) as [|n] eqn:Hn; [lia|].
  simpl downloadToFile_loop. unfold attempt_body, decideResumeOffset.
  munfold. simpl. unfold recorded_size. rewrite Hpart.
  assert (Hgt : (Z.of_nat (length part) >? 0) = true) by lia.
  rewrite ?Hgt. simpl. unfold fetch. unfold download_request, resume_range in *.
  simpl in Hfetch. rewrite ?Hgt. rewrite Hfetch. simpl. rewrite Hok, Hbody.
  assert ((res_status res =? 206) = false) as -> by (apply Z.eqb_neq; exact Hst).
  rewrite ?Hgt. simpl. unfold unlink. cbn [files next_tick log_event].
  rewrite Hpart. simpl. rewrite andb_false_r. reflexivity.
Qed.

Lemma range_not_honored_is_terminal_witness :
  1 <= 4 /\
  fst (downloadToFile "u" "f.mp4" "" 4 0 world_range_ignored) =
    Throw RANGE_NOT_HONORED /\
  fetches (trace (snd (downloadToFile "u" "f.mp4" "" 4 0 world_range_ignored))) =
    [("GET", Some "bytes=4-")] /\
  files (snd (downloadToFile "u" "f.mp4" "" 4 0 world_range_ignored)) = ∅.
Proof.
  split; [lia|].
  rewrite (range_not_honored_is_terminal "u" "f.mp4" "" 4 world_range_ignored
             [x01; x02; x03; x04]
             (mkFetchResponse 200 ∅
                (Some (mkBody [[x01; x02; x03; x04; x05; x06; x07]] None)) None)
             (mkBody [[x01; x02; x03; x04; x05; x06; x07]] None));
    try reflexivity; try lia; try (simpl; lia); try (vm_compute; discriminate).
  repeat split; vm_compute; reflexivity.
Defined.

(** The error is thrown as terminal because the classification of the catch
    block does not know it. *)
Lemma range_not_honored_not_retryable :
  isRetriableNetworkError RANGE_NOT_HONORED ||
  Js.test_retry_code (err_message RANGE_NOT_HONORED) = false.
Proof. vm_compute. reflexivity. Qed.

(** ** The login client *)

Lemma rawRequestWithRetry_loop_step q n attempt lastErr w :
  rawRequestWithRetry_loop q (S n) attempt lastErr w =
  match remote_raw w (tick w) q with
  | Ret r =>
      if isRetriableStatus (raw_status r) && (attempt <? retryAttempts w)
      then rawRequestWithRetry_loop q n (attempt + 1) lastErr
             (advance 1 [EvRaw q; EvSleep (toBackoffMs attempt)] w)
      else (Ret r, advance 1 [EvRaw q] w)
  | Throw err =>
      if (attempt <? retryAttempts w) && isRetriableNetworkError err
      then rawRequestWithRetry_loop q n (attempt + 1) (Some err)
             (advance 1 [EvRaw q; EvSleep (toBackoffMs attempt)] w)
      else (Throw err, advance 1 [EvRaw q] w)
  end.
Proof.
  simpl. munfold. unfold rawRequest, sleep. munfold.
  destruct (remote_raw w (tick w) q) as [r|err]; cbn [retryAttempts next_tick log_event].
  - destruct (isRetriableStatus (raw_status r) && (attempt <? retryAttempts w));
      [rewrite log_two|]; reflexivity.
  - destruct ((attempt <? retryAttempts w) && isRetriableNetworkError err);
      [rewrite log_two|]; reflexivity.
Qed.

Lemma rawRequestWithRetry_loop_net_only q n :
  forall attempt lastErr w,
    net_only (raw_or_wait q) w
      (snd (rawRequestWithRetry_loop q n attempt lastErr w)).
Proof.
  assert (Hf : raw_or_wait q (EvRaw q)) by (left; reflexivity).
  assert (Hs : forall ms, raw_or_wait q (EvSleep ms)) by (right; eauto).
  induction n as [|n IH]; intros attempt lastErr w.
  - simpl. apply net_only_refl.
  - rewrite rawRequestWithRetry_loop_step.
    destruct (remote_raw w (tick w) q) as [r|err].
    + destruct (isRetriableStatus (raw_status r) && (attempt <? retryAttempts w)).
      * eapply net_only_trans; [|apply IH].
        apply net_only_advance. auto using Forall_cons, Forall_nil.
      * simpl. apply net_only_advance. auto using Forall_cons, Forall_nil.
    + destruct ((attempt <? retryAttempts w) && isRetriableNetworkError err).
      * eapply net_only_trans; [|apply IH].
        apply net_only_advance. auto using Forall_cons, Forall_nil.
      * simpl. apply net_only_advance. auto using Forall_cons, Forall_nil.
Qed.

Lemma rawRequestWithRetry_net_only q w :
  net_only (raw_or_wait q) w (snd (rawRequestWithRetry q w)).
Proof.
  unfold rawRequestWithRetry. munfold.
  apply rawRequestWithRetry_loop_net_only.
Qed.

(** A retried request to another endpoint is no password-step request. *)
Lemma rawRequestWithRetry_not_auth q w :
  rq_url q <> LOGIN_AUTHENTICATION_URL ->
  net_only not_login_authentication w (snd (rawRequestWithRetry q w)).
Proof.
  intros Hurl. eapply net_only_weaken; [|apply rawRequestWithRetry_net_only].
  intros e [->|[ms ->]]; simpl; auto.
Qed.

Lemma login_step_csrf_not_auth w :
  net_only not_login_authentication w (snd (login_step_csrf w)).
Proof.
  unfold login_step_csrf. munfold.
  match goal with |- context [rawRequestWithRetry ?q w] =>
    pose proof (rawRequestWithRetry_not_auth q w ltac:(vm_compute; discriminate)) as N1;
    destruct (rawRequestWithRetry q w) as [[r|e] w1] end; simpl in N1; [|exact N1].
  simpl.
  destruct (negb (JsonOps.truthy (cookie_or_null "csrftoken" _))).
  - match goal with |- context [rawRequestWithRetry ?q w1] =>
      pose proof (rawRequestWithRetry_not_auth q w1 ltac:(vm_compute; discriminate)) as N2;
      destruct (rawRequestWithRetry q w1) as [[r2|e2] w2] end; simpl in N2.
    + match goal with
      | |- net_only _ _ (snd (match ?X with Some _ => _ | None => _ end w2)) =>
          destruct X as [[| | | | |]|]
      end; simpl; eauto using net_only_trans.
    + simpl. eauto using net_only_trans.
  - match goal with
    | |- net_only _ _ (snd (match ?X with Some _ => _ | None => _ end w1)) =>
        destruct X as [[| | | | |]|]
    end; simpl; exact N1.
Qed.

Lemma login_step_check_not_auth email csrf store w :
  net_only not_login_authentication w (snd (login_step_check email csrf store w)).
Proof.
  unfold login_step_check. munfold.
  match goal with |- context [rawRequestWithRetry ?q w] =>
    pose proof (rawRequestWithRetry_not_auth q w ltac:(vm_compute; discriminate)) as N1;
    destruct (rawRequestWithRetry q w) as [[r|e] w1] end; simpl in N1; exact N1.
Qed.

Lemma is_string_truthy j k s :
  JsonOps.is_string (JsonOps.get j k) s = true -> JsonOps.truthy j = true.
Proof.
  destruct j as [[| | | | |fields]|]; simpl; try discriminate. reflexivity.
Qed.

Lemma LOGIN_FLOW_error_kind message :
  String.prefix "[LOGIN_FLOW] " (err_message (LOGIN_FLOW_error message)) = true.
Proof. reflexivity. Qed.

(** C7.  When the check-active-user step succeeds at the application level
    but its follow-up instruction is not ["get-pass"], the handshake throws
    the [LOGIN_FLOW] error then and there: the world it leaves is the one
    the check step left, and no request to the login-authentication
    endpoint is in what was sent. *)
Theorem login_flow_rejected email password w csrf store w1 r store1 w2 :
  nonempty email = true -> nonempty password = true ->
  login_step_csrf w = (Ret (csrf, store), w1) ->
  login_step_check email csrf store w1 = (Ret (r, store1), w2) ->
  check_succeeded r ->
  proceeds_to_password r = false ->
  loginWithCredentialsInline email password w =
    (Throw (LOGIN_FLOW_error (JsonOps.get (raw_json r) "message")), w2) /\
  String.prefix "[LOGIN_FLOW] "
    (err_message (LOGIN_FLOW_error (JsonOps.get (raw_json r) "message"))) = true /\
  net_only not_login_authentication w w2.
Proof.
  intros He Hp Hcsrf Hcheck [Hhttp Happ] Hmsg.
  split; [|split; [apply LOGIN_FLOW_error_kind|]].
  - unfold loginWithCredentialsInline. rewrite He, Hp. simpl. munfold.
    rewrite Hcsrf, Hcheck. unfold login_judge_check.
    assert ((raw_status r <? 200) = false) as -> by lia.
    assert ((raw_status r >=? 300) = false) as -> by lia.
    simpl. rewrite (is_string_truthy _ _ _ Happ), Happ.
    unfold proceeds_to_password in Hmsg. rewrite Hmsg. reflexivity.
  - eapply net_only_trans.
    + pose proof (login_step_csrf_not_auth w) as N. rewrite Hcsrf in N. exact N.
    + pose proof (login_step_check_not_auth email csrf store w1) as N.
      rewrite Hcheck in N. exact N.
Qed.

Lemma login_flow_rejected_witness :
  check_succeeded
    (mkRawResponse 200 []
       (Some (JObj [("status", JStr "success"); ("message", JStr "get-otp")]))) /\
  fst (loginWithCredentialsInline "a@b.c" "pw" world_other_flow) =
    Throw (LOGIN_FLOW_error (Some (JStr "get-otp"))).
Proof.
  assert (Hok : check_succeeded
            (mkRawResponse 200 []
               (Some (JObj [("status", JStr "success");
                            ("message", JStr "get-otp")]))))
    by (split; [simpl; lia | reflexivity]).
  assert (Hcsrf : login_step_csrf world_other_flow =
                  (Ret (JStr "tok123", [("csrftoken", "tok123")]),
                   snd (login_step_csrf world_other_flow)))
    by (vm_compute; reflexivity).
  assert (Hcheck :
            login_step_check "a@b.c" (JStr "tok123") [("csrftoken", "tok123")]
              (snd (login_step_csrf world_other_flow)) =
            (Ret (mkRawResponse 200 []
                    (Some (JObj [("status", JStr "success");
                                 ("message", JStr "get-otp")])),
                  [("csrftoken", "tok123")]),
             snd (login_step_check "a@b.c" (JStr "tok123")
                    [("csrftoken", "tok123")]
                    (snd (login_step_csrf world_other_flow)))))
    by (vm_compute; reflexivity).
  pose proof (login_flow_rejected "a@b.c" "pw" world_other_flow _ _ _ _ _ _
                eq_refl eq_refl Hcsrf Hcheck Hok eq_refl) as [Hrun _].
  split; [exact Hok|]. rewrite Hrun. reflexivity.
Defined.

(** ** Establishing the session *)

Lemma fetch_or_wait_fetch_event q e : fetch_or_wait q e -> fetch_event e.
Proof. intros [->|[ms ->]]; exact I. Qed.

Lemma fetchCoreData_net_only referer w :
  net_only fetch_event w (snd (fetchCoreData referer w)).
Proof.
  unfold fetchCoreData. munfold. simpl.
  match goal with |- context [fetchWithRetry ?q ?R w] =>
    pose proof (fetchWithRetry_net_only q R w) as N;
    destruct (fetchWithRetry q R w) as [[res|e] w1] end; simpl in N.
  all: apply (net_only_weaken _ _ _ _ (fetch_or_wait_fetch_event _)) in N.
  - destruct (negb (res_ok res)); simpl; [exact N|].
    destruct (res_json res); exact N.
  - exact N.
Qed.

(** Verification throws nothing and only talks to the profile endpoint. *)
Lemma verify_total courseUrl w :
  exists r w', verify courseUrl w = (Ret r, w') /\ net_only fetch_event w w'.
Proof.
  unfold verify. munfold. simpl.
  destruct (negb (Js.truthy_str (ACTIVE_COOKIE w))).
  - eexists _, _. split; [reflexivity | apply net_only_refl].
  - pose proof (fetchCoreData_net_only
                  (if nonempty courseUrl then courseUrl else ORIGIN) w) as N.
    destruct (fetchCoreData _ w) as [[core|e] w1]; simpl in N.
    + destruct (JsonOps.truthy _); eauto.
    + eauto.
Qed.

(** C5 (the code departs from it).  An operator-supplied cookie is
    installed and server verification reports it not authenticated; there is
    no stored session, no forced login, and an identity/secret pair is at
    hand.  The credential is not invalidated: [ACTIVE_COOKIE] still holds
    the rejected cookie, so the test that guards the login handshake fails
    and [prepareSession] returns without a session and without a single
    login request. *)
Theorem rejected_override_skips_login userEmail userPassword courseUrl w w1 :
  nonempty (COOKIE w) = true ->
  COOKIE w <> COOKIE_PLACEHOLDER ->
  Js.trim (Js.or_empty (sessionCookie w)) = "" ->
  nonempty userEmail = true -> nonempty userPassword = true ->
  verify courseUrl (set_ACTIVE_COOKIE (Some (COOKIE w)) w) = (Ret None, w1) ->
  prepareSession userEmail userPassword courseUrl false w =
    (Ret (None, "none"), w1) /\
  ACTIVE_COOKIE w1 = Some (COOKIE w) /\
  net_only fetch_event (set_ACTIVE_COOKIE (Some (COOKIE w)) w) w1.
Proof.
  intros Hc Hph Hstored He Hp Hverify.
  destruct (verify_total courseUrl (set_ACTIVE_COOKIE (Some (COOKIE w)) w))
    as (r & w1' & Hv & Hnet).
  rewrite Hverify in Hv. inversion Hv; subst r w1'.
  assert (Hactive : ACTIVE_COOKIE w1 = Some (COOKIE w))
    by (destruct Hnet as (-> & _); reflexivity).
  split; [|split; assumption].
  unfold prepareSession. munfold. simpl. rewrite Hstored, Hc.
  assert ((COOKIE w =? COOKIE_PLACEHOLDER)%string = false) as ->
    by (apply String.eqb_neq; exact Hph).
  simpl. rewrite Hverify. simpl. rewrite Hactive.
  destruct (COOKIE w) as [|c rest]; [discriminate|]. simpl.
  rewrite andb_false_r. reflexivity.
Qed.

Lemma rejected_override_skips_login_witness :
  nonempty (COOKIE world_stale_override) = true /\
  fst (prepareSession "a@b.c" "pw" "" false world_stale_override) =
    Ret (None, "none") /\
  ACTIVE_COOKIE (snd (prepareSession "a@b.c" "pw" "" false world_stale_override)) =
    Some "sessionid=stale" /\
  raw_urls (trace (snd (prepareSession "a@b.c" "pw" "" false
                          world_stale_override))) = [].
Proof.
  assert (Hverify :
            verify "" (set_ACTIVE_COOKIE (Some (COOKIE world_stale_override))
                         world_stale_override) =
            (Ret None,
             snd (verify "" (set_ACTIVE_COOKIE
                               (Some (COOKIE world_stale_override))
                               world_stale_override))))
    by (vm_compute; reflexivity).
  pose proof (rejected_override_skips_login "a@b.c" "pw" "" world_stale_override
                _ eq_refl ltac:(vm_compute; discriminate) eq_refl eq_refl eq_refl
                Hverify) as (Hrun & Hactive & _).
  split; [reflexivity|]. rewrite Hrun. split; [reflexivity|].
  split; [exact Hactive | vm_compute; reflexivity].
Defined.

(** The sibling path does invalidate: the same stale cookie, met as the
    stored session, is set absent, the handshake runs, and the fresh session
    verifies. *)
Example stale_stored_session_logs_in :
  fst (prepareSession "a@b.c" "pw" "" false world_stale_stored) =
    Ret (Some core_authenticated, "fresh-login") /\
  raw_urls (trace (snd (prepareSession "a@b.c" "pw" "" false world_stale_stored))) =
    [LOGIN_PAGE_URL; CHECK_ACTIVE_USER_URL; LOGIN_AUTHENTICATION_URL].
Proof. vm_compute. split; reflexivity. Qed.

(** The login of that run has the configuration written: the file was not
    there before and is there afterwards. *)
Example fresh_login_writes_config :
  files world_stale_stored !! "config.json" = None /\
  files (snd (prepareSession "a@b.c" "pw" "" false world_stale_stored))
    !! "config.json" = Some [].
Proof. vm_compute. split; reflexivity. Qed.

(** ** The resume offset on a retry *)

(** What an attempt without sample cap takes as its offset, in terms of
    the sizes the function has on record: a recorded temporary size above
    zero; else, with a recorded final size above zero and a remote side that
    accepts ranges, the final file is renamed to the temporary path and its
    size is the offset; else 0, the final file staying where it is.  Before
    the first attempt the sizes on record are those of the files
    ([preflight_eq]). *)
Lemma decideResumeOffset_priority url filePath referer fr w :
  let tmpPath := filePath +:+ ".part" in
  decideResumeOffset url filePath tmpPath referer 0 (fr, w) =
  if existingTmpSize fr >? 0 then (Ret (existingTmpSize fr), (fr, w))
  else if existingFinalSize fr >? 0 then
    match remoteInfo fr with
    | Some info =>
        if acceptRanges info then
          match files w !! filePath with
          | Some content =>
              (Ret (existingFinalSize fr),
               (set_existingFinalSize 0
                  (set_existingTmpSize (existingFinalSize fr) fr),
                set_files (<[tmpPath := content]> (delete filePath (files w))) w))
          | None => (Ret 0, (fr, w))
          end
        else (Ret 0, (fr, w))
    | None =>
        match getRemoteSizeAndRanges url referer w with
        | (Ret info, w1) =>
            let fr1 := set_remoteInfo (Some info) fr in
            if acceptRanges info then
              match files w1 !! filePath with
              | Some content =>
                  (Ret (existingFinalSize fr),
                   (set_existingFinalSize 0
                      (set_existingTmpSize (existingFinalSize fr) fr1),
                    set_files
                      (<[tmpPath := content]> (delete filePath (files w1))) w1))
              | None => (Ret 0, (fr1, w1))
              end
            else (Ret 0, (fr1, w1))
        | (Throw e, w1) => (Throw e, (fr, w1))
        end
    end
  else (Ret 0, (fr, w)).
Proof.
  cbv zeta. unfold decideResumeOffset. munfold. simpl.
  destruct (existingTmpSize fr >? 0); [reflexivity|]. cbn [fst snd].
  destruct (existingFinalSize fr >? 0); [|reflexivity].
  destruct (remoteInfo fr) as [info|] eqn:Hinfo; simpl; cbn [fst snd];
    rewrite ?Hinfo; simpl.
  - destruct (acceptRanges info); [|reflexivity].
    unfold rename. simpl. destruct (files w !! filePath); reflexivity.
  - destruct (getRemoteSizeAndRanges url referer w) as [[info|e] w1]; simpl;
      [|reflexivity].
    destruct (acceptRanges info); [|reflexivity].
    unfold rename. simpl. destruct (files w1 !! filePath); reflexivity.
Qed.

Lemma set_files_same w : set_files (files w) w = w.
Proof. destruct w; reflexivity. Qed.

Lemma pump_appends (p : string) (chunks : list (list byte)) :
  forall w old,
    files w !! p = Some old ->
    pump p chunks w =
    (Ret tt, set_files (<[p := (old ++ concat chunks)%list]> (files w)) w).
Proof.
  induction chunks as [|c cs IH]; intros w old Hold.
  - simpl. unfold ret. rewrite app_nil_r, insert_id by exact Hold.
    rewrite set_files_same. reflexivity.
  - simpl. munfold. unfold write_chunk. munfold.
    rewrite Hold. simpl.
    rewrite (IH _ (old ++ c)%list) by (simpl; apply lookup_insert_eq).
    simpl. rewrite insert_insert_eq, set_files_twice, <- app_assoc.
    reflexivity.
Qed.

(** C3 (the code departs from it).  A call without sample cap resumes from
    a temporary file of [N > 0] bytes; the first attempt is answered 206,
    delivers [chunks] and then breaks with a retriable error, and attempts
    remain.  The call goes on to its second attempt in a world whose
    temporary file has grown to [N] plus the delivered bytes, but the size
    on record is still [N], and [N] is what the second attempt takes as its
    resume offset. *)
Theorem stale_offset_on_retry url filePath referer maxRetries w part res
    chunks err :
  2 <= maxRetries ->
  recorded_size w filePath = 0 ->
  files w !! (filePath +:+ ".part") = Some part ->
  (0 < length part)%nat ->
  let tmpPath := filePath +:+ ".part" in
  let N := Z.of_nat (length part) in
  let q := download_request url referer (Some (resume_range N)) w in
  remote_fetch w (tick w) q = Ret res ->
  res_status res = 206 ->
  res_body res = Some (mkBody chunks (Some err)) ->
  isRetriableNetworkError err = true ->
  let fr := mkDlFrame 0 N None false in
  let w1 :=
    set_files (<[tmpPath := (part ++ concat chunks)%list]> (files w))
      (advance 1 [EvFetch q; EvProgress N (expectedTotalOf 0 res N);
                  EvSleep (toBackoffMs 1)] w) in
  downloadToFile url filePath referer maxRetries 0 w =
    (let '(r, fs) :=
       downloadToFile_loop url filePath referer maxRetries 0
         (Z.to_nat maxRetries - 1) 2 (fr, w1) in
     (r, snd fs)) /\
  recorded_size w1 tmpPath = N + Z.of_nat (length (concat chunks)) /\
  decideResumeOffset url filePath tmpPath referer 0 (fr, w1) = (Ret N, (fr, w1)).
Proof.
  intros HR Hfinal Hpart Hlen tmpPath N q Hfetch Hst Hbody Hretry fr w1.
  assert (Hgt : (N >? 0) = true) by (unfold N; lia).
  repeat split.
  - rewrite downloadToFile_eq, preflight_eq. cbv zeta. rewrite Hfinal. simpl.
    destruct (Z.to_nat maxRetries) as [|n] eqn:Hn; [lia|].
    replace (S n - 1)%nat with n by lia.
    simpl downloadToFile_loop. unfold attempt_body, decideResumeOffset.
    munfold. simpl. unfold recorded_size. rewrite Hpart. fold N.
    rewrite ?Hgt. simpl. unfold fetch.
    unfold q, download_request, resume_range in Hfetch. simpl in Hfetch.
    rewrite ?Hgt. rewrite Hfetch. simpl.
    assert (Hok : res_ok res = true) by (unfold res_ok; rewrite Hst; reflexivity).
    rewrite Hok, Hbody, Hst. rewrite ?Hgt. simpl.
    assert ((N =? 0) = false) as -> by lia. simpl.
    unfold pipeline_plain, stream_end. munfold.
    cbn [files next_tick log_event set_files]. rewrite Hpart. simpl.
    erewrite pump_appends by (simpl; apply lookup_insert_eq).
    simpl. rewrite Hretry. simpl.
    assert ((1 <? maxRetries) = true) as -> by lia. simpl.
    unfold sleep. munfold. simpl.
    match goal with
    | |- (let '(_, _) := downloadToFile_loop _ _ _ _ _ _ _ (_, ?wx) in _) = _ =>
        replace wx with w1; [reflexivity|]
    end.
    unfold w1, q, download_request, resume_range. world_ext.
    + symmetry. apply insert_insert_eq.
    + rewrite <- !app_assoc. reflexivity.
  - unfold recorded_size, w1. simpl. rewrite lookup_insert_eq, length_app.
    unfold N. lia.
  - rewrite decideResumeOffset_priority. simpl. rewrite Hgt. reflexivity.
Qed.

Lemma stale_offset_on_retry_witness :
  2 <= 4 /\
  fst (downloadToFile "u" "f.mp4" "" 4 0 world_stalled_once) =
    Ret (Some "downloaded") /\
  fetches (trace (snd (downloadToFile "u" "f.mp4" "" 4 0 world_stalled_once))) =
    [("GET", Some "bytes=4-"); ("GET", Some "bytes=4-")] /\
  files (snd (downloadToFile "u" "f.mp4" "" 4 0 world_stalled_once)) !! "f.mp4" =
    Some [x01; x02; x03; x04; x05; x06; x05; x06; x07].
Proof.
  split; [lia|].
  destruct (stale_offset_on_retry "u" "f.mp4" "" 4 world_stalled_once
              [x01; x02; x03; x04]
              (mkFetchResponse 206 ∅
                 (Some (mkBody [[x05; x06]] (Some aborted))) None)
              [[x05; x06]] aborted
              ltac:(lia) eq_refl eq_refl ltac:(simpl; lia)
              eq_refl eq_refl eq_refl eq_refl)
    as (Hrun & _ & _).
  rewrite Hrun. vm_compute. repeat split; reflexivity.
Defined.

(** The same run with a single attempt shows what the first attempt leaves
    behind: six bytes in the temporary file. *)
Example stalled_once_single_attempt :
  fst (downloadToFile "u" "f.mp4" "" 1 0 world_stalled_once) = Throw aborted /\
  files (snd (downloadToFile "u" "f.mp4" "" 1 0 world_stalled_once))
    !! "f.mp4.part" = Some [x01; x02; x03; x04; x05; x06].
Proof. vm_compute. split; reflexivity. Qed.
(** * Further properties *)

(** ** Backoff *)

(** X1: the backoff delay never decreases from one attempt to the next; it
    is 700 ms up to the first attempt and stays at the 30000 ms cap from the
    seventh attempt on. *)
Theorem toBackoffMs_monotone (a b : Z) :
  a <= b ->
  toBackoffMs a <= toBackoffMs b /\
  (a <= 1 -> toBackoffMs a = 700) /\
  (7 <= a -> toBackoffMs a = 30000).
Proof.
  intros Hab. unfold toBackoffMs. repeat split.
  - apply Z.min_le_compat_l, Z.mul_le_mono_nonneg_l; [lia |].
    apply Z.pow_le_mono_r; lia.
  - intros Ha. replace (Z.max 0 (a - 1)) with 0 by lia. reflexivity.
  - intros Ha. apply Z.min_l.
    assert (H : 2 ^ 6 <= 2 ^ Z.max 0 (a - 1)) by (apply Z.pow_le_mono_r; lia).
    change (2 ^ 6) with 64 in H. lia.
Qed.

Lemma toBackoffMs_monotone_witness :
  3 <= 9 /\ toBackoffMs 3 <= toBackoffMs 9.
Proof.
  split; [lia |].
  destruct (toBackoffMs_monotone 3 9) as [H _]; [lia | exact H].
Defined.

(** ** The byte limiter *)

Lemma ByteLimit_hit_silent (chunks : list (list byte)) :
  forall st, ByteLimit._hit st = true -> onLimit_calls st chunks = O.
Proof.
  induction chunks as [| c cs IH]; intros st Hhit; [reflexivity |].
  cbn [onLimit_calls]. unfold ByteLimit._transform.
  destruct (ByteLimit.limit st <=? 0); [apply IH, Hhit |].
  destruct (ByteLimit.limit st - ByteLimit.seen st <=? 0); [apply IH, Hhit |].
  rewrite Hhit. cbn [negb andb]. apply IH. reflexivity.
Qed.

Lemma ByteLimit_calls_from (chunks : list (list byte)) :
  forall st,
    0 < ByteLimit.limit st -> 0 <= ByteLimit.seen st < ByteLimit.limit st ->
    ByteLimit._hit st = false ->
    onLimit_calls st chunks =
    if ByteLimit.limit st <=? ByteLimit.seen st + Z.of_nat (length (concat chunks))
    then 1%nat else O.
Proof.
  induction chunks as [| c cs IH]; intros st HK Hseen Hhit.
  - cbn [onLimit_calls concat length]. rewrite Z.add_0_r.
    destruct (Z.leb_spec (ByteLimit.limit st) (ByteLimit.seen st)); [lia | reflexivity].
  - cbn [onLimit_calls concat]. rewrite length_app, Nat2Z.inj_add.
    unfold ByteLimit._transform.
    destruct (Z.leb_spec (ByteLimit.limit st) 0) as [Hle | _]; [lia |].
    destruct (Z.leb_spec (ByteLimit.limit st - ByteLimit.seen st) 0) as [Hle | _];
      [lia |].
    rewrite Hhit. cbn [negb andb].
    destruct (Z.gtb_spec (Z.of_nat (length c))
                (ByteLimit.limit st - ByteLimit.seen st)) as [Hbig | Hsmall].
    + rewrite length_take, Nat2Z.inj_min, Z2Nat.id by lia.
      rewrite Z.min_l by lia.
      replace (ByteLimit.seen st + (ByteLimit.limit st - ByteLimit.seen st))
        with (ByteLimit.limit st) by lia.
      rewrite Z.geb_leb, Z.leb_refl.
      rewrite ByteLimit_hit_silent by reflexivity.
      destruct (Z.leb_spec (ByteLimit.limit st)
                  (ByteLimit.seen st +
                   (Z.of_nat (length c) + Z.of_nat (length (concat cs)))));
        [reflexivity | lia].
    + rewrite Z.geb_leb.
      destruct (Z.leb_spec (ByteLimit.limit st)
                  (ByteLimit.seen st + Z.of_nat (length c))) as [Hreach | Hnot].
      * rewrite ByteLimit_hit_silent by reflexivity.
        destruct (Z.leb_spec (ByteLimit.limit st)
                    (ByteLimit.seen st +
                     (Z.of_nat (length c) + Z.of_nat (length (concat cs)))));
          [reflexivity | lia].
      * rewrite IH; cbn [ByteLimit.limit ByteLimit.seen ByteLimit._hit];
          [| lia | lia | reflexivity].
        rewrite Z.add_assoc. reflexivity.
Qed.

Lemma ByteLimit_unlimited (chunks : list (list byte)) :
  forall st, ByteLimit.limit st <= 0 ->
    ByteLimit.emitted st chunks = concat chunks /\ onLimit_calls st chunks = O.
Proof.
  induction chunks as [| c cs IH]; intros st HK; [split; reflexivity |].
  cbn [ByteLimit.emitted onLimit_calls concat]. unfold ByteLimit._transform.
  destruct (Z.leb_spec (ByteLimit.limit st) 0) as [_ | Hgt]; [| lia].
  destruct (IH st HK) as [-> ->]. cbn [concat]. rewrite app_nil_r.
  split; reflexivity.
Qed.

(** X2: a limiter calls [_onLimit] at most once, whatever arrives after
    the limit was reached: once when the limit is positive and the input
    has at least that many bytes, never otherwise; a limiter whose limit
    is zero or negative passes its input through unchanged, one with a
    positive limit passes the first [limit] bytes. *)
Theorem ByteLimit_fires_once (K : Z) (chunks : list (list byte)) :
  onLimit_calls (ByteLimit.new K) chunks =
    (if (0 <? K) && (K <=? Z.of_nat (length (concat chunks)))
     then 1%nat else O) /\
  ByteLimit.emitted (ByteLimit.new K) chunks =
    (if 0 <? K then take (Z.to_nat K) (concat chunks) else concat chunks).
Proof.
  destruct (Z.ltb_spec 0 K) as [Hpos | Hneg]; cbn [andb].
  - split.
    + rewrite ByteLimit_calls_from; cbn [ByteLimit.new ByteLimit.limit
        ByteLimit.seen ByteLimit._hit]; try lia; reflexivity.
    + rewrite (ByteLimit_emitted_from K) by (cbn; lia || reflexivity).
      cbn [ByteLimit.new ByteLimit.seen]. rewrite Z.sub_0_r. reflexivity.
  - apply and_comm, ByteLimit_unlimited. cbn. exact Hneg.
Qed.

(** ** The cookie jar *)

Lemma SimpleCookieStore_set_keys (k v : string) (m : SimpleCookieStore.t) :
  map fst (SimpleCookieStore.set k v m) =
  if existsb (String.eqb k) (map fst m) then map fst m
  else (map fst m ++ [k])%list.
Proof.
  induction m as [| [k' v'] r IH]; [reflexivity |].
  cbn [SimpleCookieStore.set map fst existsb].
  destruct (String.eqb_spec k k') as [-> | Hne]; cbn [orb map fst].
  - reflexivity.
  - rewrite IH. destruct (existsb (String.eqb k) (map fst r)); reflexivity.
Qed.

Lemma existsb_eqb_In (k : string) (l : list string) :
  existsb (String.eqb k) l = true <-> In k l.
Proof.
  rewrite existsb_exists. split.
  - intros [x [Hin Heq]]. apply String.eqb_eq in Heq. subst. exact Hin.
  - intros Hin. exists k. split; [exact Hin | apply String.eqb_refl].
Qed.

Lemma SimpleCookieStore_set_NoDup (k v : string) (m : SimpleCookieStore.t) :
  NoDup (map fst m) -> NoDup (map fst (SimpleCookieStore.set k v m)).
Proof.
  intros Hnd. rewrite SimpleCookieStore_set_keys.
  destruct (existsb (String.eqb k) (map fst m)) eqn:Hex; [exact Hnd |].
  apply NoDup_app. repeat split.
  - exact Hnd.
  - intros x Hx Hk. apply list_elem_of_singleton in Hk. subst x.
    apply list_elem_of_In, existsb_eqb_In in Hx. congruence.
  - apply NoDup_singleton.
Qed.

Lemma SimpleCookieStore_set_prefix (k v : string) (m : SimpleCookieStore.t) :
  exists added, map fst (SimpleCookieStore.set k v m) = (map fst m ++ added)%list.
Proof.
  rewrite SimpleCookieStore_set_keys.
  destruct (existsb (String.eqb k) (map fst m)).
  - exists []. rewrite app_nil_r. reflexivity.
  - exists [k]. reflexivity.
Qed.

Lemma SimpleCookieStore_get_after_set (k v name : string)
    (m : SimpleCookieStore.t) :
  SimpleCookieStore.get name (SimpleCookieStore.set k v m) =
  if String.eqb name k then Some v else SimpleCookieStore.get name m.
Proof.
  induction m as [| [k' v'] r IH]; cbn [SimpleCookieStore.set SimpleCookieStore.get].
  - reflexivity.
  - destruct (String.eqb_spec k k') as [-> | Hne];
      cbn [SimpleCookieStore.get].
    + destruct (String.eqb name k'); reflexivity.
    + rewrite IH. destruct (String.eqb_spec name k') as [-> | Hne'].
      * destruct (String.eqb_spec k' k) as [-> | _]; [contradiction | reflexivity].
      * reflexivity.
Qed.

(** X3: reading a name back from the jar gives the value last stored under
    it, and storing under one name changes no other; the names keep the
    order in which they first came, since an existing one is overwritten in
    place. *)
Theorem SimpleCookieStore_get_set (k v name : string) (m : SimpleCookieStore.t) :
  SimpleCookieStore.get name (SimpleCookieStore.set k v m) =
    (if String.eqb name k then Some v else SimpleCookieStore.get name m) /\
  map fst (SimpleCookieStore.set k v m) =
    match SimpleCookieStore.get k m with
    | Some _ => map fst m
    | None => (map fst m ++ [k])%list
    end.
Proof.
  split; [apply SimpleCookieStore_get_after_set |].
  induction m as [| [k' v'] r IH]; [reflexivity |].
  cbn [SimpleCookieStore.set SimpleCookieStore.get map fst].
  destruct (String.eqb_spec k k') as [-> | Hne]; cbn [map fst].
  - reflexivity.
  - rewrite IH. destruct (SimpleCookieStore.get k r); reflexivity.
Qed.

(** X4: taking in [set-cookie] lines never makes a name appear twice in
    the jar, so the [Cookie] header built from it names every cookie once;
    the names already there keep their places. *)
Theorem SimpleCookieStore_keys_unique (arr : list string)
    (m : SimpleCookieStore.t) :
  NoDup (map fst m) ->
  NoDup (map fst (SimpleCookieStore.applySetCookie arr m)) /\
  exists added,
    map fst (SimpleCookieStore.applySetCookie arr m) = (map fst m ++ added)%list.
Proof.
  unfold SimpleCookieStore.applySetCookie.
  revert m. induction arr as [| line arr IH]; intros m Hnd; cbn [fold_left].
  - split; [exact Hnd |]. exists []. rewrite app_nil_r. reflexivity.
  - assert (Hstep : NoDup (map fst (SimpleCookieStore.setCookieLine line m)) /\
                    exists added,
                      map fst (SimpleCookieStore.setCookieLine line m) =
                      (map fst m ++ added)%list).
    { unfold SimpleCookieStore.setCookieLine.
      assert (Hsame : NoDup (map fst m) /\
                      exists added, map fst m = (map fst m ++ added)%list).
      { split; [exact Hnd |]. exists []. rewrite app_nil_r. reflexivity. }
      destruct (negb (nonempty line)); [exact Hsame |].
      destruct (Js.indexOf "=" (Js.first_segment ";" line)) as [eq |];
        [| exact Hsame].
      destruct (nonempty _); [| exact Hsame].
      split; [apply SimpleCookieStore_set_NoDup, Hnd |
              apply SimpleCookieStore_set_prefix]. }
    destruct Hstep as [Hnd1 [a1 Ha1]].
    destruct (IH _ Hnd1) as [Hnd2 [a2 Ha2]].
    split; [exact Hnd2 |]. exists (a1 ++ a2)%list.
    rewrite Ha2, Ha1, app_assoc. reflexivity.
Qed.

Lemma SimpleCookieStore_keys_unique_witness :
  NoDup (map fst [("csrftoken", "a")]) /\
  NoDup (map fst (SimpleCookieStore.applySetCookie
                    ["sessionid=s1; HttpOnly"; "csrftoken=b; Path=/";
                     "sessionid=s2"]
                    [("csrftoken", "a")])).
Proof.
  assert (H : NoDup (map fst [("csrftoken", "a")])) by apply NoDup_singleton.
  split; [exact H |].
  exact (proj1 (SimpleCookieStore_keys_unique
                  ["sessionid=s1; HttpOnly"; "csrftoken=b; Path=/";
                   "sessionid=s2"]
                  [("csrftoken", "a")] H)).
Defined.

(** *** Reading a [set-cookie] line *)

Lemma all_chars_impl (p q : ascii -> bool) (s : string) :
  (forall c, p c = true -> q c = true) ->
  all_chars p s = true -> all_chars q s = true.
Proof.
  intros Hpq. induction s as [| c r IH]; [reflexivity |].
  cbn [all_chars]. intros H. apply andb_true_iff in H as [Hc Hr].
  rewrite (Hpq c Hc), (IH Hr). reflexivity.
Qed.

Lemma string_app_cons (c : ascii) (r s : string) :
  String c r +:+ s = String c (r +:+ s).
Proof. reflexivity. Qed.

Lemma string_app_nil (s : string) : "" +:+ s = s.
Proof. reflexivity. Qed.

Lemma string_app_assoc (s1 s2 s3 : string) :
  (s1 +:+ s2) +:+ s3 = s1 +:+ s2 +:+ s3.
Proof.
  induction s1 as [| c r IH]; [reflexivity |].
  rewrite !string_app_cons, IH. reflexivity.
Qed.

Lemma all_chars_app (p : ascii -> bool) (s1 s2 : string) :
  all_chars p (s1 +:+ s2) = all_chars p s1 && all_chars p s2.
Proof.
  induction s1 as [| c r IH]; [reflexivity |].
  rewrite string_app_cons. cbn [all_chars]. rewrite IH, andb_assoc. reflexivity.
Qed.

Lemma rev_app_rev_app (s1 s2 s3 : string) :
  String.rev_app (String.rev_app s1 s2) s3 =
  String.rev_app s2 (s1 +:+ s3).
Proof.
  revert s2 s3. induction s1 as [| c r IH]; intros s2 s3; [reflexivity |].
  cbn [String.rev_app]. rewrite IH, string_app_cons. reflexivity.
Qed.

Lemma string_app_empty_r (s : string) : s +:+ "" = s.
Proof.
  induction s as [| c r IH]; [reflexivity |].
  rewrite string_app_cons, IH. reflexivity.
Qed.

Lemma string_rev_involutive (s : string) : String.rev (String.rev s) = s.
Proof.
  unfold String.rev. rewrite rev_app_rev_app. cbn [String.rev_app].
  apply string_app_empty_r.
Qed.

Lemma drop_while_none (p : ascii -> bool) (s : string) :
  all_chars (fun c => negb (p c)) s = true -> Js.drop_while p s = s.
Proof.
  destruct s as [| c r]; [reflexivity |]. cbn [all_chars Js.drop_while].
  intros H. apply andb_true_iff in H as [Hc _].
  apply negb_true_iff in Hc. rewrite Hc. reflexivity.
Qed.

Lemma trim_without_space (s : string) :
  all_chars (fun c => negb (Js.is_space c)) s = true -> Js.trim s = s.
Proof.
  intros H. unfold Js.trim. rewrite (drop_while_none _ s H).
  rewrite drop_while_none; [apply string_rev_involutive |].
  apply all_chars_rev_app; [exact H | reflexivity].
Qed.

Lemma take_while_app_stop (p : ascii -> bool) (s : string) (c : ascii)
    (rest : string) :
  all_chars p s = true -> p c = false ->
  Js.take_while p (s +:+ String c rest) = s.
Proof.
  intros Hs Hc.
  induction s as [| d r IH];
    rewrite ?string_app_cons, ?string_app_nil; cbn [Js.take_while].
  - rewrite Hc. reflexivity.
  - cbn [all_chars] in Hs. apply andb_true_iff in Hs as [Hd Hr].
    rewrite Hd, (IH Hr). reflexivity.
Qed.

Lemma indexOf_app_first (c : ascii) (s rest : string) :
  all_chars (fun d => negb (Ascii.eqb d c)) s = true ->
  Js.indexOf c (s +:+ String c rest) = Some (String.length s).
Proof.
  intros Hs.
  induction s as [| d r IH];
    rewrite ?string_app_cons, ?string_app_nil; cbn [Js.indexOf String.length].
  - rewrite Ascii.eqb_refl. reflexivity.
  - cbn [all_chars] in Hs. apply andb_true_iff in Hs as [Hd Hr].
    apply negb_true_iff in Hd. rewrite Ascii.eqb_sym, Hd, (IH Hr). reflexivity.
Qed.

Lemma substring_prefix (s rest : string) :
  substring 0 (String.length s) (s +:+ rest) = s.
Proof.
  induction s as [| d r IH];
    rewrite ?string_app_cons, ?string_app_nil; cbn [String.length substring].
  - destruct rest; reflexivity.
  - rewrite IH. reflexivity.
Qed.

Lemma substring_skip (s rest : string) (n m : nat) :
  substring (String.length s + n) m (s +:+ rest) = substring n m rest.
Proof.
  induction s as [| d r IH]; [reflexivity |].
  rewrite string_app_cons. cbn [String.length Nat.add substring]. exact IH.
Qed.

Lemma substring_whole (s : string) : substring 0 (String.length s) s = s.
Proof.
  induction s as [| d r IH]; [reflexivity |].
  cbn [String.length substring]. rewrite IH. reflexivity.
Qed.

Lemma cookie_pair_segment (k v : string) :
  nonempty k = true ->
  all_chars cookie_name_char k = true ->
  all_chars cookie_value_char v = true ->
  forall m, 
    match Js.indexOf "=" (k +:+ "=" +:+ v) with
    | None => m
    | Some eq =>
        let k' := Js.trim (Js.slice_to eq (k +:+ "=" +:+ v)) in
        let v' := Js.trim (Js.slice_from (eq + 1) (k +:+ "=" +:+ v)) in
        if nonempty k' then SimpleCookieStore.set k' v' m else m
    end = SimpleCookieStore.set k v m.
Proof.
  intros Hne Hk Hv m.
  assert (Hk_eq : all_chars (fun d => negb (Ascii.eqb d "=")) k = true).
  { revert Hk. apply all_chars_impl. intros c Hc.
    apply andb_true_iff in Hc as [_ Hc]. exact Hc. }
  assert (Hk_sp : all_chars (fun c => negb (Js.is_space c)) k = true).
  { revert Hk. apply all_chars_impl. intros c Hc.
    apply andb_true_iff in Hc as [Hc _]. apply andb_true_iff in Hc as [Hc _].
    exact Hc. }
  assert (Hv_sp : all_chars (fun c => negb (Js.is_space c)) v = true).
  { revert Hv. apply all_chars_impl. intros c Hc.
    apply andb_true_iff in Hc as [Hc _]. exact Hc. }
  change (k +:+ "=" +:+ v) with (k +:+ String "=" v).
  rewrite (indexOf_app_first "=" k v Hk_eq). cbn zeta.
  unfold Js.slice_to, Js.slice_from.
  rewrite substring_prefix, (trim_without_space k Hk_sp), Hne.
  rewrite string_length_app. cbn [String.length].
  replace (String.length k + S (String.length v) - (String.length k + 1))%nat
    with (String.length v) by lia.
  rewrite substring_skip. cbn [substring].
  rewrite substring_whole, (trim_without_space v Hv_sp). reflexivity.
Qed.

(** X5: for a name that is not empty and has no white space, [;] or [=],
    and a value without white space or [;] (white space being all that
    [trim] strips, the no-break space included), a [set-cookie] line
    [name=value; attributes] stores [value] under [name], whatever the
    attributes after the first [;] are, and so does the bare line
    [name=value]; the value is what the jar then gives back for the
    name. *)
Theorem setCookieLine_stores_pair (k v attrs : string)
    (m : SimpleCookieStore.t) :
  nonempty k = true ->
  all_chars cookie_name_char k = true ->
  all_chars cookie_value_char v = true ->
  SimpleCookieStore.setCookieLine (k +:+ "=" +:+ v +:+ ";" +:+ attrs) m =
    SimpleCookieStore.set k v m /\
  SimpleCookieStore.setCookieLine (k +:+ "=" +:+ v) m =
    SimpleCookieStore.set k v m /\
  SimpleCookieStore.get k
    (SimpleCookieStore.setCookieLine (k +:+ "=" +:+ v +:+ ";" +:+ attrs) m) =
    Some v.
Proof.
  intros Hne Hk Hv.
  assert (Hseg : all_chars (fun c => negb (Ascii.eqb c ";")) (k +:+ "=" +:+ v)
                 = true).
  { rewrite all_chars_app. apply andb_true_iff. split.
    - revert Hk. apply all_chars_impl. intros c Hc.
      apply andb_true_iff in Hc as [Hc _]. apply andb_true_iff in Hc as [_ Hc].
      exact Hc.
    - change ("=" +:+ v) with (String "=" v). cbn [all_chars].
      apply andb_true_iff. split; [reflexivity |].
      revert Hv. apply all_chars_impl. intros c Hc.
      apply andb_true_iff in Hc as [_ Hc]. exact Hc. }
  assert (Hline : forall s, nonempty (k +:+ s) = true).
  { intros s. destruct k; [discriminate Hne | reflexivity]. }
  assert (H1 : SimpleCookieStore.setCookieLine
                 (k +:+ "=" +:+ v +:+ ";" +:+ attrs) m =
               SimpleCookieStore.set k v m).
  { unfold SimpleCookieStore.setCookieLine. rewrite Hline. cbn [negb].
    unfold Js.first_segment.
    replace (k +:+ "=" +:+ v +:+ ";" +:+ attrs)
      with ((k +:+ "=" +:+ v) +:+ String ";" attrs).
    2:{ rewrite string_app_assoc. reflexivity. }
    rewrite (take_while_app_stop _ _ ";" attrs Hseg) by reflexivity.
    apply cookie_pair_segment; assumption. }
  split; [exact H1 |]. split.
  - unfold SimpleCookieStore.setCookieLine. rewrite Hline. cbn [negb].
    unfold Js.first_segment. rewrite (take_while_all _ _ Hseg).
    apply cookie_pair_segment; assumption.
  - rewrite H1.
    rewrite SimpleCookieStore_get_after_set, String.eqb_refl.
    reflexivity.
Qed.

Lemma setCookieLine_stores_pair_witness :
  nonempty "sessionid" = true /\
  SimpleCookieStore.get "sessionid"
    (SimpleCookieStore.setCookieLine
       ("sessionid" +:+ "=" +:+ "abc=123" +:+ ";" +:+ " HttpOnly; Path=/")
       [("sessionid", "old")]) = Some "abc=123".
Proof.
  split; [reflexivity |].
  exact (proj2 (proj2 (setCookieLine_stores_pair "sessionid" "abc=123"
                         " HttpOnly; Path=/" [("sessionid", "old")]
                         eq_refl eq_refl eq_refl))).
Defined.

(** ** Configuration helpers *)

Lemma digits_value_nonneg (s : string) :
  all_chars Js.is_digit s = true ->
  forall acc, 0 <= acc -> 0 <= Js.digits_value acc s.
Proof.
  induction s as [| c r IH]; intros Hs acc Hacc; [exact Hacc |].
  cbn [all_chars] in Hs. apply andb_true_iff in Hs as [Hc Hr].
  cbn [Js.digits_value]. apply (IH Hr).
  unfold Js.is_digit in Hc. apply andb_true_iff in Hc as [Hlo _].
  apply N.leb_le in Hlo. unfold Js.digit_val. lia.
Qed.

(** X6: a positive fallback makes [parsePositiveInt] answer a positive
    number whatever the configured value is, so the retry count and the
    timeouts the program runs with are at least 1; in the same way
    [parseNonNegativeInt] never answers a negative number. *)
Theorem parsePositiveInt_positive (value : option string) (fallback : Z) :
  0 < fallback ->
  0 < parsePositiveInt value fallback /\
  0 <= parseNonNegativeInt value fallback /\
  1 <= parsePositiveInt value DEFAULT_RETRY_ATTEMPTS.
Proof.
  intros Hf. unfold parsePositiveInt, parseNonNegativeInt, DEFAULT_RETRY_ATTEMPTS.
  destruct (Js.parseInt (Js.or_empty value)) as [n |]; [| lia].
  destruct (isFinite n); cbn [andb]; [| lia].
  destruct (Z.gtb_spec n 0), (Z.geb_spec n 0); lia.
Qed.

Lemma parsePositiveInt_positive_witness :
  0 < 4 /\ 0 < parsePositiveInt (Some "-3") 4.
Proof.
  split; [lia |].
  exact (proj1 (parsePositiveInt_positive (Some "-3") 4 eq_refl)).
Defined.

(** X7: a configured value written as a decimal numeral below 2^53 is
    taken as that number, except that [parsePositiveInt] replaces zero by
    the fallback. *)
Theorem parsePositiveInt_reads_digits (s : string) (fallback : Z) :
  nonempty s = true -> all_chars Js.is_digit s = true ->
  Js.digits_value 0 s < 2 ^ 53 ->
  parsePositiveInt (Some s) fallback =
    (if Js.digits_value 0 s =? 0 then fallback else Js.digits_value 0 s) /\
  parseNonNegativeInt (Some s) fallback = Js.digits_value 0 s.
Proof.
  intros Hne Hs Hsmall.
  pose proof (digits_value_nonneg s Hs 0 (Z.le_refl 0)) as Hpos.
  unfold parsePositiveInt, parseNonNegativeInt. cbn [Js.or_empty].
  rewrite (parseInt_digits s Hne Hs).
  assert (Hfin : isFinite (Js.digits_value 0 s) = true).
  { unfold isFinite. apply Z.ltb_lt. rewrite Z.abs_eq by exact Hpos.
    eapply Z.lt_le_trans; [exact Hsmall |]. vm_compute. discriminate. }
  rewrite Hfin. cbn [andb]. split.
  - destruct (Z.gtb_spec (Js.digits_value 0 s) 0),
             (Z.eqb_spec (Js.digits_value 0 s) 0); lia || reflexivity.
  - destruct (Z.geb_spec (Js.digits_value 0 s) 0); lia || reflexivity.
Qed.

Lemma parsePositiveInt_reads_digits_witness :
  nonempty "12" = true /\ parsePositiveInt (Some "12") 4 = 12.
Proof.
  split; [reflexivity |].
  exact (proj1 (parsePositiveInt_reads_digits "12" 4 eq_refl eq_refl eq_refl)).
Defined.

Lemma endsWith_char_app (c : ascii) (u : string) :
  endsWith_char c (u +:+ String c "") = true.
Proof.
  induction u as [| d r IH].
  - cbn. apply Ascii.eqb_refl.
  - rewrite string_app_cons.
    destruct (r +:+ String c "") as [| e s] eqn:E.
    + apply (f_equal String.length) in E. rewrite string_length_app in E.
      cbn in E. lia.
    + exact IH.
Qed.

(** X8: [ensureTrailingSlash] answers a text that ends in a slash, and
    applying it twice is the same as applying it once. *)
Theorem ensureTrailingSlash_idempotent (u : string) :
  endsWith_char "/" (ensureTrailingSlash u) = true /\
  ensureTrailingSlash (ensureTrailingSlash u) = ensureTrailingSlash u.
Proof.
  assert (H : endsWith_char "/" (ensureTrailingSlash u) = true).
  { unfold ensureTrailingSlash.
    destruct (endsWith_char "/" u) eqn:E; [exact E | apply endsWith_char_app]. }
  split; [exact H |].
  unfold ensureTrailingSlash at 1. rewrite H. reflexivity.
Qed.

Lemma prefix_app (s p : string) : String.prefix s (s +:+ p) = true.
Proof.
  induction s as [| a r IH]; [destruct p; reflexivity |].
  rewrite string_app_cons. cbn [String.prefix].
  destruct (ascii_dec a a) as [_ | Hne]; [exact IH | contradiction].
Qed.

Lemma discoverConfigPath_skip (pre rest : list string) :
  forallb (fun a => negb (is_config_flag a)) pre = true ->
  discoverConfigPath (pre ++ rest) = discoverConfigPath rest.
Proof.
  induction pre as [| a pre IH]; intros H; [reflexivity |].
  cbn [forallb] in H. apply andb_true_iff in H as [Ha Hpre].
  apply negb_true_iff in Ha. unfold is_config_flag in Ha.
  apply orb_false_iff in Ha as [Ha1 Ha2].
  cbn [app discoverConfigPath]. rewrite Ha1, Ha2. apply IH, Hpre.
Qed.

(** X9: the configuration path is decided by the first argument that is
    [--config] or starts with [--config=]: the text after the [=], or the
    argument that follows [--config] when there is one and it is not
    empty; without such an argument, it is [config.json]. *)
Theorem discoverConfigPath_first_flag (pre rest : list string) (p : string) :
  forallb (fun a => negb (is_config_flag a)) pre = true ->
  discoverConfigPath pre = DEFAULT_CONFIG_FILE /\
  discoverConfigPath (pre ++ ("--config=" +:+ p) :: rest) = p /\
  discoverConfigPath (pre ++ "--config" :: p :: rest) =
    (if nonempty p then p else DEFAULT_CONFIG_FILE) /\
  discoverConfigPath (pre ++ ["--config"]) = DEFAULT_CONFIG_FILE.
Proof.
  intros Hpre. repeat split.
  - rewrite <- (app_nil_r pre), discoverConfigPath_skip by exact Hpre.
    reflexivity.
  - rewrite discoverConfigPath_skip by exact Hpre.
    assert (E1 : String.eqb ("--config=" +:+ p) "--config" = false)
      by reflexivity.
    pose proof (prefix_app "--config=" p) as E2.
    cbn [discoverConfigPath]. rewrite E1, E2. unfold Js.slice_from.
    rewrite string_length_app.
    replace (String.length "--config=" + String.length p -
             String.length "--config=")%nat with (String.length p) by lia.
    rewrite <- (Nat.add_0_r (String.length "--config=")).
    rewrite substring_skip. apply substring_whole.
  - rewrite discoverConfigPath_skip by exact Hpre. reflexivity.
  - rewrite discoverConfigPath_skip by exact Hpre. reflexivity.
Qed.

Lemma discoverConfigPath_first_flag_witness :
  forallb (fun a => negb (is_config_flag a)) ["https://x/course/c/"; "--verbose"]
    = true /\
  discoverConfigPath
    (["https://x/course/c/"; "--verbose"] ++
       ("--config=" +:+ "my.json") :: ["--config"; "other.json"]) = "my.json".
Proof.
  split; [reflexivity |].
  exact (proj1 (proj2 (discoverConfigPath_first_flag
                         ["https://x/course/c/"; "--verbose"]
                         ["--config"; "other.json"] "my.json" eq_refl))).
Defined.

(** ** Choosing the video source *)

Lemma test_hq_digit_includes (u : string) :
  test_hq_digit u = true -> Js.includes u "/videos/hq" = true.
Proof.
  induction u as [| c r IH]; cbn [test_hq_digit Js.includes]; intros H.
  - rewrite orb_false_r in H. unfold hq_digit_here in H.
    apply andb_true_iff in H as [H _]. rewrite H. reflexivity.
  - apply orb_true_iff in H as [H | H].
    + unfold hq_digit_here in H. apply andb_true_iff in H as [H _].
      rewrite H. reflexivity.
    + rewrite (IH H). apply orb_true_r.
Qed.

Lemma find_ext_bool {A} (f g : A -> bool) (l : list A) :
  (forall a, f a = g a) -> List.find f l = List.find g l.
Proof.
  intros H. induction l as [| a l IH]; [reflexivity |].
  cbn [List.find]. rewrite H, IH. reflexivity.
Qed.

(** X10: [pickBestSource] answers the first address that contains
    [/videos/hq], and the first address of the list when none does; the
    test for [/videos/hq] followed by a digit adds nothing.  It answers
    [null] only for an empty list. *)
Theorem pickBestSource_prefers_hq (urls : list string) :
  pickBestSource urls =
  match List.find (fun u => Js.includes u "/videos/hq") urls with
  | Some hq => Some hq
  | None => head urls
  end.
Proof.
  unfold pickBestSource.
  rewrite (find_ext_bool _ (fun u => Js.includes u "/videos/hq")).
  2:{ intros u. destruct (test_hq_digit u) eqn:E; [| reflexivity].
      rewrite (test_hq_digit_includes u E). reflexivity. }
  destruct urls as [| first rest]; [reflexivity |].
  destruct (List.find _ (first :: rest)) as [hq |] eqn:E; [| reflexivity].
  apply List.find_some in E as [_ E].
  destruct hq; [discriminate E | reflexivity].
Qed.

(** ** File names *)

Lemma drop_spaces_suffix (s : list N) :
  exists dropped, s = (dropped ++ Utf16.drop_spaces s)%list.
Proof.
  induction s as [| c r [d Hd]]; [exists []; reflexivity |].
  cbn [Utf16.drop_spaces]. destruct (Utf16.is_space c).
  - exists (c :: d). cbn [app]. f_equal. exact Hd.
  - exists []. reflexivity.
Qed.

Lemma drop_spaces_head (s : list N) (c : N) :
  head (Utf16.drop_spaces s) = Some c -> Utf16.is_space c = false.
Proof.
  induction s as [| d r IH]; [discriminate |].
  cbn [Utf16.drop_spaces]. destruct (Utf16.is_space d) eqn:E; [exact IH |].
  cbn [head]. intros [= <-]. exact E.
Qed.

Lemma trim_prefix (s : list N) :
  exists dropped, Utf16.drop_spaces s = (Utf16.trim s ++ dropped)%list.
Proof.
  unfold Utf16.trim.
  destruct (drop_spaces_suffix (rev (Utf16.drop_spaces s))) as [d Hd].
  exists (rev d).
  rewrite <- rev_app_distr, <- Hd, rev_involutive. reflexivity.
Qed.

Lemma trim_head (s : list N) (c : N) :
  head (Utf16.trim s) = Some c -> Utf16.is_space c = false.
Proof.
  destruct (trim_prefix s) as [d Hd]. intros H.
  apply (drop_spaces_head s). rewrite Hd.
  destruct (Utf16.trim s); [discriminate H | exact H].
Qed.

Lemma trim_Forall (P : N -> Prop) (s : list N) :
  Forall P s -> Forall P (Utf16.trim s).
Proof.
  intros H. destruct (trim_prefix s) as [d1 Hd1].
  destruct (drop_spaces_suffix s) as [d2 Hd2].
  rewrite Hd2, Hd1 in H.
  apply Forall_app in H as [_ H]. apply Forall_app in H as [H _]. exact H.
Qed.

Lemma collapse_Forall (s : list N) :
  Forall (fun c => Utf16.forbidden c = false) s ->
  forall inRun,
    Forall (fun c => Utf16.forbidden c = false /\
                     (Utf16.collapsible c = true -> c = 32%N))
      (Utf16.collapse inRun s).
Proof.
  induction 1 as [| c r Hc Hr IH]; intros inRun; cbn [Utf16.collapse].
  - constructor.
  - destruct (Utf16.collapsible c) eqn:E.
    + destruct inRun; [apply IH |].
      constructor; [split; reflexivity | apply IH].
    + constructor; [| apply IH]. split; [exact Hc | congruence].
Qed.

(** X11: a sanitized name has at most 150 code units, none of them a
    slash, colon, asterisk, question mark, double quote, angle bracket or
    bar; the only white space or direction mark left in it is the plain
    space, and it does not begin with white space. *)
Theorem sanitizeName_safe (name : list N) :
  (length (sanitizeName name) <= 150)%nat /\
  Forall (fun c => Utf16.forbidden c = false /\
                   (Utf16.collapsible c = true -> c = 32%N))
    (sanitizeName name) /\
  match head (sanitizeName name) with
  | Some c => Utf16.is_space c = false
  | None => True
  end.
Proof.
  unfold sanitizeName. repeat split.
  - rewrite length_take. lia.
  - apply Forall_take, trim_Forall, collapse_Forall.
    apply Forall_map, Forall_forall. intros c _. cbn beta.
    destruct (Utf16.forbidden c) eqn:E; [reflexivity | exact E].
  - destruct (head (take 150 _)) as [c |] eqn:E; [| exact I].
    match type of E with
    | head (take _ (Utf16.trim ?s)) = _ =>
        apply (trim_head s); destruct (Utf16.trim s);
        [discriminate E | exact E]
    end.
Qed.

(** ** Chapter and lesson filters *)

Lemma add_range_elem (a b n : Z) (out : gset Z) :
  n ∈ add_range a b out <-> n ∈ out \/ Z.min a b <= n <= Z.max a b.
Proof.
  unfold add_range.
  rewrite elem_of_union, elem_of_list_to_set, elem_of_seqZ.
  destruct (Z.leb_spec a b) as [Hab | Hab]; split; intros [Hn | Hn];
    (left; exact Hn) || (right; lia).
Qed.

Lemma parseNumberSpec_parts_positive (parts : list string) :
  forall out out',
    (forall n, n ∈ out -> 1 <= n) ->
    parseNumberSpec_parts parts out = Ret out' ->
    forall n, n ∈ out' -> 1 <= n.
Proof.
  induction parts as [| p rest IH]; intros out out' Hout Hrun.
  - cbn in Hrun. injection Hrun as <-. exact Hout.
  - cbn [parseNumberSpec_parts] in Hrun.
    destruct (match_range p) as [[da db] |].
    + destruct (Z.leb_spec (Js.digits_value 0 da) 0) as [| Ha];
        [discriminate Hrun |].
      destruct (Z.leb_spec (Js.digits_value 0 db) 0) as [| Hb];
        [discriminate Hrun |].
      cbn [orb] in Hrun. eapply IH; [| exact Hrun].
      intros n Hn. apply add_range_elem in Hn as [Hn | Hn]; [auto | lia].
    + destruct (negb (test_digits p)); [discriminate Hrun |].
      destruct (Z.leb_spec (Js.digits_value 0 p) 0) as [| Hp];
        [discriminate Hrun |].
      eapply IH; [| exact Hrun].
      intros n Hn. apply elem_of_union in Hn as [Hn | Hn]; [auto |].
      apply elem_of_singleton in Hn. lia.
Qed.

(** X12: every number of a filter that [parseNumberSpec] answers is at
    least 1. *)
Theorem parseNumberSpec_members_positive (spec : option string)
    (out : gset Z) :
  parseNumberSpec spec = Ret (Some out) ->
  forall n, n ∈ out -> 1 <= n.
Proof.
  unfold parseNumberSpec. intros Hrun.
  destruct (negb (nonempty (Js.trim (Js.or_empty spec)))); [discriminate Hrun |].
  destruct (parseNumberSpec_parts _ ∅) as [out0 | e] eqn:E; [| discriminate Hrun].
  injection Hrun as <-.
  apply (parseNumberSpec_parts_positive _ _ _ (fun n Hn => match not_elem_of_empty n Hn with end) E).
Qed.

Lemma parseNumberSpec_members_positive_witness :
  exists out,
    parseNumberSpec (Some " 7, 5-3 ,2") = Ret (Some out) /\
    forall n, n ∈ out -> 1 <= n.
Proof.
  eexists. split; [vm_compute; reflexivity |].
  apply (parseNumberSpec_members_positive (Some " 7, 5-3 ,2")).
  vm_compute. reflexivity.
Defined.

Lemma split_on_none (sep : ascii) (s : string) :
  all_chars (fun c => negb (Ascii.eqb c sep)) s = true ->
  split_on sep s = [s].
Proof.
  induction s as [| c r IH]; [reflexivity |]. cbn [all_chars split_on].
  intros H. apply andb_true_iff in H as [Hc Hr].
  apply negb_true_iff in Hc. rewrite Hc, (IH Hr). reflexivity.
Qed.

Lemma drop_while_app_stop (p : ascii -> bool) (s : string) (c : ascii)
    (rest : string) :
  all_chars p s = true -> p c = false ->
  Js.drop_while p (s +:+ String c rest) = String c rest.
Proof.
  intros Hs Hc. induction s as [| d r IH].
  - rewrite string_app_nil. cbn [Js.drop_while]. rewrite Hc. reflexivity.
  - rewrite string_app_cons. cbn [all_chars] in Hs.
    apply andb_true_iff in Hs as [Hd Hr].
    cbn [Js.drop_while]. rewrite Hd. exact (IH Hr).
Qed.

Lemma drop_while_all (p : ascii -> bool) (s : string) :
  all_chars p s = true -> Js.drop_while p s = "".
Proof.
  induction s as [| d r IH]; [reflexivity |]. cbn [all_chars Js.drop_while].
  intros H. apply andb_true_iff in H as [Hd Hr]. rewrite Hd. exact (IH Hr).
Qed.

Lemma digits_not_space (s : string) :
  all_chars Js.is_digit s = true ->
  all_chars (fun c => negb (Js.is_space c)) s = true.
Proof.
  apply all_chars_impl. intros c Hc.
  destruct (digit_not_space_sign c Hc) as [-> _]. reflexivity.
Qed.

Lemma digits_not_comma (s : string) :
  all_chars Js.is_digit s = true ->
  all_chars (fun c => negb (Ascii.eqb c ",")) s = true.
Proof.
  apply all_chars_impl. intros c Hc.
  destruct (Ascii.eqb_spec c ",") as [-> | _]; [discriminate Hc | reflexivity].
Qed.

Lemma match_range_digits (a b : string) :
  nonempty a = true -> all_chars Js.is_digit a = true ->
  nonempty b = true -> all_chars Js.is_digit b = true ->
  match_range (a +:+ "-" +:+ b) = Some (a, b).
Proof.
  intros Ha Hda Hb Hdb. unfold match_range.
  change (a +:+ "-" +:+ b) with (a +:+ String "-" b).
  rewrite (take_while_app_stop _ a "-" b Hda) by reflexivity.
  rewrite (drop_while_app_stop _ a "-" b Hda) by reflexivity.
  destruct a as [| a0 ar]; [discriminate Ha |].
  cbn [Js.drop_while]. change (Js.is_space "-") with false. cbv iota.
  rewrite (drop_while_none _ b (digits_not_space b Hdb)).
  rewrite (take_while_all _ b Hdb), (drop_while_all _ b Hdb).
  destruct b; [discriminate Hb | reflexivity].
Qed.

(** X13: a range written [a-b] with two positive decimal numerals below
    2^53 that are less than 2^20 apart selects exactly the numbers from the
    smaller to the larger one, both included, and the same numbers when it
    is written [b-a]. *)
Theorem parseNumberSpec_range (a b : string) :
  nonempty a = true -> all_chars Js.is_digit a = true ->
  nonempty b = true -> all_chars Js.is_digit b = true ->
  1 <= Js.digits_value 0 a < 2 ^ 53 -> 1 <= Js.digits_value 0 b < 2 ^ 53 ->
  Z.abs (Js.digits_value 0 a - Js.digits_value 0 b) < 2 ^ 20 ->
  let lo := Z.min (Js.digits_value 0 a) (Js.digits_value 0 b) in
  let hi := Z.max (Js.digits_value 0 a) (Js.digits_value 0 b) in
  exists out,
    parseNumberSpec (Some (a +:+ "-" +:+ b)) = Ret (Some out) /\
    parseNumberSpec (Some (b +:+ "-" +:+ a)) = Ret (Some out) /\
    forall n, n ∈ out <-> lo <= n <= hi.
Proof.
  intros Ha Hda Hb Hdb [Hva _] [Hvb _] _ lo hi.
  assert (Hrun : forall x y,
             nonempty x = true -> all_chars Js.is_digit x = true ->
             nonempty y = true -> all_chars Js.is_digit y = true ->
             1 <= Js.digits_value 0 x -> 1 <= Js.digits_value 0 y ->
             parseNumberSpec (Some (x +:+ "-" +:+ y)) =
             Ret (Some (add_range (Js.digits_value 0 x) (Js.digits_value 0 y) ∅))).
  { intros x y Hx Hdx Hy Hdy Hvx Hvy. unfold parseNumberSpec. cbn [Js.or_empty].
    assert (Hsp : all_chars (fun c => negb (Js.is_space c))
                    (x +:+ "-" +:+ y) = true).
    { rewrite all_chars_app, (digits_not_space x Hdx).
      change ("-" +:+ y) with (String "-" y). cbn [all_chars andb].
      change (negb (Js.is_space "-")) with true.
      exact (digits_not_space y Hdy). }
    assert (Hco : all_chars (fun c => negb (Ascii.eqb c ","))
                    (x +:+ "-" +:+ y) = true).
    { rewrite all_chars_app, (digits_not_comma x Hdx).
      change ("-" +:+ y) with (String "-" y). cbn [all_chars andb].
      change (negb (Ascii.eqb "-" ",")) with true.
      exact (digits_not_comma y Hdy). }
    assert (Hne : nonempty (x +:+ "-" +:+ y) = true).
    { destruct x; [discriminate Hx | reflexivity]. }
    rewrite (trim_without_space _ Hsp), Hne. cbn [negb].
    rewrite (split_on_none _ _ Hco). cbn [map List.filter].
    rewrite (trim_without_space _ Hsp), Hne.
    cbn [parseNumberSpec_parts]. rewrite (match_range_digits x y Hx Hdx Hy Hdy).
    destruct (Z.leb_spec (Js.digits_value 0 x) 0); [lia |].
    destruct (Z.leb_spec (Js.digits_value 0 y) 0); [lia |].
    reflexivity. }
  exists (add_range (Js.digits_value 0 a) (Js.digits_value 0 b) ∅).
  split; [apply Hrun; assumption |]. split.
  - rewrite Hrun by assumption. do 2 f_equal.
    apply set_eq. intros n. rewrite !add_range_elem.
    split; (intros [Hn | Hn]; [left; exact Hn | right; lia]).
  - intros n. rewrite add_range_elem. subst lo hi. split.
    + intros [H | H]; [exfalso; exact (not_elem_of_empty n H) | exact H].
    + intros H. right. exact H.
Qed.

Lemma parseNumberSpec_range_witness :
  nonempty "12" = true /\
  exists out,
    parseNumberSpec (Some ("12" +:+ "-" +:+ "9")) = Ret (Some out) /\
    forall n, n ∈ out <-> 9 <= n <= 12.
Proof.
  split; [reflexivity |].
  destruct (parseNumberSpec_range "12" "9") as [out [H1 [_ H2]]];
    try reflexivity; try (vm_compute; split; [discriminate | reflexivity]).
  exists out. split; [exact H1 | exact H2].
Defined.

(** ** The retrying client, as a whole *)

Lemma retry_trace_from_snoc q attempt k :
  (EvFetch q :: EvSleep (toBackoffMs attempt) ::
     retry_trace_from q (attempt + 1) k ++ [EvFetch q])%list =
  (retry_trace_from q attempt (S k) ++ [EvFetch q])%list.
Proof. reflexivity. Qed.

Lemma fetchWithRetry_loop_answer q R n :
  forall attempt lastErr w,
    attempt + Z.of_nat n = R ->
    exists k : nat,
      (k <= n)%nat /\
      (forall i, (i < k)%nat ->
         retriable_outcome (remote_fetch w (i + tick w)%nat q) = true) /\
      (retriable_outcome (remote_fetch w (k + tick w)%nat q) = false \/
       k = n) /\
      fetchWithRetry_loop q R (S n) attempt lastErr w =
      (remote_fetch w (k + tick w)%nat q,
       advance (S k) (retry_trace_from q attempt k ++ [EvFetch q]) w).
Proof.
  induction n as [| n IH]; intros attempt lastErr w Hn.
  - exists O. rewrite fetchWithRetry_loop_step.
    assert (Hlast : (attempt <? R) = false) by (apply Z.ltb_ge; lia).
    cbn [Nat.add retry_trace_from app].
    repeat split; [lia | intros i Hi; lia | right; reflexivity |].
    destruct (remote_fetch w (tick w) q);
      rewrite Hlast, ?andb_false_r; reflexivity.
  - assert (Hmore : (attempt <? R) = true) by (apply Z.ltb_lt; lia).
    rewrite fetchWithRetry_loop_step.
    destruct (retriable_outcome (remote_fetch w (tick w) q)) eqn:Hr.
    + assert (Hgo : forall lastErr', exists k : nat,
                 (k <= S n)%nat /\
                 (forall i, (i < k)%nat ->
                    retriable_outcome (remote_fetch w (i + tick w)%nat q) = true) /\
                 (retriable_outcome (remote_fetch w (k + tick w)%nat q) = false \/
                  k = S n) /\
                 fetchWithRetry_loop q R (S n) (attempt + 1) lastErr'
                   (advance 1 [EvFetch q; EvSleep (toBackoffMs attempt)] w) =
                 (remote_fetch w (k + tick w)%nat q,
                  advance (S k) (retry_trace_from q attempt k ++ [EvFetch q]) w)).
      { intros lastErr'.
        destruct (IH (attempt + 1) lastErr'
                    (advance 1 [EvFetch q; EvSleep (toBackoffMs attempt)] w))
          as (k & Hk & Hbefore & Hstop & Hrun); [lia |].
        cbn [advance tick remote_fetch] in Hbefore, Hstop, Hrun.
        exists (S k). repeat split.
        - lia.
        - intros [| i] Hi; [exact Hr |].
          replace (S i + tick w)%nat with (i + (1 + tick w))%nat by lia.
          apply Hbefore. lia.
        - replace (S k + tick w)%nat with (k + (1 + tick w))%nat by lia.
          destruct Hstop as [Hstop | ->]; [left; exact Hstop | right; reflexivity].
        - rewrite Hrun, advance_advance.
          replace (S k + tick w)%nat with (k + (1 + tick w))%nat by lia.
          reflexivity. }
      destruct (remote_fetch w (tick w) q) as [res | err]; cbn in Hr;
        rewrite Hr, Hmore; apply Hgo.
    + exists O. cbn [Nat.add retry_trace_from app].
      repeat split; [lia | intros i Hi; lia | left; exact Hr |].
      destruct (remote_fetch w (tick w) q) as [res | err]; cbn in Hr;
        rewrite Hr, ?andb_false_r; reflexivity.
Qed.

(** X14: with at least one attempt allowed, [fetchWithRetry] hands on the
    answer to one of its requests, unchanged: the first answer that is
    not retriable, or else the answer to request number [retries].  It
    waits the backoff delay after each earlier answer and not after the
    last, and sends at most [retries] requests. *)
Theorem fetchWithRetry_first_final_answer (q : FetchRequest) (R : Z)
    (w : World) :
  1 <= R ->
  exists k : nat,
    Z.of_nat k < R /\
    (forall i, (i < k)%nat ->
       retriable_outcome (remote_fetch w (i + tick w)%nat q) = true) /\
    (retriable_outcome (remote_fetch w (k + tick w)%nat q) = false \/
     Z.of_nat k + 1 = R) /\
    fetchWithRetry q R w =
    (remote_fetch w (k + tick w)%nat q,
     advance (S k) (retry_trace q k ++ [EvFetch q]) w).
Proof.
  intros HR. unfold fetchWithRetry, retry_trace.
  replace (Z.to_nat R) with (S (Z.to_nat (R - 1))) by lia.
  destruct (fetchWithRetry_loop_answer q R (Z.to_nat (R - 1)) 1 None w)
    as (k & Hk & Hbefore & Hstop & Hrun); [lia |].
  exists k. repeat split; [lia | exact Hbefore | | exact Hrun].
  destruct Hstop as [Hstop | ->]; [left; exact Hstop | right; lia].
Qed.

Lemma fetchWithRetry_first_final_answer_witness :
  1 <= 3 /\
  fetchWithRetry (plain_get "u") 3 world_flaky =
  (Ret (status_only 404),
   advance 2 (retry_trace (plain_get "u") 1 ++ [EvFetch (plain_get "u")])
     world_flaky).
Proof.
  split; [lia |].
  destruct (fetchWithRetry_first_final_answer (plain_get "u") 3 world_flaky)
    as (k & Hk & Hbefore & Hstop & Hrun); [lia |].
  destruct k as [| [| k]].
  - destruct Hstop as [Hstop | Hstop]; [discriminate Hstop | lia].
  - exact Hrun.
  - specialize (Hbefore 1%nat ltac:(lia)). discriminate Hbefore.
Defined.






(** ** Downloads, as a whole *)

Lemma download_status_retryable (status : Z) :
  100 <= status <= 599 ->
  download_retryable (new_Error (explainHttpFailure status "Download")) =
  (status =? 408) || (status =? 425).
Proof.
  intros H.
  assert (Hall : forallb
            (fun s => Bool.eqb
               (download_retryable (new_Error (explainHttpFailure s "Download")))
               ((s =? 408) || (s =? 425)))
            http_statuses = true) by (vm_compute; reflexivity).
  rewrite forallb_forall in Hall.
  apply Bool.eqb_prop, Hall, list_elem_of_In, elem_of_seqZ. lia.
Qed.

(** X16: a download request answered with a failure status other than 408
    and 425 ends the call at once, whatever number of attempts is allowed:
    the error of [explainHttpFailure] is thrown after that one request,
    with no wait and no file touched.  This holds for 429 and for the 5xx
    statuses too. *)
Theorem download_http_failure_is_terminal url filePath referer maxRetries
    sampleBytes w res :
  1 <= maxRetries ->
  recorded_size w filePath = 0 ->
  let q :=
    download_request url referer
      (attempt_range sampleBytes (recorded_size w (filePath +:+ ".part"))) w in
  remote_fetch w (tick w) q = Ret res ->
  res_ok res = false ->
  100 <= res_status res <= 599 ->
  res_status res <> 408 -> res_status res <> 425 ->
  downloadToFile url filePath referer maxRetries sampleBytes w =
  (Throw (new_Error (explainHttpFailure (res_status res) "Download")),
   advance 1 [EvFetch q] w).
Proof.
  intros HR Hfinal q Hfetch Hbad Hrange H408 H425.
  pose proof (download_status_retryable (res_status res) Hrange) as Hcls.
  assert (E408 : (res_status res =? 408) = false) by (apply Z.eqb_neq; exact H408).
  assert (E425 : (res_status res =? 425) = false) by (apply Z.eqb_neq; exact H425).
  rewrite E408, E425 in Hcls. cbn [orb] in Hcls. unfold download_retryable in Hcls.
  rewrite downloadToFile_eq, preflight_eq. cbv zeta. rewrite Hfinal.
  cbn [Z.gtb Z.compare andb]. rewrite andb_false_r.
  destruct (Z.to_nat maxRetries) as [| n] eqn:Hn; [lia |].
  cbn [downloadToFile_loop]. unfold attempt_body, decideResumeOffset.
  subst q.
  unfold attempt_range, download_request, sample_range, resume_range in *.
  rewrite sampling_test.
  munfold. simpl in Hfetch.
  destruct (sampleBytes >? 0) eqn:Hs; simpl.
  - unfold fetch. simpl. rewrite Hfetch. simpl. rewrite Hbad.
    rewrite Hcls, andb_false_r. reflexivity.
  - destruct (recorded_size w (filePath +:+ ".part") >? 0) eqn:Ht; simpl;
      rewrite ?Ht; unfold fetch; simpl; rewrite Hfetch; simpl; rewrite Hbad;
      rewrite Hcls, andb_false_r; reflexivity.
Qed.

Lemma download_http_failure_is_terminal_witness :
  1 <= 4 /\
  fst (downloadToFile "u" "f.mp4" "" 4 0 world_unavailable) =
    Throw (new_Error (explainHttpFailure 503 "Download")) /\
  fetches (trace (snd (downloadToFile "u" "f.mp4" "" 4 0 world_unavailable))) =
    [("GET", None)] /\
  waits (trace (snd (downloadToFile "u" "f.mp4" "" 4 0 world_unavailable))) = [].
Proof.
  split; [lia |].
  rewrite (download_http_failure_is_terminal "u" "f.mp4" "" 4 0
             world_unavailable (status_only 503));
    try reflexivity; try lia; try (vm_compute; discriminate).
  - repeat split; vm_compute; reflexivity.
  - vm_compute. split; discriminate.
Defined.

(** X17: asked for a sample when the final file is there and not empty,
    [downloadToFile] answers "exists" at once: nothing is sent and nothing
    is written, whatever the size of the file and of the sample. *)
Theorem sample_keeps_existing_file url filePath referer maxRetries
    sampleBytes w :
  0 < sampleBytes -> 0 < recorded_size w filePath ->
  downloadToFile url filePath referer maxRetries sampleBytes w =
  (Ret (Some "exists"), w).
Proof.
  intros Hs Hfinal. rewrite downloadToFile_eq, preflight_eq. cbv zeta.
  assert (E1 : (recorded_size w filePath >? 0) = true) by lia.
  assert (E2 : (sampleBytes >? 0) = true) by lia.
  rewrite E1, E2. reflexivity.
Qed.

Lemma sample_keeps_existing_file_witness :
  0 < 1000 /\
  downloadToFile "u" "f.mp4" "" 4 1000 world_with_final =
  (Ret (Some "exists"), world_with_final).
Proof.
  split; [lia |].
  apply sample_keeps_existing_file; [lia | vm_compute; reflexivity].
Defined.

(** X22: a download request answered 408 or 425 while attempts remain is
    followed by the backoff wait of the first attempt and then by the
    second attempt, which starts from the same sizes on record and with no
    file touched. *)
Theorem download_timeout_status_is_retried url filePath referer maxRetries
    sampleBytes w res :
  2 <= maxRetries ->
  recorded_size w filePath = 0 ->
  let tmpSize := recorded_size w (filePath +:+ ".part") in
  let q := download_request url referer (attempt_range sampleBytes tmpSize) w in
  remote_fetch w (tick w) q = Ret res ->
  res_status res = 408 \/ res_status res = 425 ->
  downloadToFile url filePath referer maxRetries sampleBytes w =
  (let '(r, fs) :=
     downloadToFile_loop url filePath referer maxRetries sampleBytes
       (Z.to_nat maxRetries - 1) 2
       (mkDlFrame 0 tmpSize None false,
        advance 1 [EvFetch q; EvSleep (toBackoffMs 1)] w) in
   (r, snd fs)).
Proof.
  intros HR Hfinal tmpSize q Hfetch Hstatus.
  assert (Hrange : 100 <= res_status res <= 599) by lia.
  pose proof (download_status_retryable (res_status res) Hrange) as Hcls.
  assert (Hbad : res_ok res = false).
  { unfold res_ok. destruct Hstatus as [-> | ->]; reflexivity. }
  assert (Hyes : (res_status res =? 408) || (res_status res =? 425) = true).
  { destruct Hstatus as [-> | ->]; reflexivity. }
  rewrite Hyes in Hcls. unfold download_retryable in Hcls.
  assert (Hmore : (1 <? maxRetries) = true) by lia.
  rewrite downloadToFile_eq, preflight_eq. cbv zeta. rewrite Hfinal.
  cbn [Z.gtb Z.compare andb]. rewrite andb_false_r.
  destruct (Z.to_nat maxRetries) as [| n] eqn:Hn; [lia |].
  replace (S n - 1)%nat with n by lia.
  cbn [downloadToFile_loop]. unfold attempt_body, decideResumeOffset.
  subst q tmpSize.
  unfold attempt_range, download_request, sample_range, resume_range in *.
  rewrite sampling_test.
  munfold. simpl in Hfetch.
  destruct (sampleBytes >? 0) eqn:Hs; simpl.
  - unfold fetch. simpl. rewrite Hfetch. simpl. rewrite Hbad.
    rewrite Hcls, Hmore. cbn [andb fst snd]. unfold sleep. munfold.
    cbn [fst snd]. rewrite log_two. reflexivity.
  - destruct (recorded_size w (filePath +:+ ".part") >? 0) eqn:Ht; simpl;
      rewrite ?Ht; unfold fetch; simpl; rewrite Hfetch; simpl; rewrite Hbad;
      rewrite Hcls, Hmore; cbn [andb fst snd]; unfold sleep; munfold;
      cbn [fst snd]; rewrite log_two; reflexivity.
Qed.

Lemma download_timeout_status_is_retried_witness :
  2 <= 4 /\
  fst (downloadToFile "u" "f.mp4" "" 4 0 world_timeout_once) =
    Ret (Some "downloaded") /\
  fetches (trace (snd (downloadToFile "u" "f.mp4" "" 4 0 world_timeout_once))) =
    [("GET", None); ("GET", None)] /\
  waits (trace (snd (downloadToFile "u" "f.mp4" "" 4 0 world_timeout_once))) =
    [700].
Proof.
  split; [lia |].
  rewrite (download_timeout_status_is_retried "u" "f.mp4" "" 4 0
             world_timeout_once (status_only 408));
    try reflexivity; try lia; try (left; reflexivity).
  repeat split; vm_compute; reflexivity.
Defined.

(** X18: a download without sample cap that is answered with a success
    status and a body that ends cleanly returns "downloaded" after that one
    request: the final file is what the temporary file held before,
    followed by the bytes of the body, and the temporary file is gone.  A
    request that resumes from a temporary file must be answered 206. *)
Theorem download_completes url filePath referer maxRetries w res chunks :
  1 <= maxRetries ->
  recorded_size w filePath = 0 ->
  let tmpPath := filePath +:+ ".part" in
  let N := recorded_size w tmpPath in
  let q := download_request url referer (attempt_range 0 N) w in
  remote_fetch w (tick w) q = Ret res ->
  res_ok res = true ->
  res_body res = Some (mkBody chunks None) ->
  (0 < N -> res_status res = 206) ->
  downloadToFile url filePath referer maxRetries 0 w =
  (Ret (Some "downloaded"),
   set_files
     (<[filePath := (file_or_empty w tmpPath ++ concat chunks)%list]>
        (delete tmpPath (files w)))
     (advance 1 [EvFetch q; EvProgress N (expectedTotalOf 0 res N)] w)).
Proof.
  intros HR Hfinal tmpPath N q Hfetch Hok Hbody H206.
  rewrite downloadToFile_eq, preflight_eq. cbv zeta. rewrite Hfinal. simpl.
  destruct (Z.to_nat maxRetries) as [| n] eqn:Hn; [lia |].
  simpl downloadToFile_loop. unfold attempt_body, decideResumeOffset.
  subst q. unfold attempt_range, download_request, resume_range in Hfetch.
  simpl in Hfetch. fold tmpPath. fold N. fold tmpPath in Hfetch. fold N in Hfetch.
  munfold. simpl.
  destruct (N >? 0) eqn:HN; simpl; rewrite ?HN; unfold fetch; simpl;
    rewrite Hfetch; simpl; rewrite Hok, Hbody; simpl.
  - assert (E206 : (res_status res =? 206) = true)
      by (apply Z.eqb_eq, H206; lia).
    rewrite E206. simpl. rewrite ?HN.
    assert (E0 : (N =? 0) = false) by lia.
    rewrite E0. simpl.
    unfold pipeline_plain. munfold. simpl.
    unfold file_or_empty.
    destruct (files w !! tmpPath) as [part |] eqn:Hpart.
    2:{ unfold N, recorded_size in HN. rewrite Hpart in HN. discriminate HN. }
    erewrite pump_appends by (simpl; apply lookup_insert_eq).
    simpl.
    erewrite finalize_moves;
      [| apply part_ne | simpl; apply lookup_insert_eq].
    simpl. rewrite !insert_insert_eq, !delete_insert_eq.
    unfold download_request, attempt_range, resume_range.
    cbn [Z.gtb Z.compare]. rewrite ?HN. f_equal. world_ext.
    rewrite <- app_assoc. reflexivity.
  - assert (E0 : (N =? 0) = true).
    { unfold N, recorded_size in *. destruct (files w !! tmpPath); lia. }
    rewrite ?E0. simpl.
    unfold pipeline_plain. munfold. simpl.
    erewrite pump_appends by (simpl; apply lookup_insert_eq).
    simpl.
    erewrite finalize_moves;
      [| apply part_ne | simpl; apply lookup_insert_eq].
    simpl. rewrite !insert_insert_eq, !delete_insert_eq.
    assert (Hempty : file_or_empty w tmpPath = []).
    { unfold file_or_empty. unfold N, recorded_size in E0.
      destruct (files w !! tmpPath) as [[| b l] |]; [reflexivity | | reflexivity].
      simpl in E0. lia. }
    rewrite Hempty.
    unfold download_request, attempt_range, resume_range.
    cbn [Z.gtb Z.compare]. rewrite ?HN.
    assert (HN0 : N = 0) by lia. rewrite HN0. f_equal. world_ext.
    rewrite <- app_assoc. reflexivity.
Qed.

Lemma download_completes_witness :
  1 <= 4 /\
  fst (downloadToFile "u" "f.mp4" "" 4 0 world_resumable) =
    Ret (Some "downloaded") /\
  files (snd (downloadToFile "u" "f.mp4" "" 4 0 world_resumable)) =
    <["f.mp4" := [x01; x02; x03; x04; x05; x06; x07]]> ∅.
Proof.
  split; [lia |].
  rewrite (download_completes "u" "f.mp4" "" 4 world_resumable
             (mkFetchResponse 206 ∅ (Some (mkBody [[x05; x06]; [x07]] None)) None)
             [[x05; x06]; [x07]]);
    try reflexivity; try lia.
  split; [reflexivity |]. vm_compute. reflexivity.
Defined.

(** ** What a download does to the files, whatever the remote side does *)

Lemma wp_ret {S A} (a : A) (Q : Res A -> S -> Prop) (s : S) :
  Q (Ret a) s -> wp (ret a) Q s.
Proof. exact (fun H => H). Qed.

Lemma wp_throw {S A} (e : JsError) (Q : Res A -> S -> Prop) (s : S) :
  Q (Throw e) s -> wp (throw e) Q s.
Proof. exact (fun H => H). Qed.

Lemma wp_bind {S A B} (m : M S A) (k : A -> M S B) (Q : Res B -> S -> Prop)
    (s : S) :
  wp m (fun r s' =>
          match r with
          | Ret a => wp (k a) Q s'
          | Throw e => Q (Throw e) s'
          end) s ->
  wp (bind m k) Q s.
Proof.
  unfold wp, bind. destruct (m s) as [[a | e] s']; cbn [fst snd]; auto.
Qed.

Lemma wp_try_catch {S A} (m : M S A) (h : JsError -> M S A)
    (Q : Res A -> S -> Prop) (s : S) :
  wp m (fun r s' =>
          match r with
          | Ret a => Q (Ret a) s'
          | Throw e => wp (h e) Q s'
          end) s ->
  wp (try_catch m h) Q s.
Proof.
  unfold wp, try_catch. destruct (m s) as [[a | e] s']; cbn [fst snd]; auto.
Qed.

Lemma wp_conseq {S A} (m : M S A) (Q Q' : Res A -> S -> Prop) (s : S) :
  (forall r s', Q r s' -> Q' r s') -> wp m Q s -> wp m Q' s.
Proof. unfold wp. auto. Qed.

Lemma wp_lift {F S A} (m : M S A) (Q : Res A -> F * S -> Prop) (f : F) (s : S) :
  wp m (fun r s' => Q r (f, s')) s -> wp (lift m) Q (f, s).
Proof. unfold wp, lift. cbn [fst snd]. destruct (m s). auto. Qed.

Lemma wp_try_ignore {S} (m : M S unit) (Q : Res unit -> S -> Prop) (s : S) :
  wp m (fun _ s' => Q (Ret tt) s') s -> wp (try_ignore m) Q s.
Proof.
  intros H. apply wp_try_catch. revert H. apply wp_conseq.
  intros [[] | e] s' H; exact H.
Qed.

Lemma wp_gets {S A} (g : S -> A) (Q : Res A -> S -> Prop) (s : S) :
  Q (Ret (g s)) s -> wp (gets g) Q s.
Proof. exact (fun H => H). Qed.

Lemma wp_modify {S} (g : S -> S) (Q : Res unit -> S -> Prop) (s : S) :
  Q (Ret tt) (g s) -> wp (modify g) Q s.
Proof. exact (fun H => H). Qed.

Lemma wp_getf {F S A} (g : F -> A) (Q : Res A -> F * S -> Prop) (s : F * S) :
  Q (Ret (g (fst s))) s -> wp (getf g) Q s.
Proof. exact (fun H => H). Qed.

Lemma wp_setf {F S} (g : F -> F) (Q : Res unit -> F * S -> Prop) (s : F * S) :
  Q (Ret tt) (g (fst s), snd s) -> wp (setf g) Q s.
Proof. exact (fun H => H). Qed.

Lemma download_frame_refl (f : string) (w : World) : download_frame f w w.
Proof. split; [reflexivity | left; reflexivity]. Qed.

Lemma download_frame_step (f : string) (w0 w w' : World) :
  download_frame f w0 w ->
  (forall p, p <> f +:+ ".part" -> files w' !! p = files w !! p) ->
  download_frame f w0 w'.
Proof.
  intros [Hothers Hfinal] Hstep. split.
  - intros p Hp Hp'. rewrite Hstep by exact Hp'. apply Hothers; assumption.
  - rewrite Hstep by (apply not_eq_sym, part_ne). exact Hfinal.
Qed.

Lemma download_frame_same (f : string) (w0 w w' : World) :
  download_frame f w0 w -> files w' = files w -> download_frame f w0 w'.
Proof.
  intros H Hsame. apply (download_frame_step f w0 w w' H).
  intros p _. rewrite Hsame. reflexivity.
Qed.

Lemma getRemoteSizeAndRanges_files url referer (w : World)
    (Q : Res RemoteInfo -> World -> Prop) :
  (forall info w', files w' = files w -> Q (Ret info) w') ->
  wp (getRemoteSizeAndRanges url referer) Q w.
Proof.
  intros H. unfold wp.
  destruct (getRemoteSizeAndRanges_total url referer w)
    as (info & w' & -> & Hnet).
  apply H. apply Hnet.
Qed.

Lemma move_aside_frame (f : string) (finalSize : Z) (w0 : World)
    (fr : DlFrame) (w : World) :
  download_frame f w0 w ->
  wp (try_catch
        (lift (rename f (f +:+ ".part")) ;;
         setf (set_existingTmpSize finalSize) ;;
         setf (set_existingFinalSize 0) ;;
         ret finalSize)
        (fun _ => ret 0))
     (fun _ s' => download_frame f w0 (snd s')) (fr, w).
Proof.
  intros [Hothers Hfinal].
  apply wp_try_catch, wp_bind, wp_lift. unfold wp at 1, rename.
  destruct (files w !! f) as [content |] eqn:Hf; cbn [fst snd].
  - apply wp_bind, wp_setf, wp_bind, wp_setf, wp_ret. cbn [fst snd files set_files].
    split.
    + intros p Hp Hp'. cbn [files set_files].
      rewrite lookup_insert_ne by (apply not_eq_sym; exact Hp').
      rewrite lookup_delete_ne by (apply not_eq_sym; exact Hp).
      apply Hothers; assumption.
    + right. cbn [files set_files].
      rewrite lookup_insert_ne by apply part_ne.
      apply lookup_delete_eq.
  - apply wp_ret. split; [exact Hothers | right; exact Hf].
Qed.

Lemma decideResumeOffset_frame url (f : string) referer sampleBytes
    (w0 : World) (fr : DlFrame) (w : World) :
  download_frame f w0 w ->
  wp (decideResumeOffset url f (f +:+ ".part") referer sampleBytes)
     (fun _ s' => download_frame f w0 (snd s')) (fr, w).
Proof.
  intros H. unfold decideResumeOffset.
  destruct (sampleBytes >? 0); [apply wp_ret; exact H |].
  apply wp_bind, wp_getf. cbn [fst].
  destruct (existingTmpSize fr >? 0); [apply wp_ret; exact H |].
  apply wp_bind, wp_getf. cbn [fst].
  destruct (existingFinalSize fr >? 0); [| apply wp_ret; exact H].
  apply wp_bind, wp_getf. cbn [fst]. apply wp_bind.
  destruct (remoteInfo fr) as [info |].
  - apply wp_ret. destruct (acceptRanges info); [| apply wp_ret; exact H].
    apply move_aside_frame, H.
  - apply wp_bind, wp_lift, getRemoteSizeAndRanges_files.
    intros info w' Hfiles. apply wp_bind, wp_setf, wp_ret. cbn [fst snd].
    assert (H' : download_frame f w0 w')
      by (eapply download_frame_same; eassumption).
    destruct (acceptRanges info); [| apply wp_ret; exact H'].
    apply move_aside_frame, H'.
Qed.

Lemma pump_frame (p : string) (chunks : list (list byte)) :
  forall w (Q : Res unit -> World -> Prop),
    (forall w', (forall p', p' <> p -> files w' !! p' = files w !! p') ->
                (is_Some (files w !! p) -> is_Some (files w' !! p)) ->
                Q (Ret tt) w') ->
    wp (pump p chunks) Q w.
Proof.
  induction chunks as [| c cs IH]; intros w Q HQ.
  - apply wp_ret, HQ; auto.
  - cbn [pump]. apply wp_bind. unfold write_chunk. apply wp_modify.
    apply IH. intros w' Hothers Hsome. apply HQ.
    + intros p' Hp'. rewrite Hothers by exact Hp'. cbn [files set_files].
      apply lookup_insert_ne, not_eq_sym, Hp'.
    + intros _. apply Hsome. cbn [files set_files]. rewrite lookup_insert_eq.
      eexists. reflexivity.
Qed.

Lemma pump_limited_frame (p : string) (chunks : list (list byte)) :
  forall st pushed fr w (Q : Res unit -> DlFrame * World -> Prop),
    (forall r fr' w',
        (forall p', p' <> p -> files w' !! p' = files w !! p') ->
        (is_Some (files w !! p) -> is_Some (files w' !! p)) ->
        Q r (fr', w')) ->
    wp (pump_limited p st pushed chunks) Q (fr, w).
Proof.
  assert (Hwrite : forall bytes fr w
                     (Q : Res unit -> DlFrame * World -> Prop),
             (forall w',
                 (forall p', p' <> p -> files w' !! p' = files w !! p') ->
                 (is_Some (files w !! p) -> is_Some (files w' !! p)) ->
                 Q (Ret tt) (fr, w')) ->
             wp (lift (write_chunk p bytes)) Q (fr, w)).
  { intros bytes fr w Q HQ. apply wp_lift. unfold write_chunk.
    apply wp_modify, HQ; cbn [files set_files].
    - intros p' Hp'. apply lookup_insert_ne, not_eq_sym, Hp'.
    - intros _. rewrite lookup_insert_eq. eexists. reflexivity. }
  induction chunks as [| c cs IH]; intros st pushed fr w Q HQ.
  - cbn [pump_limited]. apply Hwrite. intros w' Hothers Hsome.
    apply HQ; assumption.
  - cbn [pump_limited].
    destruct (ByteLimit._transform st c) as [[st' out] fired]. cbv zeta.
    destruct fired.
    + apply wp_bind, wp_lift, wp_gets, wp_bind, Hwrite.
      intros w' Hothers Hsome.
      apply wp_bind, wp_setf, wp_throw, HQ; assumption.
    + apply IH, HQ.
Qed.

Lemma finalize_installs (f : string) (w : World)
    (Q : Res unit -> World -> Prop) :
  is_Some (files w !! (f +:+ ".part")) ->
  (forall w',
      installed f w' ->
      (forall p, p <> f -> p <> f +:+ ".part" -> files w' !! p = files w !! p) ->
      Q (Ret tt) w') ->
  wp (finalize (f +:+ ".part") f (f +:+ ".part")) Q w.
Proof.
  intros [content Htmp] HQ. unfold wp.
  rewrite (finalize_moves _ _ w content (part_ne f) Htmp). cbn [fst snd].
  apply HQ.
  - split; cbn [files set_files].
    + rewrite lookup_insert_eq. eexists. reflexivity.
    + rewrite lookup_insert_ne by (apply not_eq_sym, part_ne).
      apply lookup_delete_eq.
  - intros p Hp Hp'. cbn [files set_files].
    rewrite lookup_insert_ne by (apply not_eq_sym; exact Hp).
    apply lookup_delete_ne, not_eq_sym, Hp'.
Qed.

Lemma attempt_body_frame url (f : string) referer sampleBytes (w0 : World)
    (fr : DlFrame) (w : World) :
  download_frame f w0 w ->
  wp (attempt_body url f referer sampleBytes)
     (fun r s' =>
        match r with
        | Ret status =>
            status = "downloaded" /\ installed f (snd s') /\
            (forall p, p <> f -> p <> f +:+ ".part" ->
               files (snd s') !! p = files w0 !! p)
        | Throw _ => download_frame f w0 (snd s')
        end) (fr, w).
Proof.
  intros H. unfold attempt_body. cbv zeta. apply wp_bind.
  eapply wp_conseq; [| apply decideResumeOffset_frame; exact H].
  intros [resumeOffset | e] [fr1 w1] H1; cbn [snd] in H1; [| exact H1].
  apply wp_bind, wp_lift, wp_gets, wp_bind, wp_lift.
  unfold wp at 1, fetch. cbn [fst snd].
  match goal with
  | |- context [EvFetch ?q] => set (q0 := q)
  end.
  assert (H2 : download_frame f w0 (next_tick (log_event (EvFetch q0) w1)))
    by (eapply download_frame_same; [exact H1 | reflexivity]).
  destruct (remote_fetch w1 (tick w1) q0) as [res | e]; [| exact H2].
  destruct (if res_ok res then res_body res else None) as [body |];
    [| apply wp_throw; exact H2].
  destruct ((resumeOffset >? 0) && negb (res_status res =? 206)).
  - apply wp_bind, wp_lift, wp_try_ignore. unfold wp at 1, unlink.
    destruct (files _ !! (f +:+ ".part")); cbn [fst snd];
      apply wp_bind, wp_setf, wp_throw; cbn [snd]; [| exact H2].
    eapply download_frame_step; [exact H2 |].
    intros p Hp. cbn [files set_files].
    apply lookup_delete_ne, not_eq_sym, Hp.
  - apply wp_bind, wp_lift. unfold createWriteStream. apply wp_modify.
    apply wp_bind, wp_lift, wp_modify, wp_bind, wp_setf. cbn [fst snd].
    match goal with
    | |- wp _ _ (_, ?w) => set (w3 := w)
    end.
    assert (H3 : download_frame f w0 w3).
    { eapply download_frame_step; [exact H2 |].
      intros p Hp. subst w3. cbn [files set_files log_event].
      apply lookup_insert_ne, not_eq_sym, Hp. }
    assert (Htmp3 : is_Some (files w3 !! (f +:+ ".part"))).
    { subst w3. cbn [files set_files log_event]. rewrite lookup_insert_eq.
      eexists. reflexivity. }
    clearbody w3.
    assert (Hdone : forall fr4 w4,
               download_frame f w0 w4 ->
               is_Some (files w4 !! (f +:+ ".part")) ->
               forall status,
               wp (lift (finalize (f +:+ ".part") f (f +:+ ".part")) ;;
                   ret status)
                  (fun (r : Res string) (s' : DlFrame * World) =>
                     match r with
                     | Ret st =>
                         st = status /\ installed f (snd s') /\
                         (forall p, p <> f -> p <> f +:+ ".part" ->
                            files (snd s') !! p = files w0 !! p)
                     | Throw _ => download_frame f w0 (snd s')
                     end) (fr4, w4)).
    { intros fr4 w4 [H4 _] Htmp4 status.
      apply wp_bind, wp_lift, finalize_installs; [exact Htmp4 |].
      intros w5 Hinst Hothers. apply wp_ret. cbn [snd].
      repeat split; [apply Hinst | apply Hinst |].
      intros p Hp Hp'. rewrite Hothers by assumption. apply H4; assumption. }
    assert (Hpipe : forall (Q : Res unit -> DlFrame * World -> Prop),
               (forall r fr4 w4,
                   download_frame f w0 w4 ->
                   is_Some (files w4 !! (f +:+ ".part")) -> Q r (fr4, w4)) ->
               wp (if truthyZ sampleBytes && (sampleBytes >? 0)
                   then pipeline_limited (f +:+ ".part") sampleBytes body
                   else lift (pipeline_plain (f +:+ ".part") body))
                  Q (set_byteLimitReached false fr1, w3)).
    { intros Q HQ.
      destruct (truthyZ sampleBytes && (sampleBytes >? 0)).
      - unfold pipeline_limited. apply wp_bind, pump_limited_frame.
        intros r fr4 w4 Hothers Hsome.
        assert (H4 : download_frame f w0 w4)
          by (eapply download_frame_step; eassumption).
        destruct r as [[] | e]; [| apply HQ; auto].
        apply wp_lift. unfold wp, stream_end.
        destruct (body_error body); apply HQ; auto.
      - apply wp_lift. unfold pipeline_plain. apply wp_bind, pump_frame.
        intros w4 Hothers Hsome.
        assert (H4 : download_frame f w0 w4)
          by (eapply download_frame_step; eassumption).
        unfold wp, stream_end. destruct (body_error body); apply HQ; auto. }
    apply wp_bind, wp_try_catch, wp_bind, Hpipe.
    intros r fr4 w4 H4 Htmp4. destruct r as [[] | pipeErr].
    + apply wp_ret. apply Hdone; assumption.
    + apply wp_bind, wp_getf. cbn [fst].
      destruct (truthyZ sampleBytes && byteLimitReached fr4);
        [| apply wp_throw; exact H4].
      apply wp_bind, wp_lift, finalize_installs; [exact Htmp4 |].
      intros w5 Hinst Hothers. apply wp_ret, wp_ret. cbn [snd].
      repeat split; [apply Hinst | apply Hinst |].
      intros p Hp Hp'. rewrite Hothers by assumption. apply H4; assumption.
Qed.

Lemma downloadToFile_loop_frame url (f : string) referer maxRetries
    sampleBytes (w0 : World) (n : nat) :
  forall attempt fr w,
    download_frame f w0 w ->
    wp (downloadToFile_loop url f referer maxRetries sampleBytes n attempt)
       (fun r s' =>
          match r with
          | Ret (Some status) =>
              status = "downloaded" /\ installed f (snd s') /\
              (forall p, p <> f -> p <> f +:+ ".part" ->
                 files (snd s') !! p = files w0 !! p)
          | _ => download_frame f w0 (snd s')
          end) (fr, w).
Proof.
  induction n as [| n IH]; intros attempt fr w H.
  - apply wp_ret. exact H.
  - cbn [downloadToFile_loop]. apply wp_bind, wp_try_catch, wp_bind.
    eapply wp_conseq; [| apply attempt_body_frame; exact H].
    intros [status | err] [fr1 w1] H1; cbn [snd] in H1.
    + apply wp_ret, wp_ret. exact H1.
    + destruct ((attempt <? maxRetries) && _); [| apply wp_throw; exact H1].
      apply wp_bind, wp_lift. unfold sleep. apply wp_modify, wp_ret.
      apply IH. eapply download_frame_same; [exact H1 | reflexivity].
Qed.

(** X19: whatever the remote side answers, [downloadToFile] leaves every
    file but the target and its temporary file as it was.  When it answers
    "exists" no file has changed at all; when it answers "downloaded" the
    target is in place and the temporary file is gone; when it throws, or
    falls through without an answer, the target is as it was before the
    call or is no longer there, never replaced by something else. *)
Theorem downloadToFile_outcomes url (filePath : string) referer maxRetries
    sampleBytes (w : World) :
  wp (downloadToFile url filePath referer maxRetries sampleBytes)
     (fun r w' =>
        (forall p, p <> filePath -> p <> filePath +:+ ".part" ->
           files w' !! p = files w !! p) /\
        match r with
        | Ret (Some status) =>
            (status = "exists" /\ files w' = files w) \/
            (status = "downloaded" /\ installed filePath w')
        | _ =>
            files w' !! filePath = files w !! filePath \/
            files w' !! filePath = None
        end) w.
Proof.
  unfold wp. rewrite downloadToFile_eq.
  destruct (preflight_total url filePath referer sampleBytes w)
    as (r & fr & w1 & -> & Hr & Hnet).
  assert (Hfiles : files w1 = files w) by apply Hnet.
  destruct Hr as [-> | ->]; cbn [fst snd].
  - split; [intros p _ _; rewrite Hfiles; reflexivity |].
    left. split; [reflexivity | exact Hfiles].
  - pose proof (downloadToFile_loop_frame url filePath referer maxRetries
                  sampleBytes w (Z.to_nat maxRetries) 1 fr w1
                  (download_frame_same _ _ _ _ (download_frame_refl _ w) Hfiles))
      as Hloop.
    unfold wp in Hloop.
    destruct (downloadToFile_loop _ _ _ _ _ _ _ (fr, w1)) as [r [fr2 w2]].
    cbn [fst snd] in *.
    destruct r as [[status |] | err].
    + destruct Hloop as (-> & Hinst & Hothers).
      split; [exact Hothers | right; split; [reflexivity | exact Hinst]].
    + exact Hloop.
    + exact Hloop.
Qed.

(** ** The session manager, as a whole *)

Lemma wp_net_only {A} (m : M World A) (P : Event -> Prop) (w : World)
    (Q : Res A -> World -> Prop) :
  net_only P w (snd (m w)) ->
  (forall r w', net_only any_event w w' -> Q r w') ->
  wp m Q w.
Proof.
  intros Hnet HQ. apply HQ.
  eapply net_only_weaken; [| exact Hnet]. intros e _. exact I.
Qed.


Lemma login_judge_check_state (r : RawResponse) (w : World) :
  snd (login_judge_check r w) = w.
Proof.
  unfold login_judge_check.
  repeat match goal with
         | |- context [if ?b then _ else _] => destruct b
         end; reflexivity.
Qed.

Lemma loginWithCredentialsInline_frame email password (w : World)
    (Q : Res bool -> World -> Prop) :
  (forall e w', net_only any_event w w' -> Q (Throw e) w') ->
  (forall w1 token sid,
      net_only any_event w w1 -> nonempty sid = true ->
      Q (Ret true)
        (set_ACTIVE_COOKIE
           (Some ("csrftoken=" +:+ token +:+ "; sessionid=" +:+ sid)) w1)) ->
  wp (loginWithCredentialsInline email password) Q w.
Proof.
  intros Hthrow Hret. unfold loginWithCredentialsInline.
  destruct (negb (nonempty email) || negb (nonempty password)).
  { apply wp_throw, Hthrow, net_only_refl. }
  apply wp_bind.
  apply (wp_net_only _ _ _ _ (login_step_csrf_not_auth w)).
  intros [[csrf store] | e] w1 N1; [| apply Hthrow, N1].
  apply wp_bind.
  apply (wp_net_only _ _ _ _ (login_step_check_not_auth email csrf store w1)).
  intros [[r store1] | e] w2 N2;
    [| apply Hthrow; eapply net_only_trans; eassumption].
  assert (N12 : net_only any_event w w2)
    by (eapply net_only_trans; eassumption).
  apply wp_bind. unfold wp at 1.
  rewrite (surjective_pairing (login_judge_check r w2)),
    login_judge_check_state. cbn [fst snd].
  destruct (fst (login_judge_check r w2)) as [[] | e]; [| apply Hthrow, N12].
  unfold login_step_auth. apply wp_bind.
  match goal with
  | |- wp (rawRequestWithRetry ?q) _ _ =>
      apply (wp_net_only _ _ _ _ (rawRequestWithRetry_net_only q w2))
  end.
  intros [r3 | e] w3 N3;
    [| apply Hthrow; eapply net_only_trans; eassumption].
  assert (N13 : net_only any_event w w3)
    by (eapply net_only_trans; eassumption).
  destruct ((raw_status r3 <? 200) || (raw_status r3 >=? 300));
    [apply wp_throw, Hthrow, N13 |].
  destruct (negb (JsonOps.truthy (raw_json r3)));
    [apply wp_throw, Hthrow, N13 |].
  destruct (negb (JsonOps.is_string _ "success"));
    [apply wp_throw, Hthrow, N13 |].
  destruct (Js.truthy_str (SimpleCookieStore.get "sessionid" _)) eqn:Hsid;
    cbn [negb]; [| apply wp_throw, Hthrow, N13].
  apply wp_bind, wp_modify, wp_ret, Hret; [exact N13 |].
  destruct (SimpleCookieStore.get "sessionid" _) as [[| c s] |];
    [discriminate Hsid | reflexivity | discriminate Hsid].
Qed.

(** X20: a login with credentials that throws leaves the active cookie as
    it was; one that returns returns [true] and has installed a cookie
    made of the anti-forgery token and a session id that is not empty.
    Either way it touches no file and not the stored session. *)
Theorem loginWithCredentialsInline_outcome email password (w : World) :
  wp (loginWithCredentialsInline email password)
     (fun r w' =>
        files w' = files w /\ sessionCookie w' = sessionCookie w /\
        match r with
        | Ret b =>
            b = true /\
            exists token sid,
              nonempty sid = true /\
              ACTIVE_COOKIE w' =
              Some ("csrftoken=" +:+ token +:+ "; sessionid=" +:+ sid)
        | Throw _ => ACTIVE_COOKIE w' = ACTIVE_COOKIE w
        end) w.
Proof.
  apply loginWithCredentialsInline_frame.
  - intros e w' N. repeat split; apply N.
  - intros w1 token sid N Hsid. cbn [files sessionCookie set_ACTIVE_COOKIE].
    repeat split; try apply N.
    exists token, sid. split; [exact Hsid | reflexivity].
Qed.




(** ** The cookie that requests carry *)

Lemma commonHeaders_cookie_lookup referer (w : World) :
  commonHeaders referer w !! "cookie" =
  if nonempty (current_cookie w) &&
     negb (String.eqb (current_cookie w) COOKIE_PLACEHOLDER)
  then Some (current_cookie w) else None.
Proof.
  unfold commonHeaders. cbv zeta.
  assert (Href : forall h : gmap string string,
             (if nonempty referer then <["referer" := referer]> h else h)
               !! "cookie" = h !! "cookie").
  { intros h. destruct (nonempty referer); [| reflexivity].
    apply lookup_insert_ne. discriminate. }
  rewrite Href.
  destruct (nonempty (current_cookie w) &&
            negb (String.eqb (current_cookie w) COOKIE_PLACEHOLDER)).
  - apply lookup_insert_eq.
  - repeat (rewrite lookup_insert_ne by discriminate). apply lookup_empty.
Qed.

(** X23: a request carries a cookie only in a state in which
    [ensureCookiePresent] lets the run go on, and the cookie it carries is
    neither empty nor the placeholder.  The other way round, when
    [ensureCookiePresent] lets the run go on, requests carry a cookie
    unless the active cookie is itself the placeholder text. *)
Theorem commonHeaders_cookie_present referer (w : World) :
  (forall c, commonHeaders referer w !! "cookie" = Some c ->
     ensureCookiePresent w = true /\ nonempty c = true /\
     c <> COOKIE_PLACEHOLDER /\ c = current_cookie w) /\
  (ensureCookiePresent w = true ->
   ACTIVE_COOKIE w <> Some COOKIE_PLACEHOLDER ->
   commonHeaders referer w !! "cookie" = Some (current_cookie w)).
Proof.
  rewrite commonHeaders_cookie_lookup.
  unfold ensureCookiePresent, current_cookie. split.
  - intros c.
    destruct (ACTIVE_COOKIE w) as [[| a s] |]; cbn [Js.truthy_str Js.or_empty andb negb].
    + destruct (nonempty (COOKIE w)) eqn:Hc; cbn [andb]; [| discriminate].
      destruct (String.eqb_spec (COOKIE w) COOKIE_PLACEHOLDER) as [He | Hne];
        cbn [negb]; [discriminate |].
      intros [= <-]. repeat split; [exact Hc | exact Hne].
    + destruct (String.eqb_spec (String a s) COOKIE_PLACEHOLDER) as [He | Hne];
        cbn [negb andb nonempty]; [discriminate |].
      intros [= <-]. repeat split. exact Hne.
    + destruct (nonempty (COOKIE w)) eqn:Hc; cbn [andb]; [| discriminate].
      destruct (String.eqb_spec (COOKIE w) COOKIE_PLACEHOLDER) as [He | Hne];
        cbn [negb]; [discriminate |].
      intros [= <-]. repeat split; [exact Hc | exact Hne].
  - destruct (ACTIVE_COOKIE w) as [[| a s] |]; cbn [Js.truthy_str Js.or_empty andb negb].
    + destruct (nonempty (COOKIE w) &&
                negb (String.eqb (COOKIE w) COOKIE_PLACEHOLDER));
        [reflexivity | discriminate].
    + intros _ Hactive.
      destruct (String.eqb_spec (String a s) COOKIE_PLACEHOLDER) as [He | Hne];
        [contradiction Hactive; f_equal; exact He | reflexivity].
    + destruct (nonempty (COOKIE w) &&
                negb (String.eqb (COOKIE w) COOKIE_PLACEHOLDER));
        [reflexivity | discriminate].
Qed.

(** ** The new embeddings at work *)

Example sanitizeName_example :
  sanitizeName (units_of "  lecture 1/2:  what?  ") =
  units_of "lecture 1 2 what".
Proof. vm_compute. reflexivity. Qed.

Example pickBestSource_example :
  pickBestSource
    ["https://cdn/videos/lq7/a.mp4"; "https://cdn/videos/hq7/a.mp4"] =
  Some "https://cdn/videos/hq7/a.mp4".
Proof. vm_compute. reflexivity. Qed.

Example parseNumberSpec_examples :
  parseNumberSpec (Some "0-3") = Throw (new_Error "Invalid range: 0-3") /\
  parseNumberSpec (Some "2,x") = Throw (new_Error "Invalid number token: x") /\
  parseNumberSpec (Some "   ") = Ret None /\
  parseNumberSpec None = Ret None /\
  parseNumberSpec (Some ",") = Ret (Some ∅).
Proof. repeat split; vm_compute; reflexivity. Qed.
